(** * Aoe4bot: the multi-profile game enumerator and the win-rate aggregator

    A shallow embedding of [src/aoe4/api.js] ([fetchPlayerGames],
    [enumPlayerGames]) and of [src/aoe4/handlers.js] ([getPlayerWinRate]),
    with the properties of the merge and of the session / window
    aggregation proved over it.

    Conventions of the embedding:
    - [Date.parse(game.started_at)] is a number of milliseconds; a game
      record carries that number directly ([World.started_at : Z]);
    - the HTTP collaborator [fetchAOE4World] answers either [null] or a JSON
      object with the fields [page], [offset], [total_count], [games]; it is
      a parameter of the development;
    - the async generator is a pull-based state machine ([Api.next]); the
      requests it issues and the games it yields are logged in a trace;
    - a thrown JavaScript error (the [TypeError] of a [null] state, the
      [RangeError] of a date out of range) is the [None] of the effect monad
      [Eff];
    - counters, durations and timestamps are integers, and [win_rate] is an
      exact fraction. *)

From Stdlib Require Import ZArith QArith Qround String Lia Permutation Sorted.
From stdpp Require Import base option list.

Local Open Scope Z_scope.

(** ** JavaScript values, as far as the argument checks look at them *)

Module Js.

#[local] Unset Elimination Schemes.
Inductive Value :=
| Undefined
| Null
| Bool (b : bool)
| Number (q : Q)              (* a finite number, as a fraction *)
| NaN
| Infinity (negative : bool)
| Str (s : string)
| Array (elems : list Value).
#[local] Set Elimination Schemes.

(** [if (v)], [v && ...], [!v] *)
Definition truthy (v : Value) : bool :=
  match v with
  | Undefined | Null | NaN => false
  | Bool b => b
  | Number q => negb (Qnum q =? 0)
  | Infinity _ => true
  | Str s => negb (String.eqb s "")
  | Array _ => true
  end.

(** [Number.isInteger(v)] *)
Definition Number_isInteger (v : Value) : bool :=
  match v with
  | Number q => Qnum q mod Zpos (Qden q) =? 0
  | _ => false
  end.

(** The number with integer value [z]. *)
Definition int (z : Z) : Value := Number (inject_Z z).

(** The integer value of a number that passed [Number_isInteger]. *)
Definition int_value (v : Value) : option Z :=
  match v with
  | Number q => if Qnum q mod Zpos (Qden q) =? 0 then Some (Qnum q / Zpos (Qden q)) else None
  | _ => None
  end.

(** A number or [null] used as a condition: [0] counts as absent. *)
Definition given (x : option Z) : option Z :=
  match x with
  | Some t => if t =? 0 then None else Some t
  | None => None
  end.

(** [new Date(t).toISOString()] throws a [RangeError] unless [t] is a time
    value: at most 8.64e15 milliseconds away from the epoch. *)
Definition is_time_value (t : Z) : bool := Z.abs t <=? 8640000000000000.

(** The double nearest to the integer [z], for [z] not negative, ties to
    even, as the integer it is worth: what a number literal or a product is
    rounded to. [None] is [Infinity]. Below 2^53 every integer is a double. *)
Definition double (z : Z) : option Z :=
  if z <? 2 ^ 53 then Some z
  else
    let e := Z.log2 z - 52 in
    let q := z / 2 ^ e in
    let r := z mod 2 ^ e in
    let half := 2 ^ (e - 1) in
    let q' :=
      if r <? half then q
      else if half <? r then q + 1
      else if Z.even q then q else q + 1 in
    if 2 ^ 1024 <=? q' * 2 ^ e then None else Some (q' * 2 ^ e).

(** [x * k] on doubles, for [x] not negative and [k] positive. *)
Definition times (x : option Z) (k : Z) : option Z :=
  match x with
  | Some v => double (v * k)
  | None => None
  end.

(** [Math.round(x)]: the integer nearest to [x], halves rounded up. *)
Definition Math_round (x : Q) : Z := Qfloor (x + (1 # 2)).

End Js.

(** ** Game records of the statistics API *)

Module World.

Record Player := {
  profile_id : Z;
  civilization : string;
  result : option string     (* "win", "loss", or null *)
}.

Record TeamEntry := { player : Player }.

Record Game := {
  started_at : Z;            (* Date.parse(started_at), milliseconds *)
  duration : option Z;       (* seconds; null while the game is in progress *)
  map : string;
  teams : list (list TeamEntry)
}.

End World.

Abbreviation Game := World.Game.

(** ** api.js *)

Module Api.

(** The query sent for one page of a profile's games:
    [/players/${profileId}/games?page=..&opponent_profile_id=..&since=..] *)
Record Request := {
  req_profile : Js.Value;
  req_page : Z;
  req_opponent : option Js.Value;
  req_since : option Z
}.

(** The JSON answer to such a query. *)
Record GamesJson := {
  json_page : Z;
  json_offset : Z;
  json_total_count : Z;
  json_games : list Game
}.

(** The answer as [fetchPlayerGames] decorates it: the per-profile cursor. *)
Record FetchState := {
  profile_id : Js.Value;
  opponent_profile_id : Js.Value;
  page : Z;
  offset : Z;
  total_count : Z;
  games : list Game;
  index : nat
}.

(** [firstState.index += 1] *)
Definition advance (s : FetchState) : FetchState :=
  {| profile_id := profile_id s;
     opponent_profile_id := opponent_profile_id s;
     page := page s;
     offset := offset s;
     total_count := total_count s;
     games := games s;
     index := S (index s) |}.

Inductive Event :=
| Fetch (r : Request)
| Yield (g : Game).

Definition yielded (tr : list Event) : list Game :=
  omap (fun e => match e with Yield g => Some g | Fetch _ => None end) tr.

Definition fetches (tr : list Event) : list Request :=
  omap (fun e => match e with Fetch r => Some r | Yield _ => None end) tr.

(** *** Effects: a log of events, and [None] for a thrown error *)

Definition Eff (A : Type) : Type := list Event * option A.

Definition ret {A} (a : A) : Eff A := ([], Some a).
Definition throw {A} : Eff A := ([], None).
Definition bind {A B} (c : Eff A) (k : A -> Eff B) : Eff B :=
  match c with
  | (tr, None) => (tr, None)
  | (tr, Some a) => let (tr', b) := k a in (tr ++ tr', b)
  end.

Notation "x <- c ;; k" := (bind c (fun x => k))
  (at level 90, c at next level, right associativity).

(** How a consumer's loop over the generator ends. *)
Inductive Outcome (A : Type) :=
| Done (a : A)
| Thrown
| OutOfFuel.
Arguments Done {A} a.
Arguments Thrown {A}.
Arguments OutOfFuel {A}.

(** [if (since) options.since = new Date(since).toISOString()] goes
    through: [since] is absent, or a time value. *)
Definition dated (since : option Z) : bool :=
  match Js.given since with
  | Some t => Js.is_time_value t
  | None => true
  end.

Section Server.

(** [fetchAOE4World] restricted to the games endpoint: [None] is the [null]
    it returns on a network error or a status other than 200. *)
Variable fetchAOE4World : Request -> option GamesJson.

(** The [options] of [fetchPlayerGames], with the profile of the path. *)
Definition request (profileId opponentProfileId : Js.Value)
    (since : option Z) (page : Z) : Request :=
  {| req_profile := profileId;
     req_page := page;
     req_opponent :=
       if Js.truthy opponentProfileId then Some opponentProfileId else None;
     req_since := Js.given since |}.

(** [fetchPlayerGames]: building the options throws a [RangeError], before
    anything is sent, when [since] is given and is no time value. *)
Definition fetchPlayerGames (profileId opponentProfileId : Js.Value)
    (since : option Z) (page : Z) : Eff (option FetchState) :=
  if negb (dated since) then throw
  else
    let options := request profileId opponentProfileId since page in
    ([Fetch options],
     Some (match fetchAOE4World options with
           | Some json =>
               Some {| profile_id := profileId;
                       opponent_profile_id := opponentProfileId;
                       page := json_page json;
                       offset := json_offset json;
                       total_count := json_total_count json;
                       games := json_games json;
                       index := 0 |}
           | None => None
           end)).

(** [s.index >= s.games.length && (s.offset + s.index) < s.total_count] *)
Definition needs_page (s : FetchState) : bool :=
  (length (games s) <=? index s)%nat
  && (offset s + Z.of_nat (index s) <? total_count s).

(** The [for] loop at the head of each round: the states are visited in
    order, a state whose page is used up and which has more games is
    replaced by its next page ([refetch] is the body of the loop). Reading
    [s.index] of a [null] state throws. *)
Definition refetch (opponentProfileId : Js.Value) (since : option Z)
    (s : FetchState) : Eff (option FetchState) :=
  if needs_page s
  then fetchPlayerGames (profile_id s) opponentProfileId since (page s + 1)
  else ret (Some s).

Fixpoint refill (opponentProfileId : Js.Value) (since : option Z)
    (states : list (option FetchState)) : Eff (list (option FetchState)) :=
  match states with
  | [] => ret []
  | None :: _ => throw
  | Some s :: rest =>
      s' <- refetch opponentProfileId since s ;;
      rest' <- refill opponentProfileId since rest ;;
      ret (s' :: rest')
  end.

(** [Date.parse(s.games[s.index].started_at)]; out of range it throws. *)
Definition current (s : FetchState) : option Game := games s !! index s.

(** The callback of [states.reduce]; the state is kept with its position. *)
Definition pick (prev : option (nat * FetchState)) (i : nat) (s : FetchState)
    : Eff (option (nat * FetchState)) :=
  if (length (games s) <=? index s)%nat then ret prev
  else match prev with
       | None => ret (Some (i, s))
       | Some (_, p) =>
           match current p, current s with
           | Some gp, Some gs =>
               if World.started_at gp <? World.started_at gs
               then ret (Some (i, s))
               else ret prev
           | _, _ => throw
           end
       end.

Fixpoint reduce (i : nat) (prev : option (nat * FetchState))
    (states : list (option FetchState)) : Eff (option (nat * FetchState)) :=
  match states with
  | [] => ret prev
  | None :: _ => throw
  | Some s :: rest => prev' <- pick prev i s ;; reduce (S i) prev' rest
  end.

(** One round of [while (true)]: [None] is the [break], otherwise the game
    to yield and the states once the chosen cursor has moved on. *)
Definition round (opponentProfileId : Js.Value) (since : option Z)
    (states : list (option FetchState))
    : Eff (option (Game * list (option FetchState))) :=
  states' <- refill opponentProfileId since states ;;
  firstState <- reduce 0 None states' ;;
  match firstState with
  | None => ret None
  | Some (i, s) =>
      match current s with
      | Some g => ret (Some (g, <[i := Some (advance s)]> states'))
      | None => throw
      end
  end.

(** The generator object: not started yet, or suspended at its [yield]
    (the cursor of the state it yielded from is already moved on). *)
Inductive Generator :=
| Start (profileIds opponentProfileId : Js.Value) (since : option Z)
| Suspended (opponentProfileId : Js.Value) (since : option Z)
    (states : list (option FetchState)).

Inductive Step :=
| Yields (g : Game) (k : Generator)
| Returns (v : Js.Value).

Definition loop (opponentProfileId : Js.Value) (since : option Z)
    (states : list (option FetchState)) : Eff Step :=
  r <- round opponentProfileId since states ;;
  match r with
  | None => ret (Returns Js.Undefined)
  | Some (g, states') => ret (Yields g (Suspended opponentProfileId since states'))
  end.

(** [Promise.all(profileIds.map(p => fetchPlayerGames(p, .., .., 1)))] *)
Fixpoint fetch_all (opponentProfileId : Js.Value) (since : option Z)
    (profileIds : list Js.Value) : Eff (list (option FetchState)) :=
  match profileIds with
  | [] => ret []
  | p :: rest =>
      s <- fetchPlayerGames p opponentProfileId since 1 ;;
      ss <- fetch_all opponentProfileId since rest ;;
      ret (s :: ss)
  end.

(** [if (!Array.isArray(profileIds)) profileIds = [ profileIds ];] *)
Definition as_array (profileIds : Js.Value) : list Js.Value :=
  match profileIds with
  | Js.Array elems => elems
  | v => [v]
  end.

(** [gen.next()] *)
Definition next (gen : Generator) : Eff Step :=
  match gen with
  | Start profileIds opponentProfileId since =>
      let profileIds := as_array profileIds in
      if negb (length (List.filter (fun p => negb (Js.Number_isInteger p)) profileIds) =? 0)%nat
      then ret (Returns Js.Null)
      else if Js.truthy opponentProfileId && negb (Js.Number_isInteger opponentProfileId)
      then ret (Returns Js.Null)
      else
        states <- fetch_all opponentProfileId since profileIds ;;
        loop opponentProfileId since states
  | Suspended opponentProfileId since states => loop opponentProfileId since states
  end.

(** [for await (const game of gen) body]: [body] answers [inl] to [break]
    and [inr] to go on; [fuel] bounds the number of calls of [next]. *)
Fixpoint for_await {A} (fuel : nat) (gen : Generator)
    (body : A -> Game -> A + A) (acc : A) : list Event * Outcome A :=
  match fuel with
  | O => ([], OutOfFuel)
  | S fuel' =>
      match next gen with
      | (tr, None) => (tr, Thrown)
      | (tr, Some (Returns _)) => (tr, Done acc)
      | (tr, Some (Yields g k)) =>
          match body acc g with
          | inl acc' => (tr ++ [Yield g], Done acc')
          | inr acc' =>
              let (tr', o) := for_await fuel' k body acc' in
              (tr ++ Yield g :: tr', o)
          end
      end
  end.

(** The generator drained to its end: the trace, and the value it returns. *)
Fixpoint drain (fuel : nat) (gen : Generator) : list Event * Outcome Js.Value :=
  match fuel with
  | O => ([], OutOfFuel)
  | S fuel' =>
      match next gen with
      | (tr, None) => (tr, Thrown)
      | (tr, Some (Returns v)) => (tr, Done v)
      | (tr, Some (Yields g k)) =>
          let (tr', o) := drain fuel' k in
          (tr ++ Yield g :: tr', o)
      end
  end.

Definition enumPlayerGames (fuel : nat) (profileIds opponentProfileId : Js.Value)
    (since : option Z) : list Event * Outcome Js.Value :=
  drain fuel (Start profileIds opponentProfileId since).

End Server.

End Api.

(** ** handlers.js *)

Module Handlers.

(** The [player] argument: one player object or an array of them. Only
    [profile_id] is read; it is an integer, or [undefined] for the stub
    player that [findPlayerByRank] builds for rank 0. *)
Inductive Subject :=
| Single (profile_id : option Z)
| Several (profile_ids : list (option Z)).

Record Options := {
  opponent : option (option Z);   (* the opponent object, by its profile_id *)
  map : option string;
  civ : option string;
  idletime : Z;                   (* seconds *)
  timespan : option Z;            (* seconds, or null *)
  includeTeamGames : bool
}.

(** The default of [options]: [{ idletime: 4 * 3600, includeTeamGames: false }] *)
Definition default_options : Options :=
  {| opponent := None; map := None; civ := None;
     idletime := 4 * 3600; timespan := None; includeTeamGames := false |}.

(** The [stats] object; [player], [opponent], [timespan] and [idletime] are
    copies of the arguments and are left out. [first_game_at] and
    [last_game_at] start as the number 0, here [None]. *)
Record WinRateStats := {
  games_count : Z;
  wins_count : Z;
  losses_count : Z;
  first_game_at : option Z;
  last_game_at : option Z;
  win_rate : Q;
  duration : Z;
  pending_games : option Z;
  pending_game_started_at : option Z
}.

(** The variables of the loop. *)
Record Locals := {
  stats : WinRateStats;
  lastgame : Z;
  pendingGames : Z;
  pendingGame : option Game
}.

Definition initial : Locals :=
  {| stats := {| games_count := 0; wins_count := 0; losses_count := 0;
                 first_game_at := None; last_game_at := None;
                 win_rate := 100; duration := 0;
                 pending_games := None; pending_game_started_at := None |};
     lastgame := 0; pendingGames := 0; pendingGame := None |}.

Definition js_of_id (id : option Z) : Js.Value :=
  match id with
  | Some z => Js.int z
  | None => Js.Undefined
  end.

Definition playerProfileIds (player : Subject) : list (option Z) :=
  match player with
  | Single p => [p]
  | Several ps => ps
  end.

(** [ids.includes(profile_id)] for the integer [profile_id] of a game *)
Definition includes (ids : list (option Z)) (profile_id : Z) : bool :=
  existsb (fun id => match id with Some z => z =? profile_id | None => false end) ids.

(** [team.filter(p => playerProfileIds.includes(p.player.profile_id))[0]?.player] *)
Definition teamPlayer (ids : list (option Z)) (team : list World.TeamEntry)
    : option World.Player :=
  option_map World.player
    (head (List.filter (fun p => includes ids (World.profile_id (World.player p))) team)).

(** [opponent ? team.filter(p => p.player.profile_id == opponent.profile_id)[0]?.player : null] *)
Definition teamOpponent (opponent : option (option Z)) (team : list World.TeamEntry)
    : option World.Player :=
  match opponent with
  | Some id =>
      option_map World.player
        (head (List.filter
                 (fun p => match id with
                           | Some z => World.profile_id (World.player p) =? z
                           | None => false
                           end) team))
  | None => None
  end.

(** The loop over [game.teams]: the pair [(playerState, opponentState)]. *)
Definition scan_teams (ids : list (option Z)) (opponent : option (option Z))
    (teams : list (list World.TeamEntry)) : option World.Player * option World.Player :=
  fold_left
    (fun st team =>
       match teamPlayer ids team with
       | Some p => (Some p, snd st)
       | None =>
           match teamOpponent opponent team with
           | Some q => (fst st, Some q)
           | None => st
           end
       end)
    teams (None, None).

(** [!game.duration] *)
Definition in_progress (game : Game) : bool :=
  match World.duration game with
  | Some d => d =? 0
  | None => true
  end.

(** [game.duration || 0] *)
Definition duration_or_0 (game : Game) : Z :=
  match World.duration game with
  | Some d => d
  | None => 0
  end.

(** A filter string used as a condition: [null] and the empty string do not filter. *)
Definition wanted (f : option string) (actual : string) : bool :=
  match f with
  | Some s => String.eqb s "" || String.eqb actual s
  | None => true
  end.

(** Lines 118-129: the game is added to the statistics. *)
Definition count_game (st : WinRateStats) (game : Game) (playerState : World.Player)
    : WinRateStats :=
  let r := World.result playerState in
  {| games_count := games_count st + 1;
     wins_count :=
       match r with
       | Some x => if String.eqb x "win" then wins_count st + 1 else wins_count st
       | None => wins_count st
       end;
     losses_count :=
       match r with
       | Some x =>
           if String.eqb x "win" then losses_count st
           else if String.eqb x "loss" then losses_count st + 1
           else losses_count st
       | None => losses_count st
       end;
     first_game_at := Some (World.started_at game);
     last_game_at :=
       match last_game_at st with
       | None => Some (World.started_at game + duration_or_0 game * 1000)
       | Some t => Some t
       end;
     win_rate := win_rate st;
     duration := duration st + duration_or_0 game;
     pending_games := pending_games st;
     pending_game_started_at := pending_game_started_at st |}.

(** Lines 69-94: the team-size filter and the search for the subject and
    the opponent. [Some playerState] when the game goes on to the
    accounting, [None] when it is skipped by a [continue]. *)
Definition participant (o : Options) (ids : list (option Z)) (game : Game)
    : option World.Player :=
  let numPlayers := length (concat (World.teams game)) in
  if (2 <? numPlayers)%nat && negb (includeTeamGames o) then None
  else
    let (playerState, opponentState) := scan_teams ids (opponent o) (World.teams game) in
    match playerState with
    | None => None
    | Some playerState =>
        match opponent o, opponentState with
        | Some _, None => None
        | _, _ => Some playerState
        end
    end.

(** Lines 69-129: what one game that passed the stopping rule does to the
    variables of the loop ([lastgame] is already set). *)
Definition account (o : Options) (ids : list (option Z)) (now : Z)
    (l : Locals) (game : Game) : Locals :=
  match participant o ids game with
  | None => l
  | Some playerState =>
      if in_progress game then
        if now - 3 * 3600 * 1000 <? World.started_at game then
          {| stats := stats l;
             lastgame := lastgame l;
             pendingGames := pendingGames l + 1;
             pendingGame :=
               match pendingGame l with
               | None => Some game
               | Some g => Some g
               end |}
        else l
      else if negb (wanted (civ o) (World.civilization playerState)) then l
      else if negb (wanted (map o) (World.map game)) then l
      else
        {| stats := count_game (stats l) game playerState;
           lastgame := lastgame l;
           pendingGames := pendingGames l;
           pendingGame := pendingGame l |}
  end.

(** Lines 59-65: the stopping rule, [true] for [break]. *)
Definition stops (o : Options) (now : Z) (lastgame gametime : Z) : bool :=
  match Js.given (timespan o) with
  | None => negb (lastgame =? 0) && (idletime o * 1000 <? lastgame - gametime)
  | Some t => t * 1000 <? now - gametime
  end.

Definition set_lastgame (gametime : Z) (l : Locals) : Locals :=
  {| stats := stats l; lastgame := gametime;
     pendingGames := pendingGames l; pendingGame := pendingGame l |}.

(** The body of [for await (const game of games)]: [inl] is [break]. *)
Definition body (o : Options) (ids : list (option Z)) (now : Z)
    (l : Locals) (game : Game) : Locals + Locals :=
  let gametime := World.started_at game in
  if stops o now (lastgame l) gametime then inl l
  else inr (account o ids now (set_lastgame gametime l) game).

(** Lines 132-141. *)
Definition finish (l : Locals) : WinRateStats :=
  let st := stats l in
  {| games_count := games_count st;
     wins_count := wins_count st;
     losses_count := losses_count st;
     first_game_at := first_game_at st;
     last_game_at := last_game_at st;
     win_rate :=
       if losses_count st =? 0 then win_rate st
       else (inject_Z (Js.Math_round
                         (inject_Z (1000 * wins_count st)
                          / inject_Z (wins_count st + losses_count st))) / 10)%Q;
     duration := duration st;
     pending_games := Some (pendingGames l);
     pending_game_started_at :=
       match pendingGame l with
       | Some g => Some (World.started_at g)
       | None => pending_game_started_at st
       end |}.

(** The loop over a sequence of games that is already at hand. *)
Fixpoint for_of {A} (body : A -> Game -> A + A) (acc : A) (games : list Game) : A :=
  match games with
  | [] => acc
  | g :: rest =>
      match body acc g with
      | inl acc' => acc'
      | inr acc' => for_of body acc' rest
      end
  end.

(** [options || { idletime: 4 * 3600, includeTeamGames: false }] *)
Definition or_default (options : option Options) : Options :=
  match options with
  | Some o => o
  | None => default_options
  end.

(** Lines 27-33: the call of [enumPlayerGames]; [now0] is the reading of
    [Date.now()] that [since] is computed from. *)
Definition gamesEnumerator (player : Subject) (o : Options) (now0 : Z) : Api.Generator :=
  let opponentProfileId :=
    match opponent o with
    | Some id => js_of_id id
    | None => Js.Undefined
    end in
  let since :=
    match Js.given (timespan o) with
    | Some t => Some (now0 - t * 1000)
    | None => None
    end in
  Api.Start (Js.Array (List.map js_of_id (playerProfileIds player)))
    (match Js.given since with Some _ => opponentProfileId | None => Js.Null end)
    since.

(** [getPlayerWinRate] once the enumerator has produced [games]. *)
Definition winRateOf (games : list Game) (player : Subject) (options : option Options)
    (now : Z) : WinRateStats :=
  let o := or_default options in
  finish (for_of (body o (playerProfileIds player) now) initial games).

(** [getPlayerWinRate(player, options)]; [now0] and [now] are the two
    readings of [Date.now()], [fuel] bounds the games pulled. *)
Definition getPlayerWinRate (fetchAOE4World : Api.Request -> option Api.GamesJson)
    (fuel : nat) (player : Subject) (options : option Options) (now0 now : Z)
    : list Api.Event * Api.Outcome WinRateStats :=
  let o := or_default options in
  let games := gamesEnumerator player o now0 in
  let (tr, r) :=
    Api.for_await fetchAOE4World fuel games (body o (playerProfileIds player) now) initial in
  (tr, match r with
       | Api.Done l => Api.Done (finish l)
       | Api.Thrown => Api.Thrown
       | Api.OutOfFuel => Api.OutOfFuel
       end).

End Handlers.

(** ** The upstream API and the reference notions the properties use *)

Module Upstream.

(** Page [p] (1-based) of a profile's [history], cut in pages of [per_page]
    games: [offset] counts the games of the earlier pages and [total_count]
    all the games of the profile. *)
Definition page_of (per_page : nat) (history : list Game) (p : Z) : Api.GamesJson :=
  let off := (Z.to_nat (p - 1) * per_page)%nat in
  {| Api.json_page := p;
     Api.json_offset := Z.of_nat off;
     Api.json_total_count := Z.of_nat (length history);
     Api.json_games := take per_page (drop off history) |}.

(** A server that always answers, from the per-profile game lists [history]. *)
Definition paged_server (per_page : nat) (history : Z -> list Game)
    (r : Api.Request) : option Api.GamesJson :=
  match Js.int_value (Api.req_profile r) with
  | Some id => Some (page_of per_page (history id) (Api.req_page r))
  | None => None
  end.

(** A server on which the profiles in [down] are out of order. *)
Definition outage (down : Z -> bool) (server : Api.Request -> option Api.GamesJson)
    (r : Api.Request) : option Api.GamesJson :=
  match Js.int_value (Api.req_profile r) with
  | Some id => if down id then None else server r
  | None => None
  end.

End Upstream.

Module Spec.

(** Non-increasing by [started_at]. *)
Fixpoint newest_first (l : list Game) : bool :=
  match l with
  | a :: (b :: _) as rest => (World.started_at b <=? World.started_at a) && newest_first rest
  | _ => true
  end.

(** [out] is an interleaving of the lists [ls]: it is built by taking, again
    and again, the head of one of the lists, until all are empty. Each
    element of each list is taken once, and each list in its own order. *)
Inductive Interleave {A} : list (list A) -> list A -> Prop :=
| interleave_nil ls :
    Forall (fun l => l = []) ls -> Interleave ls []
| interleave_cons ls i x rest out :
    ls !! i = Some (x :: rest) ->
    Interleave (<[i := rest]> ls) out ->
    Interleave ls (x :: out).

(** The states a run of the generator goes through, with the trace of the
    run so far: those of the first fetches, and those left by a round that
    yielded a game. *)
Inductive Running (server : Api.Request -> option Api.GamesJson)
    (opponentProfileId : Js.Value) (since : option Z) (profileIds : list Js.Value)
    : list Api.Event -> list (option Api.FetchState) -> Prop :=
| running_first tr states :
    Api.fetch_all server opponentProfileId since profileIds = (tr, Some states) ->
    Running server opponentProfileId since profileIds tr states
| running_round tr0 states tr g states' :
    Running server opponentProfileId since profileIds tr0 states ->
    Api.round server opponentProfileId since states = (tr, Some (Some (g, states'))) ->
    Running server opponentProfileId since profileIds
      (tr0 ++ tr ++ [Api.Yield g]) states'.

(** The state kept by the reduction, if any, has a current game. *)
Definition has_current (prev : option (nat * Api.FetchState)) : Prop :=
  forall k p, prev = Some (k, p) -> is_Some (Api.current p).

(** Slot [i] holds the cursor of the [i]-th profile; the cursor never passes
    the end of its page, and the games of the page before the cursor have
    been yielded, in their order, in the trace [tr]. *)
Definition slot_ok (tr : list Api.Event) (p : Js.Value)
    (o : option Api.FetchState) : Prop :=
  forall s, o = Some s ->
    Api.profile_id s = p /\
    (Api.index s <= length (Api.games s))%nat /\
    take (Api.index s) (Api.games s) `sublist_of` Api.yielded tr.

(** The cursor [s] is on some page of the history of its profile, as
    [Upstream.paged_server] serves it. *)
Definition on_page (per_page : nat) (history : Z -> list Game)
    (s : Api.FetchState) : Prop :=
  exists id k,
    Js.int_value (Api.profile_id s) = Some id /\
    Api.page s = Z.of_nat k + 1 /\
    Api.offset s = Z.of_nat (k * per_page) /\
    Api.total_count s = Z.of_nat (length (history id)) /\
    Api.games s = take per_page (drop (k * per_page) (history id)) /\
    (Api.index s <= length (Api.games s))%nat.

(** The games of its profile that a state has not yielded yet. *)
Definition remaining (history : Z -> list Game) (o : option Api.FetchState)
    : list Game :=
  match o with
  | Some s =>
      match Js.int_value (Api.profile_id s) with
      | Some id => drop (Z.to_nat (Api.offset s) + Api.index s) (history id)
      | None => []
      end
  | None => []
  end.

(** A slot holds a cursor on a page; after the refill step the cursor also
    points at the first game left, if there is one. *)
Definition paged (per_page : nat) (history : Z -> list Game)
    (o : option Api.FetchState) : Prop :=
  exists s, o = Some s /\ on_page per_page history s.

Definition ready (per_page : nat) (history : Z -> list Game)
    (o : option Api.FetchState) : Prop :=
  exists s, o = Some s /\ on_page per_page history s /\
    Api.current s = head (remaining history o).

(** The generator objects a consumer can hold after some calls of [next]. *)
Inductive Reached (server : Api.Request -> option Api.GamesJson)
    (start : Api.Generator) : Api.Generator -> Prop :=
| reached_start : Reached server start start
| reached_next gen tr g k :
    Reached server start gen ->
    Api.next server gen = (tr, Some (Api.Yields g k)) ->
    Reached server start k.

(** *** The aggregation, as the specification words it *)

(** The games the loop of [getPlayerWinRate] goes through before it stops:
    [lastgame] is the timestamp of the game before, 0 at the start. *)
Fixpoint consumed (o : Handlers.Options) (now : Z) (lastgame : Z)
    (games : list Game) : list Game :=
  match games with
  | [] => []
  | g :: rest =>
      if Handlers.stops o now lastgame (World.started_at g) then []
      else g :: consumed o now (World.started_at g) rest
  end.

(** What the loop does to its variables for each game it goes through. *)
Definition tally (o : Handlers.Options) (ids : list (option Z)) (now : Z)
    (l : Handlers.Locals) (games : list Game) : Handlers.Locals :=
  fold_left
    (fun l g => Handlers.account o ids now (Handlers.set_lastgame (World.started_at g) l) g)
    games l.

(** A session: the games from the newest one on, up to the first game that
    started more than [idle] seconds before the game preceding it. *)
Fixpoint session_from (idle : Z) (prev : Z) (games : list Game) : list Game :=
  match games with
  | [] => []
  | g :: rest =>
      if idle * 1000 <? prev - World.started_at g then []
      else g :: session_from idle (World.started_at g) rest
  end.

Definition last_session (idle : Z) (games : list Game) : list Game :=
  match games with
  | [] => []
  | g :: rest => g :: session_from idle (World.started_at g) rest
  end.

(** A window: the games up to the first one older than [span] seconds. *)
Fixpoint window (span : Z) (now : Z) (games : list Game) : list Game :=
  match games with
  | [] => []
  | g :: rest =>
      if span * 1000 <? now - World.started_at g then []
      else g :: window span now rest
  end.

(** A retained game in progress that started within the last 3 hours. *)
Definition is_pending (o : Handlers.Options) (ids : list (option Z)) (now : Z)
    (g : Game) : bool :=
  match Handlers.participant o ids g with
  | Some _ =>
      Handlers.in_progress g && (now - 3 * 3600 * 1000 <? World.started_at g)
  | None => false
  end.

(** A retained, finished game that passes the civilization and map filters,
    with the subject's entry in it. *)
Definition counted (o : Handlers.Options) (ids : list (option Z)) (g : Game)
    : option (Game * World.Player) :=
  match Handlers.participant o ids g with
  | Some p =>
      if Handlers.in_progress g then None
      else if Handlers.wanted (Handlers.civ o) (World.civilization p)
              && Handlers.wanted (Handlers.map o) (World.map g)
      then Some (g, p)
      else None
  | None => None
  end.

Definition has_result (r : string) (gp : Game * World.Player) : bool :=
  match World.result (snd gp) with
  | Some x => String.eqb x r
  | None => false
  end.

(** The recorded duration of a game, in seconds; 0 when none is recorded. *)
Definition seconds (g : Game) : Z :=
  match World.duration g with
  | Some d => d
  | None => 0
  end.

Definition total_duration (gps : list (Game * World.Player)) : Z :=
  fold_right (fun gp acc => seconds (fst gp) + acc) 0 gps.

(** The options with other civilization and map filters. *)
Definition with_filters (c m : option string) (o : Handlers.Options)
    : Handlers.Options :=
  {| Handlers.opponent := Handlers.opponent o;
     Handlers.map := m;
     Handlers.civ := c;
     Handlers.idletime := Handlers.idletime o;
     Handlers.timespan := Handlers.timespan o;
     Handlers.includeTeamGames := Handlers.includeTeamGames o |}.

End Spec.

(** ** Sample data *)

Module Sample.

Definition entry (id : Z) (civ : string) (res : option string) : World.TeamEntry :=
  {| World.player :=
       {| World.profile_id := id; World.civilization := civ; World.result := res |} |}.

(** A finished 1v1 game of [me] against [them]. *)
Definition game1v1 (t : Z) (me them : Z) (res : string) (dur : Z) : Game :=
  {| World.started_at := t;
     World.duration := Some dur;
     World.map := "Dry Arabia"%string;
     World.teams :=
       [[entry me "english"%string (Some res)];
        [entry them "french"%string
           (Some (if String.eqb res "win" then "loss" else "win")%string)]] |}.
Arguments game1v1 t me them res%_string dur.

(** Two profiles of one player; both played a game at time 50. *)
Definition history (id : Z) : list Game :=
  if id =? 1 then [game1v1 50 1 7 "win" 900; game1v1 30 1 8 "loss" 800; game1v1 10 1 9 "win" 700]
  else if id =? 2 then [game1v1 50 2 7 "loss" 600; game1v1 40 2 8 "win" 500; game1v1 20 2 9 "win" 400]
  else [].

Definition server : Api.Request -> option Api.GamesJson :=
  Upstream.paged_server 2 history.

Definition ids : list Js.Value := [Js.int 1; Js.int 2].

(** The states after the first fetches, and after the first and the second
    game have been yielded. *)
Definition states0 : list (option Api.FetchState) :=
  match Api.fetch_all server Js.Undefined None ids with
  | (_, Some states) => states
  | _ => []
  end.

Definition after_round (states : list (option Api.FetchState))
    : list (option Api.FetchState) :=
  match Api.round server Js.Undefined None states with
  | (_, Some (Some (_, states'))) => states'
  | _ => []
  end.

Definition states1 := after_round states0.
Definition states2 := after_round states1.
Definition states3 := after_round states2.

(** The traces of the run up to these states. *)
Definition trace0 : list Api.Event :=
  fst (Api.fetch_all server Js.Undefined None ids).
Definition trace1 : list Api.Event :=
  trace0 ++ fst (Api.round server Js.Undefined None states0)
         ++ [Api.Yield (game1v1 50 1 7 "win" 900)].
Definition trace2 : list Api.Event :=
  trace1 ++ fst (Api.round server Js.Undefined None states1)
         ++ [Api.Yield (game1v1 50 2 7 "loss" 600)].
Definition trace3 : list Api.Event :=
  trace2 ++ fst (Api.round server Js.Undefined None states2)
         ++ [Api.Yield (game1v1 40 2 8 "win" 500)].

(** A player's evening: games at [T], one hour and six hours before. *)
Definition T : Z := 1700000000000.
Definition hour : Z := 3600 * 1000.

(** A game of [me] against [them] that has no duration yet. *)
Definition unfinished (t : Z) (me them : Z) : Game :=
  {| World.started_at := t;
     World.duration := None;
     World.map := "Dry Arabia"%string;
     World.teams := [[entry me "english"%string None]; [entry them "french"%string None]] |}.

(** A finished game whose result is not recorded. *)
Definition undetermined (t : Z) (me them : Z) (dur : Z) : Game :=
  {| World.started_at := t;
     World.duration := Some dur;
     World.map := "Dry Arabia"%string;
     World.teams := [[entry me "english"%string None]; [entry them "french"%string None]] |}.

(** A finished team game of [me] and [mate] against two others. *)
Definition game2v2 (t : Z) (me mate them1 them2 : Z) (dur : Z) : Game :=
  {| World.started_at := t;
     World.duration := Some dur;
     World.map := "Dry Arabia"%string;
     World.teams :=
       [[entry me "english"%string (Some "win"%string);
         entry mate "french"%string (Some "win"%string)];
        [entry them1 "mongols"%string (Some "loss"%string);
         entry them2 "rus"%string (Some "loss"%string)]] |}.

Definition evenings (id : Z) : list Game :=
  if id =? 3 then
    [game1v1 T 3 7 "win" 900; game1v1 (T - hour) 3 8 "loss" 800;
     game1v1 (T - 6 * hour) 3 9 "win" 700]
  else if id =? 4 then
    [game1v1 (T - hour) 4 7 "win" 900; game1v1 (T - 30 * hour) 4 8 "loss" 800]
  else if id =? 5 then
    [unfinished (T - hour) 5 7; unfinished (T - 2 * hour) 5 8;
     unfinished (T - 5 * hour) 5 9; game1v1 (T - 6 * hour) 5 9 "win" 700]
  else if id =? 6 then
    [undetermined T 6 7 600; game1v1 (T - hour) 6 8 "win" 800]
  else if id =? 7 then
    [game1v1 T 7 1 "loss" 900; game1v1 (T - hour) 7 2 "win" 800;
     game1v1 (T - 2 * hour) 7 3 "loss" 700]
  else if id =? 8 then
    [game1v1 T 8 1 "win" 900; game2v2 (T - 3 * hour) 8 2 3 4 1200;
     game1v1 (T - 6 * hour) 8 5 "win" 700]
  else [].

Definition evening_server : Api.Request -> option Api.GamesJson :=
  Upstream.paged_server 50 evenings.

(** The options of [handleAoe4WinRate] for a window of [hours] hours. *)
Definition last_hours (hours : Z) : Handlers.Options :=
  {| Handlers.opponent := None; Handlers.map := None; Handlers.civ := None;
     Handlers.idletime := 4 * 3600; Handlers.timespan := Some (hours * 3600);
     Handlers.includeTeamGames := false |}.

(** The statistics of a call that returned. *)
Definition returned (r : list Api.Event * Api.Outcome Handlers.WinRateStats)
    : Handlers.WinRateStats :=
  match snd r with
  | Api.Done st => st
  | _ => Handlers.finish Handlers.initial
  end.

(** The win rate of profile [id] on the evening server, asked at time [T]. *)
Definition evening_of (id : Z) (options : option Handlers.Options)
    : list Api.Event * Api.Outcome Handlers.WinRateStats :=
  Handlers.getPlayerWinRate evening_server 5 (Handlers.Single (Some id)) options T T.

(** The games the enumerator yields for profile [id] on the evening server. *)
Definition evening_trace (id : Z) (o : Handlers.Options) : list Api.Event :=
  fst (Api.drain evening_server 5
         (Handlers.gamesEnumerator (Handlers.Single (Some id)) o T)).

End Sample.

(** ** Notions used by the further properties *)

Module Inv.

(** The generator object [gen] comes from the call
    [enumPlayerGames(ids, opp, since)]. *)
Definition belongs (ids : list Js.Value) (opp : Js.Value) (since : option Z)
    (gen : Api.Generator) : Prop :=
  match gen with
  | Api.Start profileIds opp' since' =>
      Api.as_array profileIds = ids /\ opp' = opp /\ since' = since
  | Api.Suspended opp' since' states =>
      opp' = opp /\ since' = since /\
      forall s, Some s ∈ states -> Api.profile_id s ∈ ids
  end.

(** The request asks for a page of one of the profiles [ids], with the
    filters of the call. *)
Definition asks_for (ids : list Js.Value) (opp : Js.Value) (since : option Z)
    (req : Api.Request) : Prop :=
  exists p pg, p ∈ ids /\ req = Api.request p opp since pg.

(** The number of pages of a list of [n] games: one page at least, as the
    first page is asked for in any case. *)
Definition pages (per_page n : nat) : nat := Nat.max 1 ((n + per_page - 1) / per_page).

(** The pages of its profile that come after the page a state is on. *)
Definition pages_left (per_page : nat) (history : Z -> list Game)
    (o : option Api.FetchState) : nat :=
  match o with
  | Some s =>
      match Js.int_value (Api.profile_id s) with
      | Some id => pages per_page (length (history id)) - Z.to_nat (Api.page s)
      | None => 0
      end
  | None => 0
  end.

(** The page a state is on is one of the pages of its profile. *)
Definition within_pages (per_page : nat) (history : Z -> list Game)
    (o : option Api.FetchState) : Prop :=
  forall s id, o = Some s -> Js.int_value (Api.profile_id s) = Some id ->
    (Z.to_nat (Api.page s) <= pages per_page (length (history id)))%nat.

End Inv.

(** ** api.js: the lookups of players *)

Module Lookup.

Import Ascii.

(** The ladder figures of a player on one leaderboard. [rank] is a number
    or absent; the other figures are only copied. *)
Record Ladder := {
  rating : Js.Value;
  rank : option Z;
  streak : Js.Value;
  games_count : Js.Value;
  wins_count : Js.Value;
  losses_count : Js.Value;
  last_game_at : Js.Value;
  win_rate : Js.Value;
  rank_level : Js.Value
}.

(** A player object of the API: [figures] stands for the properties
    [rating], [rank], ... of the object itself, [leaderboards] and [modes]
    for its two object-valued properties, keyed by leaderboard ([None]:
    the property is absent). *)
Record Player := {
  name : Js.Value;
  profile_id : Js.Value;
  figures : Ladder;
  leaderboards : option (list (string * Ladder));
  modes : option (list (string * Ladder))
}.

(** The answer of the leaderboard and search endpoints. *)
Record PlayersJson := {
  count : Z;
  players : option (list Player)
}.

(** The calls of [fetchAOE4World] made by the lookups: path and parameters. *)
Inductive Call :=
| LeaderboardSearch (leaderboard query : string) (exact : bool)
| LeaderboardPage (leaderboard : string) (page : option Z)   (* None: NaN *)
| PlayerSearch (query : string) (exact : bool)
| PlayerProfile (profileId : Js.Value)
| PlayerGamesList (profileId : Js.Value)
| PlayerLastGame (profileId : Js.Value).

(** What [fetchAOE4World] answers to them, [None] for [null]. *)
Record Server := {
  leaderboard_search : string -> string -> bool -> option PlayersJson;
  leaderboard_page : string -> option Z -> option PlayersJson;
  player_search : string -> bool -> option PlayersJson;
  player_profile : Js.Value -> option Player;
  player_games : Js.Value -> option (option (list Game));
  player_last_game : Js.Value -> option Game
}.

(** Effects: a log of events of type [E], and [None] for a [TypeError]. *)
Definition Act (E A : Type) : Type := list E * option A.

Definition ret {E A} (a : A) : Act E A := ([], Some a).
Definition throw {E A} : Act E A := ([], None).
Definition bind {E A B} (c : Act E A) (k : A -> Act E B) : Act E B :=
  match c with
  | (tr, None) => (tr, None)
  | (tr, Some a) => let (tr', b) := k a in (tr ++ tr', b)
  end.
Definition call {E A} (e : E) (answer : A) : Act E A := ([e], Some answer).

Notation "x <~ c ;; k" := (bind c (fun x => k))
  (at level 90, c at next level, right associativity).

Definition is_digit (c : ascii) : bool :=
  (48 <=? N_of_ascii c)%N && (N_of_ascii c <=? 57)%N.

(** [/^[qr]m_\dv\d$/.test(leaderboard)]; [undefined] is tested as the
    string "undefined". *)
Definition isValidLeaderboard (leaderboard : option string) : bool :=
  match leaderboard with
  | Some (String c0 (String c1 (String c2 (String c3 (String c4 (String c5 EmptyString)))))) =>
      ((c0 =? "q")%char || (c0 =? "r")%char)
      && (c1 =? "m")%char && (c2 =? "_")%char && is_digit c3
      && (c4 =? "v")%char && is_digit c5
  | _ => false
  end.

(** A string of the query used as a condition: [undefined] and the empty
    string are falsy. *)
Definition nonempty (s : option string) : option string :=
  match s with
  | Some EmptyString => None
  | other => other
  end.

(** [.] of a regular expression matches no line terminator; among the
    characters of a [string], which are below 256, these are the line feed
    and the carriage return. *)
Definition line_terminator (c : ascii) : bool :=
  (c =? "010")%char || (c =? "013")%char.

(** [name.match] against the pattern of a name in single quotes (a quote,
    any characters but line terminators, a quote): the text between the
    quotes, when [name] is quoted. [closing] reads what follows the opening
    quote. *)
Fixpoint closing (s : string) : option string :=
  match s with
  | EmptyString => None
  | String c EmptyString => if (c =? "'")%char then Some EmptyString else None
  | String c rest =>
      if line_terminator c then None
      else match closing rest with
           | Some inner => Some (String c inner)
           | None => None
           end
  end.

Definition matchExact (name : string) : option string :=
  match name with
  | String c rest => if (c =? "'")%char then closing rest else None
  | EmptyString => None
  end.

(** The object built for [player.modes[leaderboard]]. *)
Definition copy_figures (player : Player) : Ladder :=
  {| rating := rating (figures player);
     rank := rank (figures player);
     streak := streak (figures player);
     games_count := games_count (figures player);
     wins_count := wins_count (figures player);
     losses_count := losses_count (figures player);
     last_game_at := last_game_at (figures player);
     win_rate := win_rate (figures player);
     rank_level := rank_level (figures player) |}.

Definition set_modes (m : option (list (string * Ladder))) (player : Player) : Player :=
  {| name := name player; profile_id := profile_id player;
     figures := figures player; leaderboards := leaderboards player;
     modes := m |}.

(** [delete player.leaderboards] *)
Definition delete_leaderboards (player : Player) : Player :=
  {| name := name player; profile_id := profile_id player;
     figures := figures player; leaderboards := None;
     modes := modes player |}.

Section Server.

Variable srv : Server.

(** [parseInt] of JavaScript: an integer, or [None] for [NaN]. *)
Variable parseInt : string -> option Z.

Definition findPlayerByName (name : string) (leaderboard : option string)
    : Act Call (option Player) :=
  match nonempty leaderboard with
  | Some lb =>
      if negb (isValidLeaderboard leaderboard) then ret None
      else
        let options :=
          match matchExact name with
          | Some inner => (inner, true)
          | None => (name, false)
          end in
        json <~ call (LeaderboardSearch lb (fst options) (snd options))
                  (leaderboard_search srv lb (fst options) (snd options)) ;;
        match json with
        | Some j =>
            if count j =? 0 then ret None
            else match players j with
                 | Some (player :: _) =>
                     ret (Some (set_modes (Some [(lb, copy_figures player)]) player))
                 | Some [] => throw
                 | None => ret None
                 end
        | None => ret None
        end
  | None =>
      let options :=
        match matchExact name with
        | Some inner => (inner, true)
        | None => (name, false)
        end in
      json <~ call (PlayerSearch (fst options) (snd options))
                (player_search srv (fst options) (snd options)) ;;
      match json with
      | Some j =>
          if count j =? 0 then ret None
          else match players j with
               | Some (player :: _) =>
                   ret (Some (delete_leaderboards
                                (set_modes (leaderboards player) player)))
               | Some [] => throw
               | None => ret None
               end
      | None => ret None
      end
  end.

(** The player that stands for rank 0. *)
Definition twitch_chat (leaderboard : string) : Player :=
  {| name := Js.Str "Twitch Chat";
     profile_id := Js.Undefined;
     figures :=
       {| rating := Js.Undefined; rank := None; streak := Js.Undefined;
          games_count := Js.Undefined; wins_count := Js.Undefined;
          losses_count := Js.Undefined; last_game_at := Js.Undefined;
          win_rate := Js.Undefined; rank_level := Js.Undefined |};
     leaderboards := None;
     modes :=
       Some [(leaderboard,
              {| rating := Js.int 9999; rank := Some 0; streak := Js.Undefined;
                 games_count := Js.int 0; wins_count := Js.Undefined;
                 losses_count := Js.Undefined; last_game_at := Js.Undefined;
                 win_rate := Js.Undefined;
                 rank_level :=
                   if String.eqb leaderboard "rm_1v1" then Js.Str "conqueror_4"
                   else Js.Null |})] |}.

(** [v.rank == rank] *)
Definition has_rank (r : option Z) (v : Player) : bool :=
  match rank (figures v), r with
  | Some a, Some b => a =? b
  | _, _ => false
  end.

Definition findPlayerByRank (r : option Z) (leaderboard : option string)
    : Act Call (option Player) :=
  match leaderboard with
  | Some lb =>
      if negb (isValidLeaderboard leaderboard) then ret None
      else if match r with Some z => z <? 0 | None => false end then ret None
      else if match r with Some z => z =? 0 | None => false end
      then ret (Some (twitch_chat lb))
      else
        let page :=
          match r with
          | Some z => Some (1 + (z - 1) / 50)
          | None => None
          end in
        json <~ call (LeaderboardPage lb page) (leaderboard_page srv lb page) ;;
        match json with
        | Some j =>
            if count j =? 0 then ret None
            else match players j with
                 | Some ps =>
                     match head (List.filter (has_rank r) ps) with
                     | Some player =>
                         ret (Some (set_modes (Some [(lb, copy_figures player)]) player))
                     | None => ret None
                     end
                 | None => ret None
                 end
        | None => ret None
        end
  | None => ret None
  end.

Definition findPlayerByQuery (query : string) (leaderboard : option string)
    : Act Call (option Player) :=
  match query with
  | String c rest =>
      if (c =? "#")%char then findPlayerByRank (parseInt rest) leaderboard
      else findPlayerByName query leaderboard
  | EmptyString => findPlayerByName query leaderboard
  end.

Definition getPlayer (profileId : Js.Value) : Act Call (option Player) :=
  if negb (Js.Number_isInteger profileId) then ret None
  else call (PlayerProfile profileId) (player_profile srv profileId).

Definition getPlayerGames (profileId : Js.Value) : Act Call (option (list Game)) :=
  if negb (Js.Number_isInteger profileId) then ret None
  else
    json <~ call (PlayerGamesList profileId) (player_games srv profileId) ;;
    match json with
    | Some (Some games) => ret (Some games)
    | _ => ret None
    end.

Definition getLastMatch (profileId : Js.Value) : Act Call (option Game) :=
  if negb (Js.Number_isInteger profileId) then ret None
  else call (PlayerLastGame profileId) (player_last_game srv profileId).

End Server.

End Lookup.

(** ** handlers.js: the request handlers *)

Module Routes.

Import Ascii.

(** [parseTimespan(number, suffix)] is called with a string of digits.
    For hours it returns its argument as it is, for the other units a
    number of hours (a double, [None] for [Infinity]), and [null] for an
    unknown unit. *)
Inductive Span :=
| Given (number : string)
| Hours (h : option Z)
| NoSpan.

(** The number a string of decimal digits stands for. *)
Definition decimal (digits : string) : Z :=
  (fix go (acc : Z) (s : string) : Z :=
     match s with
     | EmptyString => acc
     | String c rest => go (10 * acc + (Z.of_N (N_of_ascii c) - 48)) rest
     end) 0 digits.

(** A string of digits used as a number: the double nearest to the number
    it stands for. *)
Definition to_number (digits : string) : option Z := Js.double (decimal digits).

Definition one_of (words : list string) (s : string) : bool :=
  existsb (String.eqb s) words.

Definition parseTimespan (number suffix : string) : Span :=
  if one_of ["h"; "hour"; "hours"]%string suffix then Given number
  else if one_of ["d"; "day"; "days"]%string suffix
  then Hours (Js.times (to_number number) 24)
  else if one_of ["w"; "wk"; "wks"; "week"; "weeks"]%string suffix
  then Hours (Js.times (Js.times (to_number number) 24) 7)
  else if one_of ["m"; "month"; "months"]%string suffix
  then Hours (Js.times (Js.times (to_number number) 24) 30)
  else if one_of ["y"; "year"; "years"]%string suffix
  then Hours (Js.times (Js.times (to_number number) 24) 365)
  else NoSpan.

(** Line 263: [options.timespan = parseTimespan(..) * 3600]; the product
    turns the string of digits into its number and [null] into 0. *)
Definition times_3600 (v : Span) : option Z :=
  match v with
  | Given number => Js.times (to_number number) 3600
  | Hours h => Js.times h 3600
  | NoSpan => Some 0
  end.

(** [options.timespan = t] *)
Definition with_timespan (t : option Z) (o : Handlers.Options) : Handlers.Options :=
  {| Handlers.opponent := Handlers.opponent o; Handlers.map := Handlers.map o;
     Handlers.civ := Handlers.civ o; Handlers.idletime := Handlers.idletime o;
     Handlers.timespan := t;
     Handlers.includeTeamGames := Handlers.includeTeamGames o |}.

(** Line 263: the options of [handleAoe4WinRate] once a suffix
    [last <number> <unit>] of the query has been read. [None]: the timespan
    is [Infinity], which [Handlers.Options] does not hold. *)
Definition last_span (o : Handlers.Options) (number suffix : string)
    : option Handlers.Options :=
  match times_3600 (parseTimespan number suffix) with
  | Some t => Some (with_timespan (Some t) o)
  | None => None
  end.

(** Lines 272-275: the options once the suffix [last session] has been
    read, [options.timespan = null]. *)
Definition last_session (o : Handlers.Options) : Handlers.Options :=
  with_timespan None o.

(** [s.split(',')] *)
Fixpoint split_comma (s : string) : list string :=
  match s with
  | EmptyString => [EmptyString]
  | String c rest =>
      if (c =? ",")%char then EmptyString :: split_comma rest
      else match split_comma rest with
           | h :: t => String c h :: t
           | [] => [String c EmptyString]
           end
  end.

(** [matches.sort((a, b) => Date.parse(b.started_at) - Date.parse(a.started_at))]:
    a stable sort, the latest game first. *)
Fixpoint insert_by_recency (g : Game) (l : list Game) : list Game :=
  match l with
  | [] => [g]
  | h :: t =>
      if World.started_at h <=? World.started_at g then g :: h :: t
      else h :: insert_by_recency g t
  end.

Fixpoint sort_by_recency (l : list Game) : list Game :=
  match l with
  | [] => []
  | g :: rest => insert_by_recency g (sort_by_recency rest)
  end.

(** [req.query], its values taken as strings. *)
Record Query := {
  query : option string;
  leaderboard : option string;
  format : option string;
  player : option string
}.

Inductive Message :=
| InvalidFormatter          (* 'Invalid formatter specified' *)
| NoPlayerFound             (* 'No player found' *)
| HasNoMatches (name : Js.Value).   (* `"${player.name}" has no matches` *)

Section Handlers.

(** formatters.js is another module: the formatters are a parameter. *)
Variable Formatter : Type.
Variable getFormatter : option string -> option Formatter.
Variable parseInt : string -> option Z.
Variable srv : Lookup.Server.

(** What a handler does: calls of the API, and what it sends. *)
Inductive Effect :=
| Called (c : Lookup.Call)
| Status400 (m : Message)
| SendMatch (f : Formatter) (g : Game)
| SendRank (f : Formatter) (p : Lookup.Player) (leaderboard : string)
| SendError (f : Formatter) (m : Message).

Definition lookup {A} (c : Lookup.Act Lookup.Call A) : Lookup.Act Effect A :=
  (List.map Called (fst c), snd c).

Definition send (e : Effect) : Lookup.Act Effect unit := ([e], Some tt).

(** [x || 'rm_1v1'] *)
Definition or_rm_1v1 (leaderboard : option string) : string :=
  match Lookup.nonempty leaderboard with
  | Some lb => lb
  | None => "rm_1v1"%string
  end.

(** A result of [parseInt] as a value. *)
Definition number (z : option Z) : Js.Value :=
  match z with
  | Some n => Js.int n
  | None => Js.NaN
  end.

(** [Promise.all(players.map(p => aoe4.getLastMatch(p, leaderboard)))] *)
Fixpoint last_matches (players : list Js.Value) : Lookup.Act Effect (list (option Game)) :=
  match players with
  | [] => Lookup.ret []
  | p :: rest =>
      Lookup.bind (lookup (Lookup.getLastMatch srv p)) (fun m =>
      Lookup.bind (last_matches rest) (fun ms =>
      Lookup.ret (m :: ms)))
  end.

(** Lines 155-163 of [handleAoe4Match]: the profiles to look at. *)
Definition match_players (q : Query) : Lookup.Act Effect (list Js.Value) :=
  match Lookup.nonempty (query q) with
  | Some text =>
      Lookup.bind
        (lookup (Lookup.findPlayerByQuery srv parseInt text
                   (Some (or_rm_1v1 (leaderboard q))))) (fun found =>
      match found with
      | Some p =>
          if Js.truthy (Lookup.profile_id p) then Lookup.ret [Lookup.profile_id p]
          else Lookup.ret []
      | None => Lookup.ret []
      end)
  | None =>
      match Lookup.nonempty (player q) with
      | Some ids => Lookup.ret (List.map (fun v => number (parseInt v)) (split_comma ids))
      | None => Lookup.ret []
      end
  end.

Definition handleAoe4Match (q : Query) : Lookup.Act Effect unit :=
  Lookup.bind (match_players q) (fun players =>
  match getFormatter (format q) with
  | None => send (Status400 InvalidFormatter)
  | Some formatter =>
      match players with
      | first :: _ =>
          Lookup.bind (last_matches players) (fun matches =>
          match head (sort_by_recency (omap id matches)) with
          | Some g => send (SendMatch formatter g)
          | None =>
              Lookup.bind (lookup (Lookup.getPlayer srv first)) (fun found =>
              match found with
              | Some p => send (SendError formatter (HasNoMatches (Lookup.name p)))
              | None => Lookup.throw
              end)
          end)
      | [] => send (SendError formatter NoPlayerFound)
      end
  end).

Definition handleAoe4Rank (q : Query) : Lookup.Act Effect unit :=
  let leaderboard := or_rm_1v1 (leaderboard q) in
  let playerId :=
    parseInt (match Lookup.nonempty (player q) with
              | Some ids => ids
              | None => "0"%string
              end) in
  Lookup.bind
    (match Lookup.nonempty (query q) with
     | Some text => lookup (Lookup.findPlayerByQuery srv parseInt text (Some leaderboard))
     | None =>
         match Lookup.nonempty (player q) with
         | Some _ => lookup (Lookup.getPlayer srv (number playerId))
         | None => Lookup.ret None
         end
     end) (fun found =>
  match getFormatter (format q) with
  | None => send (Status400 InvalidFormatter)
  | Some formatter =>
      match found with
      | Some p => send (SendRank formatter p leaderboard)
      | None => send (SendError formatter NoPlayerFound)
      end
  end).

End Handlers.

End Routes.

(** ** More sample data *)

Module Sample2.

(** The default options with an opponent. *)
Definition versus (id : Z) : Handlers.Options :=
  {| Handlers.opponent := Some (Some id); Handlers.map := None; Handlers.civ := None;
     Handlers.idletime := 4 * 3600; Handlers.timespan := None;
     Handlers.includeTeamGames := false |}.

(** The sample server while profile 2 is out of order. *)
Definition down2 : Api.Request -> option Api.GamesJson :=
  Upstream.outage (fun id => id =? 2) Sample.server.

End Sample2.

(** ** What a handler sends *)

Module Replies.

(** The events of a handler that answer the HTTP request. *)
Definition is_reply {F} (e : Routes.Effect F) : bool :=
  match e with
  | Routes.Called _ _ => false
  | _ => true
  end.

(** The units of a time span and the hours each is worth: a week is 7
    days, a month 30 days, a year 365 days. *)
Definition unit_hours : list (string * Z) :=
  [("h", 1); ("hour", 1); ("hours", 1);
   ("d", 24); ("day", 24); ("days", 24);
   ("w", 24 * 7); ("wk", 24 * 7); ("wks", 24 * 7); ("week", 24 * 7); ("weeks", 24 * 7);
   ("m", 24 * 30); ("month", 24 * 30); ("months", 24 * 30);
   ("y", 24 * 365); ("year", 24 * 365); ("years", 24 * 365)]%string.

(** The order of a list with the latest game first. *)
Definition later (a b : Game) : Prop := World.started_at b <= World.started_at a.

(** The profiles that a list of ids separated by commas names. *)
Definition profiles (parseInt : string -> option Z) (ids : string) : list Js.Value :=
  List.map (fun v => Routes.number (parseInt v)) (Routes.split_comma ids).

End Replies.

(** ** A sample leaderboard *)

Module Board.

Import Lookup.

Definition ladder (r elo : Z) : Ladder :=
  {| rating := Js.int elo; rank := Some r; streak := Js.int 1;
     games_count := Js.int 10; wins_count := Js.int 6; losses_count := Js.int 4;
     last_game_at := Js.Undefined; win_rate := Js.int 60;
     rank_level := Js.Str "gold_1" |}.

Definition entry (id r elo : Z) (nm : string) : Player :=
  {| name := Js.Str nm; profile_id := Js.int id; figures := ladder r elo;
     leaderboards := Some [("rm_1v1"%string, ladder r elo)]; modes := None |}.

Definition top : list Player :=
  [entry 11 1 2100 "Ann"; entry 12 2 2050 "Bob"; entry 13 3 2000 "Cy"].

Definition named (q : string) (p : Player) : bool :=
  match name p with
  | Js.Str nm => String.eqb nm q
  | _ => false
  end.

Definition answer (ps : list Player) : option PlayersJson :=
  Some {| count := Z.of_nat (length ps); players := Some ps |}.

(** Profile 11 played last at time 500, profile 12 at time 900; profile 13
    has no game. *)
Definition last_game (id : Js.Value) : option Game :=
  match Js.int_value id with
  | Some 11 => Some (Sample.game1v1 500 11 12 "win" 60)
  | Some 12 => Some (Sample.game1v1 900 12 13 "loss" 60)
  | _ => None
  end.

Definition server : Server :=
  {| leaderboard_search := fun _ q _ => answer (List.filter (named q) top);
     leaderboard_page := fun _ page =>
       match page with
       | Some 1 => answer top
       | _ => answer []
       end;
     player_search := fun q _ => answer (List.filter (named q) top);
     player_profile := fun id =>
       head (List.filter (fun p => match Js.int_value id, Js.int_value (profile_id p) with
                                   | Some a, Some b => a =? b
                                   | _, _ => false
                                   end) top);
     player_games := fun _ => None;
     player_last_game := last_game |}.

(** The API out of order: every request fails. *)
Definition down : Server :=
  {| leaderboard_search := fun _ _ _ => None;
     leaderboard_page := fun _ _ => None;
     player_search := fun _ _ => None;
     player_profile := fun _ => None;
     player_games := fun _ => None;
     player_last_game := fun _ => None |}.

(** [parseInt] on the strings used here: digits only. *)
Definition digits (s : string) : option Z :=
  match s with
  | EmptyString => None
  | _ => if forallb is_digit (list_ascii_of_string s) then Some (Routes.decimal s) else None
  end.

(** Two formats are known: the default and "nightbot". *)
Definition formatters (format : option string) : option string :=
  match format with
  | None => Some "json"%string
  | Some f => if String.eqb f "nightbot" then Some f else None
  end.

Definition ask (text ids : option string) : Routes.Query :=
  {| Routes.query := text; Routes.leaderboard := None; Routes.format := None;
     Routes.player := ids |}.

End Board.

(** * Properties *)

Module ApiFacts.

Import Api.

(** ** The effect monad *)

Lemma bind_inv {A B} (c : Eff A) (k : A -> Eff B) tr r :
  bind c k = (tr, r) ->
  (c = (tr, None) /\ r = None) \/
  (exists tr1 a tr2, c = (tr1, Some a) /\ k a = (tr2, r) /\ tr = tr1 ++ tr2).
Proof.
  unfold bind. destruct c as [tr1 [a|]].
  - destruct (k a) as [tr2 b] eqn:Hk. intros [= <- <-]. right. eauto 10.
  - intros [= <- <-]. by left.
Qed.

Lemma bind_inv_Some {A B} (c : Eff A) (k : A -> Eff B) tr b :
  bind c k = (tr, Some b) ->
  exists tr1 a tr2, c = (tr1, Some a) /\ k a = (tr2, Some b) /\ tr = tr1 ++ tr2.
Proof.
  intros H. apply bind_inv in H as [[_ ?]|?]; [discriminate | done].
Qed.

Lemma yielded_app tr1 tr2 : yielded (tr1 ++ tr2) = yielded tr1 ++ yielded tr2.
Proof. unfold yielded. apply omap_app. Qed.

Lemma fetches_app tr1 tr2 : fetches (tr1 ++ tr2) = fetches tr1 ++ fetches tr2.
Proof. unfold fetches. apply omap_app. Qed.

Section Server.

Variable server : Request -> option GamesJson.
Variable opp : Js.Value.
Variable since : option Z.

(** ** [fetchPlayerGames] *)

Lemma fetchPlayerGames_undated p pg :
  dated since = false -> fetchPlayerGames server p opp since pg = ([], None).
Proof. unfold fetchPlayerGames. by intros ->. Qed.

Lemma fetchPlayerGames_dated p pg tr o :
  fetchPlayerGames server p opp since pg = (tr, Some o) -> dated since = true.
Proof. unfold fetchPlayerGames. by destruct (dated since). Qed.

Lemma fetchPlayerGames_inv p pg tr r :
  dated since = true ->
  fetchPlayerGames server p opp since pg = (tr, r) ->
  exists req,
    tr = [Fetch req] /\ req = request p opp since pg /\
    r = Some (match server req with
              | Some json =>
                  Some {| profile_id := p; opponent_profile_id := opp;
                          page := json_page json; offset := json_offset json;
                          total_count := json_total_count json;
                          games := json_games json; index := 0 |}
              | None => None
              end).
Proof. unfold fetchPlayerGames. intros ->. intros [= <- <-]. eauto. Qed.

Lemma fetchPlayerGames_inv_Some p pg tr o :
  fetchPlayerGames server p opp since pg = (tr, Some o) ->
  exists req,
    tr = [Fetch req] /\ req = request p opp since pg /\
    Some o = Some (match server req with
                   | Some json =>
                       Some {| profile_id := p; opponent_profile_id := opp;
                               page := json_page json; offset := json_offset json;
                               total_count := json_total_count json;
                               games := json_games json; index := 0 |}
                   | None => None
                   end).
Proof.
  intros H. pose proof (fetchPlayerGames_dated _ _ _ _ H) as Hd.
  by apply fetchPlayerGames_inv in H.
Qed.

Lemma fetchPlayerGames_sent p pg tr r req :
  fetchPlayerGames server p opp since pg = (tr, r) ->
  In (Fetch req) tr ->
  tr = [Fetch req] /\ req = request p opp since pg.
Proof.
  intros H Hin. destruct (dated since) eqn:Hd.
  - apply fetchPlayerGames_inv in H as (req' & -> & -> & _); [|done].
    by destruct Hin as [[= <-]|[]].
  - rewrite fetchPlayerGames_undated in H by done. injection H as <- _.
    destruct Hin.
Qed.

Lemma fetchPlayerGames_yields_nothing p pg tr r :
  fetchPlayerGames server p opp since pg = (tr, r) -> yielded tr = [].
Proof.
  unfold fetchPlayerGames. destruct (dated since); cbn [negb]; by intros [= <- _].
Qed.

(** ** The refill loop *)

Lemma refetch_inv s tr r :
  refetch server opp since s = (tr, r) ->
  (needs_page s = false /\ tr = [] /\ r = Some (Some s)) \/
  (needs_page s = true /\
   fetchPlayerGames server (profile_id s) opp since (page s + 1) = (tr, r)).
Proof.
  unfold refetch. destruct (needs_page s); [by right|].
  intros [= <- <-]. by left.
Qed.

Lemma needs_page_true s :
  needs_page s = true <->
  (length (games s) <= index s)%nat /\ offset s + Z.of_nat (index s) < total_count s.
Proof.
  unfold needs_page. rewrite andb_true_iff, Nat.leb_le, Z.ltb_lt. done.
Qed.

Lemma refetch_fetches s tr r :
  refetch server opp since s = (tr, r) ->
  yielded tr = [] /\ (dated since = true -> exists o, r = Some o) /\
  forall req, In req (fetches tr) ->
    (length (games s) <= index s)%nat /\
    offset s + Z.of_nat (index s) < total_count s /\
    req_profile req = profile_id s /\
    req_page req = page s + 1.
Proof.
  intros H. apply refetch_inv in H as [(_ & -> & ->) | [Hn H]].
  - split; [done|]. split; [eauto | intros ? []].
  - apply needs_page_true in Hn as [Ha Hb].
    destruct (dated since) eqn:Hd.
    + apply fetchPlayerGames_inv in H as (req & -> & -> & ->); [|done].
      split; [done|]. split; [eauto|]. intros req' [<-|[]]. done.
    + rewrite fetchPlayerGames_undated in H by done. injection H as <- <-.
      split; [done|]. split; [done | intros ? []].
Qed.

(** Every request of the refill loop comes from a state whose page is used
    up and whose profile has more games; it asks for the next page. *)
Lemma refill_fetches states tr r :
  refill server opp since states = (tr, r) ->
  yielded tr = [] /\
  forall req, In req (fetches tr) ->
    exists i s, states !! i = Some (Some s) /\
      (length (games s) <= index s)%nat /\
      offset s + Z.of_nat (index s) < total_count s /\
      req_profile req = profile_id s /\
      req_page req = page s + 1.
Proof.
  revert tr r. induction states as [|[s|] rest IH]; simpl; intros tr r H.
  - injection H as <- <-. split; [done | intros ? []].
  - assert (exists tr1 tr2 r2, tr = tr1 ++ tr2 /\
              (exists r1, refetch server opp since s = (tr1, r1)) /\
              (tr2 = [] \/ refill server opp since rest = (tr2, r2)))
      as (tr1 & tr2 & r2 & -> & [r1 H1] & H2).
    { apply bind_inv in H as [[H ->] | (tr1 & s' & tr2 & H1 & H2 & ->)].
      - exists tr, [], None. rewrite app_nil_r. eauto.
      - apply bind_inv in H2 as [[H2 ->] | (tr3 & rest' & tr4 & H2 & H3 & ->)].
        + exists tr1, tr2, None. eauto 10.
        + injection H3 as <- <-. rewrite app_nil_r. exists tr1, tr3, (Some rest').
          eauto 10. }
    apply refetch_fetches in H1 as (Hy1 & _ & Hf1).
    assert (yielded tr2 = [] /\
            forall req, In req (fetches tr2) ->
              exists i s, rest !! i = Some (Some s) /\
                (length (games s) <= index s)%nat /\
                offset s + Z.of_nat (index s) < total_count s /\
                req_profile req = profile_id s /\
                req_page req = page s + 1) as [Hy2 Hf2].
    { destruct H2 as [-> | H2]; [split; [done | intros ? []] | by eapply IH]. }
    rewrite yielded_app, Hy1, Hy2. split; [done|].
    intros req. rewrite fetches_app, in_app_iff. intros [Hin|Hin].
    + exists 0%nat, s. split; [done|]. by apply Hf1.
    + destruct (Hf2 req Hin) as (i & s0 & Hl & ?). exists (S i), s0. done.
  - injection H as <- <-. split; [done | intros ? []].
Qed.

(** What a refill that does not throw leaves. *)
Lemma refill_Some states tr states' :
  refill server opp since states = (tr, Some states') ->
  Forall2 (fun o o' => exists s tr1, o = Some s /\
             refetch server opp since s = (tr1, Some o')) states states'.
Proof.
  revert tr states'. induction states as [|[s|] rest IH]; simpl; intros tr states' H.
  - injection H as <- <-. constructor.
  - apply bind_inv_Some in H as (tr1 & s' & tr2 & H1 & H2 & ->).
    apply bind_inv_Some in H2 as (tr3 & rest' & tr4 & H2 & H3 & ->).
    injection H3 as <- <-. constructor; eauto.
  - discriminate.
Qed.

(** A [null] state makes the refill throw, before any game is chosen. *)
Lemma refill_null states :
  In None states ->
  exists tr, refill server opp since states = (tr, None).
Proof.
  induction states as [|[s|] rest IH]; simpl; intros Hin.
  - destruct Hin.
  - destruct Hin as [|Hin]; [discriminate|]. destruct (IH Hin) as [tr2 H2].
    destruct (refetch server opp since s) as [tr1 [s'|]] eqn:H1.
    + exists (tr1 ++ tr2). unfold bind at 1. rewrite H2. done.
    + exists tr1. done.
  - exists []. done.
Qed.

(** ** The reduction that chooses the state to yield from *)

Abbreviation has_current := Spec.has_current.
Abbreviation slot_ok := Spec.slot_ok.

Lemma current_None s : current s = None <-> (length (games s) <= index s)%nat.
Proof. unfold current. apply lookup_ge_None. Qed.

Lemma pick_inv prev i s tr prev' :
  has_current prev ->
  pick prev i s = (tr, Some prev') ->
  tr = [] /\
  ((current s = None /\ prev' = prev) \/
   (exists gs, current s = Some gs /\
      ((prev = None /\ prev' = Some (i, s)) \/
       (exists k p gp, prev = Some (k, p) /\ current p = Some gp /\
          ((World.started_at gp < World.started_at gs /\ prev' = Some (i, s)) \/
           (World.started_at gs <= World.started_at gp /\ prev' = prev)))))).
Proof.
  intros Hc. unfold pick. destruct (length (games s) <=? index s)%nat eqn:Hlen.
  - intros [= <- <-]. apply Nat.leb_le, current_None in Hlen. auto.
  - apply Nat.leb_gt in Hlen.
    destruct (current s) as [gs|] eqn:Hs;
      [|apply current_None in Hs; lia].
    destruct prev as [[k p]|].
    + destruct (Hc k p eq_refl) as [gp Hp]. rewrite Hp.
      destruct (World.started_at gp <? World.started_at gs) eqn:Hlt;
        intros [= <- <-]; (split; [done|]); right; exists gs; (split; [done|]);
        right; exists k, p, gp; (split; [done|]); (split; [done|]).
      * left. apply Z.ltb_lt in Hlt. done.
      * right. apply Z.ltb_ge in Hlt. done.
    + intros [= <- <-]. split; [done|]. right. exists gs. auto.
Qed.

Lemma reduce_spec states : forall i prev tr r,
  has_current prev ->
  reduce i prev states = (tr, Some r) ->
  tr = [] /\
  match r with
  | None => prev = None /\ forall j s, states !! j = Some (Some s) -> current s = None
  | Some (k, s) =>
      exists g, current s = Some g /\
        (forall j sj gj, states !! j = Some (Some sj) -> current sj = Some gj ->
           World.started_at gj <= World.started_at g) /\
        (forall k' p gp, prev = Some (k', p) -> current p = Some gp ->
           World.started_at gp <= World.started_at g) /\
        (prev = Some (k, s) \/
         exists j0, k = (i + j0)%nat /\ states !! j0 = Some (Some s) /\
           (forall j sj gj, (j < j0)%nat -> states !! j = Some (Some sj) ->
              current sj = Some gj -> World.started_at gj < World.started_at g) /\
           (forall k' p gp, prev = Some (k', p) -> current p = Some gp ->
              World.started_at gp < World.started_at g))
  end.
Proof.
  induction states as [|[s|] rest IH]; simpl; intros i prev tr r Hc H.
  - injection H as <- <-. split; [done|]. destruct prev as [[k s]|]; [|done].
    destruct (Hc k s eq_refl) as [g Hg]. exists g. split; [done|].
    split; [intros j sj gj Hl; by rewrite lookup_nil in Hl|].
    split; [|by left]. intros k' p gp [= -> ->] Hp. rewrite Hg in Hp.
    injection Hp as ->. lia.
  - apply bind_inv_Some in H as (tr1 & prev' & tr2 & H1 & H2 & ->).
    apply pick_inv in H1 as [-> Hpick]; [|done].
    assert (has_current prev') as Hc'.
    { intros k p Heq.
      destruct Hpick as [[_ ?] | (gs & Hs & [[_ ?] | (k0 & p0 & gp & ? & Hp & [[_ ?] | [_ ?]])])];
        simplify_eq; try (by eexists); by eapply Hc. }
    apply IH in H2 as [-> Hr]; [|done]. split; [done|].
    destruct r as [[k s']|].
    + destruct Hr as (g & Hg & Hall & Hprev & Hsrc). exists g. split; [done|].
      destruct Hpick as [[Hs ->] | (gs & Hs & Hpick)].
      * split; [|split; [done|]].
        { intros [|j] sj gj Hl Hj; simpl in Hl; [|eauto]. congruence. }
        destruct Hsrc as [-> | (j0 & -> & Hl0 & Hlt & Hplt)]; [by left|].
        right. exists (S j0). split; [lia|]. split; [done|]. split; [|done].
        intros [|j] sj gj Hj Hl Hcur; simpl in Hl; [congruence|].
        apply (Hlt j sj gj); [lia | done | done].
      * destruct Hpick as [[-> ->] | (k0 & p0 & gp & -> & Hp & [[Hlt ->] | [Hle ->]])].
        -- assert (World.started_at gs <= World.started_at g) as Hgs
             by (by eapply Hprev).
           split; [|split; [done|]].
           { intros [|j] sj gj Hl Hj; simpl in Hl; [|eauto]. congruence. }
           right. destruct Hsrc as [[= -> ->] | (j0 & -> & Hl0 & Hlt & Hplt)].
           ++ exists 0%nat. split; [lia|]. split; [done|].
              split; [intros; lia | done].
           ++ exists (S j0). split; [lia|]. split; [done|]. split; [|done].
              intros [|j] sj gj Hj Hl Hcur; simpl in Hl.
              ** injection Hl as <-. by eapply Hplt.
              ** apply (Hlt j sj gj); [lia | done | done].
        -- assert (World.started_at gs <= World.started_at g) as Hgs
             by (by eapply Hprev).
           split; [|split].
           { intros [|j] sj gj Hl Hj; simpl in Hl; [|eauto]. congruence. }
           { intros k' p gp' [= <- <-] Hp'. rewrite Hp in Hp'. injection Hp' as <-. lia. }
           right. destruct Hsrc as [[= -> ->] | (j0 & -> & Hl0 & Hlt' & Hplt)].
           ++ exists 0%nat. split; [lia|]. split; [done|]. split; [intros; lia|].
              intros k' p gp' [= <- <-] Hp'. rewrite Hp in Hp'. injection Hp' as <-.
              rewrite Hs in Hg. injection Hg as <-. done.
           ++ exists (S j0). split; [lia|]. split; [done|]. split.
              ** intros [|j] sj gj Hj Hl Hcur; simpl in Hl.
                 --- injection Hl as <-. by eapply Hplt.
                 --- apply (Hlt' j sj gj); [lia | done | done].
              ** intros k' p gp' [= <- <-] Hp'. rewrite Hp in Hp'.
                 injection Hp' as <-.
                 assert (World.started_at gs < World.started_at g) by (by eapply Hplt).
                 lia.
        -- assert (World.started_at gp <= World.started_at g) as Hgp
             by (by eapply Hprev).
           split; [|split; [done|]].
           { intros [|j] sj gj Hl Hj; simpl in Hl; [|eauto].
             injection Hl as <-. rewrite Hs in Hj. injection Hj as <-. lia. }
           destruct Hsrc as [-> | (j0 & -> & Hl0 & Hlt' & Hplt)]; [by left|].
           right. exists (S j0). split; [lia|]. split; [done|]. split; [|done].
           intros [|j] sj gj Hj Hl Hcur; simpl in Hl.
           ++ injection Hl as <-. rewrite Hs in Hcur. injection Hcur as <-.
              assert (World.started_at gp < World.started_at g) by (by eapply Hplt).
              lia.
           ++ apply (Hlt' j sj gj); [lia | done | done].
    + destruct Hr as [-> Hnone].
      destruct Hpick as [[Hs ->] | (gs & Hs & [[_ ?] | (k0 & p0 & gp & -> & Hp & [[_ ?] | [_ ?]])])];
        try discriminate.
      split; [done|]. intros [|j] sj Hl; simpl in Hl; [congruence | eauto].
  - discriminate.
Qed.

Lemma pick_total prev i s :
  has_current prev ->
  exists prev', pick prev i s = ([], Some prev') /\ has_current prev'.
Proof.
  intros Hc. unfold pick. destruct (length (games s) <=? index s)%nat eqn:Hlen.
  - eauto.
  - apply Nat.leb_gt in Hlen.
    destruct (current s) as [gs|] eqn:Hs; [|apply current_None in Hs; lia].
    assert (has_current (Some (i, s))) by (intros ? ? [= <- <-]; by eexists).
    destruct prev as [[k p]|]; [|eauto].
    destruct (Hc k p eq_refl) as [gp Hp]. rewrite Hp.
    destruct (World.started_at gp <? World.started_at gs); eauto.
Qed.

(** Without a [null] state the reduction does not throw. *)
Lemma reduce_total states : forall i prev,
  has_current prev ->
  Forall is_Some states ->
  exists r, reduce i prev states = ([], Some r).
Proof.
  induction states as [|o rest IH]; simpl; intros i prev Hc Hall.
  - eauto.
  - apply Forall_cons in Hall as [[s ->] Hall].
    destruct (pick_total prev i s Hc) as (prev' & -> & Hc').
    destruct (IH (S i) prev' Hc' Hall) as [r Hr]. exists r.
    unfold bind. by rewrite Hr.
Qed.

(** ** One round *)

Lemma pick_trace prev i s tr r : pick prev i s = (tr, r) -> tr = [].
Proof. unfold pick, ret, throw. intros H. repeat case_match; by simplify_eq. Qed.

Lemma reduce_trace states : forall i prev tr r,
  reduce i prev states = (tr, r) -> tr = [].
Proof.
  induction states as [|[s|] rest IH]; simpl; intros i prev tr r H.
  - by injection H as <-.
  - apply bind_inv in H as [[H _] | (tr1 & p' & tr2 & H1 & H2 & ->)].
    + by eapply pick_trace.
    + apply pick_trace in H1 as ->. by eapply IH.
  - by injection H as <-.
Qed.

Lemma round_trace states tr r :
  round server opp since states = (tr, r) ->
  exists r', refill server opp since states = (tr, r').
Proof.
  unfold round. intros H.
  apply bind_inv in H as [[H _] | (tr1 & states1 & tr2 & H1 & H2 & ->)]; [eauto|].
  assert (tr2 = []) as ->; [|rewrite app_nil_r; eauto].
  apply bind_inv in H2 as [[H2 _] | (tr3 & fs & tr4 & H2 & H3 & ->)].
  - by eapply reduce_trace.
  - apply reduce_trace in H2 as ->.
    destruct fs as [[i s]|]; [|by injection H3 as <-].
    destruct (current s); by injection H3 as <-.
Qed.

Lemma has_current_None : has_current None.
Proof. intros ? ? [=]. Qed.

(** A round that yields: the states are refilled, the game comes from slot
    [i] of the refilled states, no other slot has a later game and no
    earlier slot has one as late. *)
Lemma round_yield states tr g states' :
  round server opp since states = (tr, Some (Some (g, states'))) ->
  exists states1 i s,
    refill server opp since states = (tr, Some states1) /\
    states1 !! i = Some (Some s) /\ current s = Some g /\
    states' = <[i := Some (advance s)]> states1 /\
    forall j sj gj, states1 !! j = Some (Some sj) -> current sj = Some gj ->
      World.started_at gj <= World.started_at g /\
      ((j < i)%nat -> World.started_at gj < World.started_at g).
Proof.
  unfold round. intros H.
  apply bind_inv_Some in H as (tr1 & states1 & tr2 & H1 & H2 & ->).
  apply bind_inv_Some in H2 as (tr3 & fs & tr4 & H2 & H3 & ->).
  apply reduce_spec in H2 as [-> Hfs]; [|apply has_current_None].
  destruct fs as [[i s]|]; [|discriminate].
  destruct Hfs as (g' & Hg & Hall & _ & [? | (j0 & -> & Hl & Hlt & _)]); [discriminate|].
  rewrite Hg in H3. injection H3 as <- <- <-. rewrite app_nil_r.
  exists states1, j0, s. repeat split; eauto.
Qed.

(** A round that ends the enumeration: no refilled state has a game left. *)
Lemma round_break states tr :
  round server opp since states = (tr, Some None) ->
  exists states1,
    refill server opp since states = (tr, Some states1) /\
    forall j s, states1 !! j = Some (Some s) -> current s = None.
Proof.
  unfold round. intros H.
  apply bind_inv_Some in H as (tr1 & states1 & tr2 & H1 & H2 & ->).
  apply bind_inv_Some in H2 as (tr3 & fs & tr4 & H2 & H3 & ->).
  apply reduce_spec in H2 as [-> Hfs]; [|apply has_current_None].
  destruct fs as [[i s]|].
  - destruct Hfs as (g' & Hg & _). rewrite Hg in H3. discriminate.
  - injection H3 as <-. rewrite app_nil_r. destruct Hfs as [_ Hfs]. eauto.
Qed.

(** ** The first fetches *)

(** Building the options of the first fetch throws when [since] is no
    time value; otherwise the first fetches always return. *)
Lemma fetch_all_undated p rest :
  dated since = false -> fetch_all server opp since (p :: rest) = ([], None).
Proof. intros Hd. cbn [fetch_all]. by rewrite fetchPlayerGames_undated. Qed.

Lemma fetch_all_inv ids tr r :
  dated since = true ->
  fetch_all server opp since ids = (tr, r) ->
  yielded tr = [] /\
  exists states, r = Some states /\
    Forall2 (fun p o => exists tr1,
               fetchPlayerGames server p opp since 1 = (tr1, Some o)) ids states.
Proof.
  intros Hd.
  revert tr r. induction ids as [|p rest IH]; intros tr r H; cbn [fetch_all] in H.
  - injection H as <- <-. split; [done|]. exists []. split; [done | constructor].
  - apply bind_inv in H as [[H ->] | (tr1 & o & tr2 & H1 & H2 & ->)].
    { apply fetchPlayerGames_inv in H as (? & _ & _ & [=]). done. }
    pose proof (fetchPlayerGames_yields_nothing _ _ _ _ H1) as Hy1.
    apply bind_inv in H2 as [[H2 ->] | (tr3 & ss & tr4 & H2 & H3 & ->)].
    { apply IH in H2 as (_ & ? & [=] & _). }
    injection H3 as <- <-. apply IH in H2 as (Hy & states & [= <-] & Hall).
    rewrite !yielded_app, Hy1, Hy. split; [done|].
    eexists. split; [done|]. constructor; eauto.
Qed.

Lemma fetch_all_yields_nothing ids tr r :
  fetch_all server opp since ids = (tr, r) -> yielded tr = [].
Proof.
  intros H. destruct (dated since) eqn:Hd.
  - by apply fetch_all_inv in H as [? _].
  - destruct ids as [|p rest]; [by injection H as <- _|].
    rewrite fetch_all_undated in H by done. by injection H as <- _.
Qed.

Lemma fetch_all_inv_Some ids tr states :
  fetch_all server opp since ids = (tr, Some states) ->
  yielded tr = [] /\
  Forall2 (fun p o => exists tr1,
             fetchPlayerGames server p opp since 1 = (tr1, Some o)) ids states.
Proof.
  destruct ids as [|p rest].
  - intros [= <- <-]. split; [done | constructor].
  - intros H. destruct (dated since) eqn:Hd.
    + apply fetch_all_inv in H as (Hy & states' & [= <-] & Hall); done.
    + by rewrite fetch_all_undated in H.
Qed.

(** ** States of a run *)

Lemma refetch_slot_ok tr0 p s tr o :
  slot_ok tr0 p (Some s) ->
  refetch server opp since s = (tr, Some o) ->
  slot_ok tr0 p o.
Proof.
  intros Hs H. apply refetch_inv in H as [(_ & _ & [= ->]) | [_ H]]; [done|].
  apply fetchPlayerGames_inv_Some in H as (req & _ & _ & [= ->]).
  destruct (Hs s eq_refl) as [Hp _].
  intros s'. destruct (server req); [|discriminate]. intros [= <-]. simpl.
  split; [done|]. split; [lia | apply sublist_nil_l].
Qed.

Lemma refill_slots tr0 ids states tr states1 :
  Forall2 (slot_ok tr0) ids states ->
  refill server opp since states = (tr, Some states1) ->
  Forall2 (slot_ok tr0) ids states1.
Proof.
  intros Hall H1. apply refill_Some in H1.
  apply Forall2_same_length_lookup. split.
  - rewrite (Forall2_length _ _ _ Hall). by eapply Forall2_length.
  - intros j p o Hp Ho.
    destruct (Forall2_lookup_r _ _ _ _ _ H1 Ho) as (o0 & Ho0 & s0 & tr1 & -> & Hre).
    eapply refetch_slot_ok; [|exact Hre].
    by eapply (Forall2_lookup_lr _ _ _ _ _ _ Hall).
Qed.

Lemma Running_slots ids tr0 states :
  Spec.Running server opp since ids tr0 states ->
  Forall2 (slot_ok tr0) ids states.
Proof.
  induction 1 as [tr states H | tr0 states tr g states' _ IH H].
  - apply fetch_all_inv_Some in H as (_ & Hall).
    eapply Forall2_impl; [exact Hall|]. intros p o [tr1 H1].
    apply fetchPlayerGames_inv_Some in H1 as (req & _ & _ & [= ->]).
    intros s'. destruct (server req); [|discriminate]. intros [= <-]. simpl.
    split; [done|]. split; [lia | apply sublist_nil_l].
  - apply round_yield in H as (states1 & i & s & H1 & Hi & Hg & -> & _).
    pose proof (refill_slots _ _ _ _ _ IH H1) as Hall.
    apply refill_fetches in H1 as [Hy _].
    assert (yielded (tr0 ++ tr ++ [Yield g]) = yielded tr0 ++ [g]) as Hyield.
    { rewrite !yielded_app, Hy. done. }
    apply Forall2_same_length_lookup. split.
    + rewrite length_insert. by eapply Forall2_length.
    + intros j p o Hp Ho.
      destruct (decide (i = j)) as [->|Hne].
      * rewrite list_lookup_insert_eq in Ho by (by eapply lookup_lt_Some).
        injection Ho as <-. intros s' [= <-].
        destruct (Forall2_lookup_lr _ _ _ _ _ _ Hall Hp Hi s eq_refl)
          as (Hprof & _ & Hsub).
        split; [done|]. cbn [advance index games]. split.
        -- apply lookup_lt_Some in Hg. lia.
        -- rewrite (take_S_r _ _ _ Hg), Hyield. by apply sublist_app.
      * rewrite list_lookup_insert_ne in Ho by done.
        intros s' ->.
        destruct (Forall2_lookup_lr _ _ _ _ _ _ Hall Hp Ho s' eq_refl)
          as (Hprof & Hle & Hsub).
        split; [done|]. split; [done|]. rewrite Hyield.
        by apply sublist_inserts_r.
Qed.

Lemma In_fetches req tr : In (Fetch req) tr -> In req (fetches tr).
Proof.
  intros Hin. apply list_elem_of_In. unfold fetches. apply list_elem_of_omap.
  exists (Fetch req). split; [by apply list_elem_of_In | done].
Qed.

(** The states of the generator objects reached from a call
    [enumPlayerGames(profileIds, opp, since)] are states of a run. *)
Lemma Reached_Running profileIds gen :
  Spec.Reached server (Start profileIds opp since) gen ->
  gen = Start profileIds opp since \/
  exists tr0 states, gen = Suspended opp since states /\
    Spec.Running server opp since (as_array profileIds) tr0 states.
Proof.
  induction 1 as [|gen tr g k _ IH Hnext]; [by left|]. right.
  destruct IH as [-> | (tr0 & states & -> & Hrun)]; simpl in Hnext.
  - destruct (negb _); [discriminate|]. destruct (_ && _); [discriminate|].
    apply bind_inv_Some in Hnext as (tr1 & states & tr2 & H1 & H2 & ->).
    unfold loop in H2.
    apply bind_inv_Some in H2 as (tr3 & [[g' states']|] & tr4 & H2 & H3 & ->);
      [|discriminate].
    injection H3 as <- <- <-. eexists _, states'. split; [done|].
    eapply Spec.running_round; [|exact H2]. by eapply Spec.running_first.
  - unfold loop in Hnext.
    apply bind_inv_Some in Hnext as (tr3 & [[g' states']|] & tr4 & H2 & H3 & ->);
      [|discriminate].
    injection H3 as <- <- <-. eexists _, states'. split; [done|].
    by eapply Spec.running_round.
Qed.

(** Where the requests of a refill come from. *)
Lemma refill_request states tr r req :
  refill server opp since states = (tr, r) ->
  In (Fetch req) tr ->
  exists i s, states !! i = Some (Some s) /\ needs_page s = true /\
    req = request (profile_id s) opp since (page s + 1).
Proof.
  revert tr r. induction states as [|[s|] rest IH]; intros tr r H Hin;
    cbn [refill] in H.
  - injection H as <- <-. destruct Hin.
  - assert (exists tr1 tr2 r1 r2, tr = tr1 ++ tr2 /\
              refetch server opp since s = (tr1, r1) /\
              (tr2 = [] \/ refill server opp since rest = (tr2, r2)))
      as (tr1 & tr2 & r1 & r2 & -> & H1 & H2).
    { apply bind_inv in H as [[H ->] | (tr1 & s' & tr2 & H1 & H2 & ->)].
      - exists tr, [], None, None. rewrite app_nil_r. eauto.
      - apply bind_inv in H2 as [[H2 ->] | (tr3 & rest' & tr4 & H2 & H3 & ->)].
        + exists tr1, tr2, (Some s'), None. eauto 10.
        + injection H3 as <- <-. rewrite app_nil_r.
          exists tr1, tr3, (Some s'), (Some rest'). eauto 10. }
    apply in_app_iff in Hin as [Hin|Hin].
    + exists 0%nat, s. split; [done|].
      apply refetch_inv in H1 as [(_ & -> & _) | [Hn H1]]; [destruct Hin|].
      by destruct (fetchPlayerGames_sent _ _ _ _ _ H1 Hin) as [_ ->].
    + destruct H2 as [-> | H2]; [destruct Hin|].
      destruct (IH _ _ H2 Hin) as (i & s0 & ? & ?). exists (S i), s0. done.
  - injection H as <- <-. destruct Hin.
Qed.

(** C7. In any round of a run of [enumPlayerGames], a request is sent only
    for a profile whose cursor has reached the end of its current page
    ([index = games.length]), every game of that page having been yielded
    before, and which has more games ([offset + index < total_count]); the
    request asks for the page after the current one. *)
Theorem enumPlayerGames_fetches_on_demand ids tr0 states tr r req :
  Spec.Running server opp since ids tr0 states ->
  round server opp since states = (tr, r) ->
  In (Fetch req) tr ->
  exists i s,
    states !! i = Some (Some s) /\
    ids !! i = Some (profile_id s) /\
    req = request (profile_id s) opp since (page s + 1) /\
    index s = length (games s) /\
    games s `sublist_of` yielded tr0 /\
    offset s + Z.of_nat (index s) < total_count s.
Proof.
  intros Hrun Hround Hin. apply Running_slots in Hrun.
  apply round_trace in Hround as [r' Hrefill].
  destruct (refill_request _ _ _ _ Hrefill Hin) as (i & s & Hi & Hn & ->).
  apply needs_page_true in Hn as [Hlen Hmore].
  destruct (Forall2_lookup_r _ _ _ _ _ Hrun Hi) as (p & Hp & Hok).
  destruct (Hok s eq_refl) as (<- & Hle & Hsub).
  exists i, s. repeat split; try done; [lia|].
  by rewrite take_ge in Hsub.
Qed.

(** C9. The game a round yields comes from the first slot, in the order of
    [profileIds], among those whose current game has the latest
    [started_at]: no current game is later, and a current game with the
    same timestamp belongs to a profile that comes no earlier. *)
Theorem enumPlayerGames_tie_goes_to_first_profile ids tr0 states tr g states' :
  Spec.Running server opp since ids tr0 states ->
  round server opp since states = (tr, Some (Some (g, states'))) ->
  exists states1 i s,
    refill server opp since states = (tr, Some states1) /\
    states1 !! i = Some (Some s) /\
    ids !! i = Some (profile_id s) /\
    current s = Some g /\
    states' = <[i := Some (advance s)]> states1 /\
    forall j sj gj, states1 !! j = Some (Some sj) -> current sj = Some gj ->
      World.started_at gj <= World.started_at g /\
      (World.started_at gj = World.started_at g -> (i <= j)%nat).
Proof.
  intros Hrun Hround. apply Running_slots in Hrun.
  apply round_yield in Hround as (states1 & i & s & H1 & Hi & Hg & -> & Hbest).
  pose proof (refill_slots _ _ _ _ _ Hrun H1) as Hall.
  destruct (Forall2_lookup_r _ _ _ _ _ Hall Hi) as (p & Hp & Hok).
  destruct (Hok s eq_refl) as [<- _].
  exists states1, i, s. repeat split; try done.
  - by eapply Hbest.
  - intros Heq. destruct (Hbest j sj gj) as [_ Hlt]; [done..|].
    destruct (decide (j < i)%nat) as [Hji|]; [|lia]. specialize (Hlt Hji). lia.
Qed.

(** C8, amended. When an element of [profileIds] is not an integer, or
    [opponentProfileId] is truthy and is not an integer, the generator
    returns [null] at once, without an error: no request is sent and no
    game is yielded. *)
Theorem enumPlayerGames_rejects_invalid fuel profileIds :
  Exists (fun p => Js.Number_isInteger p = false) (as_array profileIds) \/
  (Js.truthy opp = true /\ Js.Number_isInteger opp = false) ->
  enumPlayerGames server (S fuel) profileIds opp since = ([], Done Js.Null).
Proof.
  intros Hbad. unfold enumPlayerGames. cbn [drain next].
  destruct (negb (length (List.filter (fun p => negb (Js.Number_isInteger p))
                            (as_array profileIds)) =? 0)%nat) eqn:Hids; [done|].
  destruct Hbad as [Hex | [Ht Hi]].
  - exfalso. apply negb_false_iff, Nat.eqb_eq, length_zero_iff_nil in Hids.
    apply Exists_exists in Hex as (p & Hin & Hp).
    assert (In p (List.filter (fun p => negb (Js.Number_isInteger p))
                    (as_array profileIds))) as Hin'.
    { apply filter_In. split; [by apply list_elem_of_In | by rewrite Hp]. }
    rewrite Hids in Hin'. destruct Hin'.
  - by rewrite Ht, Hi.
Qed.

(** A failed fetch leaves a [null] state, and the next round throws on it:
    the enumeration ends with a [TypeError] and the games of the other
    profiles are not yielded. (When [since] is no time value the first
    fetch throws before that, with the same end.) *)
Lemma enumPlayerGames_failed_fetch_throws fuel ids p :
  Forall (fun p => Js.Number_isInteger p = true) ids ->
  Js.truthy opp = false \/ Js.Number_isInteger opp = true ->
  In p ids ->
  server (request p opp since 1) = None ->
  exists tr,
    enumPlayerGames server (S fuel) (Js.Array ids) opp since = (tr, Thrown) /\
    yielded tr = [].
Proof.
  intros Hids Hopp Hin Hdown. unfold enumPlayerGames. cbn [drain next as_array].
  assert (List.filter (fun p => negb (Js.Number_isInteger p)) ids = []) as ->.
  { clear -Hids. induction Hids as [|q ids Hq _ IH]; [done|]. simpl.
    by rewrite Hq. }
  assert (Js.truthy opp && negb (Js.Number_isInteger opp) = false) as ->.
  { destruct Hopp as [-> | ->]; [done | apply andb_false_r]. }
  cbn [length Nat.eqb negb].
  destruct (dated since) eqn:Hd.
  2:{ destruct ids as [|q rest]; [destruct Hin|].
      rewrite fetch_all_undated by done. by exists []. }
  destruct (fetch_all server opp since ids) as [tr1 r1] eqn:H1.
  destruct (fetch_all_inv _ _ _ Hd H1) as (Hy1 & states & -> & Hall).
  assert (In None states) as Hnull.
  { apply list_elem_of_In in Hin. apply list_elem_of_lookup in Hin as [i Hi].
    destruct (Forall2_lookup_l _ _ _ _ _ Hall Hi) as (o & Ho & tr0 & Hf).
    apply fetchPlayerGames_inv_Some in Hf as (req & _ & -> & [= ->]).
    rewrite Hdown in Ho. apply list_elem_of_In, list_elem_of_lookup. eauto. }
  destruct (refill_null _ Hnull) as [tr2 H2].
  pose proof (refill_fetches _ _ _ H2) as [Hy2 _].
  exists (tr1 ++ tr2). unfold bind at 1, loop, round.
  unfold bind at 2. unfold bind at 2. rewrite H2. simpl.
  rewrite yielded_app, Hy1, Hy2. done.
Qed.

End Server.

(** C2, at a failing input: profile 2 is out of order on the sample server.
    The generator sends the two first requests and throws, yielding nothing,
    where the games of profile 1 alone would have been expected. *)
Theorem enumPlayerGames_outage_throws :
  let down := Upstream.outage (fun id => id =? 2) Sample.server in
  Api.enumPlayerGames down 10 (Js.Array Sample.ids) Js.Undefined None
  = ([Fetch (request (Js.int 1) Js.Undefined None 1);
      Fetch (request (Js.int 2) Js.Undefined None 1)], Thrown)
  /\ yielded (fst (Api.enumPlayerGames down 10 (Js.Array [Js.int 1]) Js.Undefined None))
     = Sample.history 1.
Proof. split; vm_compute; reflexivity. Qed.

(** C7, on the sample run: once both games of the first page of profile 2
    are yielded, its second page is requested. *)
Lemma enumPlayerGames_fetches_on_demand_witness :
  exists i s,
    Sample.states3 !! i = Some (Some s) /\
    Sample.ids !! i = Some (profile_id s) /\
    request (Js.int 2) Js.Undefined None 2
      = request (profile_id s) Js.Undefined None (page s + 1) /\
    index s = length (games s) /\
    games s `sublist_of` yielded Sample.trace3 /\
    offset s + Z.of_nat (index s) < total_count s.
Proof.
  apply (enumPlayerGames_fetches_on_demand Sample.server Js.Undefined None
           Sample.ids Sample.trace3 Sample.states3
           (fst (round Sample.server Js.Undefined None Sample.states3))
           (snd (round Sample.server Js.Undefined None Sample.states3))).
  - apply (Spec.running_round _ _ _ _ Sample.trace2 Sample.states2);
      [|vm_compute; reflexivity].
    apply (Spec.running_round _ _ _ _ Sample.trace1 Sample.states1);
      [|vm_compute; reflexivity].
    apply (Spec.running_round _ _ _ _ Sample.trace0 Sample.states0);
      [|vm_compute; reflexivity].
    apply Spec.running_first. vm_compute; reflexivity.
  - vm_compute; reflexivity.
  - vm_compute. left. reflexivity.
Defined.

(** C9, on the sample run: both profiles have a game at time 50, the one of
    the first profile is yielded. *)
Lemma enumPlayerGames_tie_goes_to_first_profile_witness :
  exists states1 i s,
    refill Sample.server Js.Undefined None Sample.states0 = ([], Some states1) /\
    states1 !! i = Some (Some s) /\
    Sample.ids !! i = Some (profile_id s) /\
    current s = Some (Sample.game1v1 50 1 7 "win" 900) /\
    Sample.states1 = <[i := Some (advance s)]> states1 /\
    forall j sj gj, states1 !! j = Some (Some sj) -> current sj = Some gj ->
      World.started_at gj <= 50 /\ (World.started_at gj = 50 -> (i <= j)%nat).
Proof.
  apply (enumPlayerGames_tie_goes_to_first_profile Sample.server Js.Undefined None
           Sample.ids Sample.trace0 Sample.states0 []
           (Sample.game1v1 50 1 7 "win" 900) Sample.states1).
  - apply Spec.running_first. vm_compute; reflexivity.
  - vm_compute; reflexivity.
Defined.

(** C8, on an array with a string in it. *)
Lemma enumPlayerGames_rejects_invalid_witness :
  Api.enumPlayerGames Sample.server 1
    (Js.Array [Js.int 1; Js.Str "2"]) Js.Undefined None = ([], Api.Done Js.Null).
Proof.
  apply (enumPlayerGames_rejects_invalid Sample.server Js.Undefined None 0
           (Js.Array [Js.int 1; Js.Str "2"])).
  left. apply Exists_cons_tl, Exists_cons_hd. reflexivity.
Defined.

(** C8 as it is stated fails for an opponent that is given, is not an
    integer, and is falsy: with [NaN] the generator checks nothing, sends
    its four requests and yields the six games of the two profiles. *)
Lemma falsy_opponent_is_not_checked :
  Js.Number_isInteger Js.NaN = false /\
  exists tr,
    Api.enumPlayerGames Sample.server 7 (Js.Array Sample.ids) Js.NaN None
    = (tr, Api.Done Js.Undefined) /\
    length (fetches tr) = 4%nat /\
    length (yielded tr) = 6%nat.
Proof.
  split; [reflexivity|]. eexists. split; [vm_compute; reflexivity|].
  split; reflexivity.
Qed.

End ApiFacts.

(** ** The merge over a paged server *)

Module MergeFacts.

Import Api ApiFacts.

(** *** Lists sorted newest first *)

Lemma newest_first_tail g l :
  Spec.newest_first (g :: l) = true -> Spec.newest_first l = true.
Proof.
  destruct l as [|h t]; [done|]. cbn [Spec.newest_first].
  intros [_ H]%andb_true_iff. done.
Qed.

Lemma newest_first_head g l x :
  Spec.newest_first (g :: l) = true -> x ∈ l ->
  World.started_at x <= World.started_at g.
Proof.
  revert g. induction l as [|h t IH]; intros g Hs Hx; [by apply elem_of_nil in Hx|].
  cbn [Spec.newest_first] in Hs. apply andb_true_iff in Hs as [Hle Hs].
  apply Z.leb_le in Hle. apply elem_of_cons in Hx as [-> | Hx]; [done|].
  specialize (IH h Hs Hx). lia.
Qed.

Lemma newest_first_cons g l :
  (forall x, x ∈ l -> World.started_at x <= World.started_at g) ->
  Spec.newest_first l = true ->
  Spec.newest_first (g :: l) = true.
Proof.
  intros Hle Hs. destruct l as [|h t]; [done|]. cbn [Spec.newest_first].
  apply andb_true_iff. split; [|done]. apply Z.leb_le, Hle. left.
Qed.

(** *** Interleavings *)

Lemma concat_take_head {A} (ls : list (list A)) i x rest :
  ls !! i = Some (x :: rest) ->
  concat ls ≡ₚ x :: concat (<[i := rest]> ls).
Proof.
  revert i. induction ls as [|l ls IH]; intros [|i] Hi; simpl in *; try done.
  - by injection Hi as ->.
  - rewrite (IH i Hi). by rewrite Permutation_middle.
Qed.

Lemma Interleave_Permutation {A} (ls : list (list A)) out :
  Spec.Interleave ls out -> out ≡ₚ concat ls.
Proof.
  induction 1 as [ls Hnil | ls i x rest out Hi _ IH].
  - induction Hnil as [|l ls -> _ IH]; [done|]. done.
  - rewrite (concat_take_head ls i x rest Hi). by constructor.
Qed.

Lemma Interleave_sublist {A} (ls : list (list A)) out :
  Spec.Interleave ls out -> forall l, l ∈ ls -> l `sublist_of` out.
Proof.
  induction 1 as [ls Hnil | ls i x rest out Hi _ IH]; intros l Hl.
  - rewrite (proj1 (Forall_forall _ _) Hnil l Hl). apply sublist_nil_l.
  - apply list_elem_of_lookup in Hl as [j Hj].
    destruct (decide (i = j)) as [<- | Hne].
    + rewrite Hi in Hj. injection Hj as <-. apply sublist_skip, IH.
      apply list_elem_of_lookup. exists i.
      apply list_lookup_insert_eq. by eapply lookup_lt_Some.
    + apply sublist_cons, IH. apply list_elem_of_lookup. exists j.
      by rewrite list_lookup_insert_ne.
Qed.

(** The first call of [next] on valid arguments: the first fetches, then
    the loop. *)
Lemma drain_Start server fuel profileIds opp since tr0 states0 :
  Forall (fun p => Js.Number_isInteger p = true) (as_array profileIds) ->
  Js.truthy opp = false \/ Js.Number_isInteger opp = true ->
  fetch_all server opp since (as_array profileIds) = (tr0, Some states0) ->
  drain server (S fuel) (Start profileIds opp since)
  = (tr0 ++ fst (drain server (S fuel) (Suspended opp since states0)),
     snd (drain server (S fuel) (Suspended opp since states0))).
Proof.
  intros Hids Hopp Hfetch. cbn [drain next].
  assert (List.filter (fun p => negb (Js.Number_isInteger p)) (as_array profileIds) = [])
    as ->.
  { clear -Hids. induction Hids as [|q ids Hq _ IH]; [done|]. simpl.
    by rewrite Hq. }
  assert (Js.truthy opp && negb (Js.Number_isInteger opp) = false) as ->.
  { destruct Hopp as [-> | ->]; [done | apply andb_false_r]. }
  cbn [length Nat.eqb negb]. rewrite Hfetch. unfold bind at 1.
  destruct (loop server opp since states0) as [tr1 [[g k|v]|]]; cbn [fst snd]; try done.
  destruct (drain server fuel k) as [tr' o]. cbn [fst snd]. by rewrite app_assoc.
Qed.

(** The first call of [next] when the options of a fetch cannot be built:
    the generator throws before any request. *)
Lemma drain_Start_undated server fuel profileIds opp since p rest :
  Forall (fun p => Js.Number_isInteger p = true) (as_array profileIds) ->
  Js.truthy opp = false \/ Js.Number_isInteger opp = true ->
  as_array profileIds = p :: rest ->
  dated since = false ->
  drain server (S fuel) (Start profileIds opp since) = ([], Thrown).
Proof.
  intros Hids Hopp Hne Hd. cbn [drain next].
  assert (List.filter (fun p => negb (Js.Number_isInteger p)) (as_array profileIds) = [])
    as ->.
  { clear -Hids. induction Hids as [|q ids Hq _ IH]; [done|]. simpl.
    by rewrite Hq. }
  assert (Js.truthy opp && negb (Js.Number_isInteger opp) = false) as ->.
  { destruct Hopp as [-> | ->]; [done | apply andb_false_r]. }
  cbn [length Nat.eqb negb]. rewrite Hne, fetch_all_undated by done. done.
Qed.

Section Paged.

Variable per_page : nat.
Variable history : Z -> list Game.
Variable opp : Js.Value.
Variable since : option Z.
Hypothesis per_page_pos : (0 < per_page)%nat.

(** [since] is absent or a time value: the options of a fetch can be
    built. *)
Hypothesis since_dated : dated since = true.

Abbreviation server := (Upstream.paged_server per_page history).
Abbreviation on_page := (Spec.on_page per_page history).
Abbreviation remaining := (Spec.remaining history).

Ltac fields :=
  unfold Upstream.page_of;
  cbn [profile_id opponent_profile_id page offset total_count games index advance
       json_page json_offset json_total_count json_games].

Lemma int_value_int z : Js.int_value (Js.int z) = Some z.
Proof.
  unfold Js.int_value, Js.int, inject_Z. simpl.
  rewrite Z.mod_1_r, Z.div_1_r. done.
Qed.

Lemma isInteger_int z : Js.Number_isInteger (Js.int z) = true.
Proof. unfold Js.Number_isInteger, Js.int, inject_Z. simpl. by rewrite Z.mod_1_r. Qed.

(** A cursor with games left on its page points at the first remaining game
    of its profile. *)
Lemma on_page_current s :
  on_page s -> (index s < length (games s))%nat ->
  current s = head (remaining (Some s)).
Proof.
  intros (id & k & Hid & _ & Hoff & _ & Hg & _) Hlt.
  unfold current, Spec.remaining. rewrite Hid, Hoff, Nat2Z.id, head_lookup, lookup_drop.
  rewrite Hg in Hlt |- *. rewrite length_take in Hlt.
  rewrite lookup_take_lt by lia. rewrite lookup_drop. f_equal. lia.
Qed.

(** The first page of a profile. *)
Lemma fetch_first id tr o :
  fetchPlayerGames server (Js.int id) opp since 1 = (tr, Some o) ->
  exists s, o = Some s /\ on_page s /\ remaining o = history id.
Proof.
  intros H. apply fetchPlayerGames_inv_Some in H as (req & _ & -> & [= ->]).
  unfold server, Upstream.paged_server. cbn [request req_profile req_page].
  rewrite int_value_int. eexists. split; [done|]. split.
  - exists id, 0%nat. fields. rewrite int_value_int. repeat split; lia.
  - unfold Spec.remaining. fields. rewrite int_value_int. done.
Qed.

(** After the refill step a cursor is on a page, has the same games left,
    and either points at the first of them or has none. *)
Lemma refetch_on_page s tr o :
  on_page s ->
  refetch server opp since s = (tr, Some o) ->
  exists s', o = Some s' /\ on_page s' /\
    remaining (Some s') = remaining (Some s) /\
    current s' = head (remaining (Some s')).
Proof.
  intros Hs H. pose proof Hs as (id & k & Hid & Hpg & Hoff & Htot & Hg & Hidx).
  apply refetch_inv in H as [(Hn & _ & [= ->]) | [Hn H]].
  - exists s. repeat split; try done.
    destruct (decide (index s < length (games s))%nat) as [Hlt|Hge].
    { by apply on_page_current. }
    unfold needs_page in Hn. apply andb_false_iff in Hn as [Hn|Hn].
    { apply Nat.leb_gt in Hn. lia. }
    apply Z.ltb_ge in Hn.
    assert (current s = None) as -> by (apply current_None; lia).
    unfold Spec.remaining. rewrite Hid, Hoff, Nat2Z.id.
    rewrite drop_ge; [done|]. lia.
  - apply needs_page_true in Hn as [Hlen Hmore].
    assert (index s = per_page /\ (k * per_page + per_page < length (history id))%nat)
      as [Hfull Hlt].
    { rewrite Hg, length_take, length_drop in Hlen, Hidx. lia. }
    apply fetchPlayerGames_inv_Some in H as (req & _ & -> & [= ->]).
    unfold server, Upstream.paged_server. cbn [request req_profile req_page].
    rewrite Hid. eexists. split; [done|].
    assert (Z.to_nat (page s + 1 - 1) = S k) as Hk by lia.
    split; [|split].
    + exists id, (S k). fields. rewrite Hk. repeat split; try done; lia.
    + unfold Spec.remaining. fields.
      rewrite Hid, Hk, Hoff, !Nat2Z.id, Hfull. f_equal. lia.
    + unfold current, Spec.remaining. fields. rewrite Hid, Hk, Nat2Z.id.
      rewrite lookup_take_lt by lia. rewrite head_lookup, !lookup_drop.
      f_equal. lia.
Qed.

(** Yielding the current game removes it from the games left. *)
Lemma advance_on_page s g :
  on_page s -> current s = Some g ->
  on_page (advance s) /\
  remaining (Some s) = g :: remaining (Some (advance s)).
Proof.
  intros Hs Hg. pose proof Hs as (id & k & Hid & Hpg & Hoff & Htot & Hgs & Hidx).
  assert (index s < length (games s))%nat as Hlt by (by eapply lookup_lt_Some).
  split.
  - exists id, k. fields. repeat split; done.
  - rewrite (on_page_current s Hs Hlt) in Hg.
    unfold Spec.remaining in *. fields. rewrite Hid in *.
    rewrite head_lookup, lookup_drop, Nat.add_0_r in Hg.
    rewrite (drop_S _ _ _ Hg). f_equal. f_equal. lia.
Qed.

Abbreviation paged := (Spec.paged per_page history).
Abbreviation ready := (Spec.ready per_page history).

Lemma refill_paged states :
  Forall paged states ->
  exists tr states1,
    refill server opp since states = (tr, Some states1) /\
    yielded tr = [] /\
    Forall ready states1 /\
    remaining <$> states1 = remaining <$> states.
Proof.
  induction 1 as [|o states (s & -> & Hs) _ (tr2 & states1 & H2 & Hy2 & Hr2 & Heq)].
  - exists [], []. repeat split; constructor.
  - cbn [refill].
    destruct (refetch server opp since s) as [tr1 r1] eqn:H1.
    destruct (refetch_fetches _ _ _ _ _ _ H1) as (Hy1 & Ho' & _).
    destruct (Ho' since_dated) as [o' ->].
    destruct (refetch_on_page _ _ _ Hs H1) as (s' & -> & Hs' & Hrem & Hcur).
    exists (tr1 ++ tr2 ++ []), (Some s' :: states1).
    unfold bind at 1. unfold bind at 1. rewrite H2. cbn [ret].
    split; [done|]. rewrite !yielded_app, Hy1, Hy2. split; [done|]. split.
    + constructor; [|done]. exists s'. done.
    + rewrite !fmap_cons. by f_equal.
Qed.

Lemma elem_of_concat {A} (x : A) (ls : list (list A)) :
  x ∈ concat ls <-> exists l, l ∈ ls /\ x ∈ l.
Proof.
  rewrite list_elem_of_In, in_concat. split; intros (l & H1 & H2); exists l;
    by rewrite ?list_elem_of_In in *.
Qed.

(** One round over good states: it ends the enumeration when no game is
    left, and otherwise yields the head of one of the lists of games left,
    which no game left is later than. *)
Lemma round_paged states :
  Forall paged states ->
  Forall (fun l => Spec.newest_first l = true) (remaining <$> states) ->
  exists tr r,
    round server opp since states = (tr, Some r) /\ yielded tr = [] /\
    match r with
    | None => Forall (fun l => l = []) (remaining <$> states)
    | Some (g, states') =>
        Forall paged states' /\
        exists i rest,
          (remaining <$> states) !! i = Some (g :: rest) /\
          remaining <$> states' = <[i := rest]> (remaining <$> states) /\
          forall x, x ∈ concat (remaining <$> states) ->
            World.started_at x <= World.started_at g
    end.
Proof.
  intros Hall Hsorted.
  destruct (refill_paged states Hall) as (tr & states1 & H1 & Hy & Hready & Heq).
  rewrite <- Heq in *. clear Heq Hall.
  assert (Forall is_Some states1) as Hsome.
  { eapply Forall_impl; [exact Hready|]. intros o (s & -> & _). by eexists. }
  destruct (reduce_total states1 0 None has_current_None Hsome) as [fs Hfs].
  pose proof (reduce_spec _ _ _ _ _ has_current_None Hfs) as [_ Hspec].
  exists tr. unfold round. rewrite H1. unfold bind at 1. rewrite Hfs.
  destruct fs as [[i s]|].
  - destruct Hspec as (g & Hg & Hmax & _ & [? | (j0 & -> & Hi & _ & _)]);
      [discriminate|]. cbn [Nat.add] in *.
    unfold bind. rewrite Hg. cbn [ret]. rewrite !app_nil_r.
    eexists. split; [done|]. split; [done|].
    destruct (Forall_lookup_1 _ _ _ _ Hready Hi) as (s0 & [= <-] & Hs & Hcur).
    destruct (advance_on_page s g Hs Hg) as [Hadv Hrem]. split.
    + apply Forall_insert; [|by eexists].
      eapply Forall_impl; [exact Hready|]. intros o (s' & -> & ? & _). by eexists.
    + exists j0, (remaining (Some (advance s))). split; [|split].
      * rewrite list_lookup_fmap, Hi. exact (f_equal Some Hrem).
      * apply list_fmap_insert.
      * intros x (l & Hl & Hx)%elem_of_concat.
        apply list_elem_of_lookup in Hl as [j Hj].
        pose proof (Forall_lookup_1 _ _ _ _ Hsorted Hj) as Hsj.
        rewrite list_lookup_fmap in Hj.
        destruct (states1 !! j) as [oj|] eqn:Hoj; [|discriminate].
        injection Hj as <-.
        destruct (Forall_lookup_1 _ _ _ _ Hready Hoj) as (sj & -> & _ & Hcj).
        destruct (remaining (Some sj)) as [|h t] eqn:Hrj;
          [by apply elem_of_nil in Hx|].
        cbn [head] in Hcj. pose proof (Hmax j sj h Hoj Hcj).
        apply elem_of_cons in Hx as [-> | Hx]; [lia|].
        pose proof (newest_first_head h t x Hsj Hx). lia.
  - destruct Hspec as [_ Hnone]. unfold bind. cbn [ret]. rewrite app_nil_r.
    eexists. split; [done|]. split; [done|].
    apply Forall_fmap, Forall_lookup. intros j o Hj. cbn.
    destruct (Forall_lookup_1 _ _ _ _ Hready Hj) as (sj & -> & _ & Hcj).
    rewrite (Hnone j sj Hj) in Hcj.
    destruct (remaining (Some sj)); [done | discriminate].
Qed.

(** The generator drained from good states: it returns, and what it yields
    is a sorted interleaving of the games left. *)
Lemma drain_paged fuel : forall states,
  Forall paged states ->
  Forall (fun l => Spec.newest_first l = true) (remaining <$> states) ->
  (length (concat (remaining <$> states)) < fuel)%nat ->
  exists tr,
    drain server fuel (Suspended opp since states) = (tr, Done Js.Undefined) /\
    Spec.Interleave (remaining <$> states) (yielded tr) /\
    Spec.newest_first (yielded tr) = true.
Proof.
  induction fuel as [|fuel IH]; intros states Hall Hsorted Hlen; [lia|].
  destruct (round_paged states Hall Hsorted) as (tr & r & Hround & Hy & Hr).
  cbn [drain next]. unfold loop. rewrite Hround. unfold bind.
  destruct r as [[g states']|]; cbn [ret]; rewrite app_nil_r.
  - destruct Hr as (Hall' & i & rest & Hi & Heq & Hmax).
    pose proof (concat_take_head _ _ _ _ Hi) as Hperm. rewrite <- Heq in Hperm.
    destruct (IH states') as (tr' & -> & Hint & Hs').
    + done.
    + rewrite Heq. apply Forall_insert; [done|].
      eapply newest_first_tail, (Forall_lookup_1 _ _ _ _ Hsorted Hi).
    + apply Permutation_length in Hperm. cbn [length] in Hperm. lia.
    + eexists. split; [done|].
      rewrite yielded_app, Hy. cbn. split.
      * econstructor; [exact Hi|]. by rewrite <- Heq.
      * apply newest_first_cons; [|done]. intros x Hx. apply Hmax.
        rewrite Hperm. right. by rewrite <- (Interleave_Permutation _ _ Hint).
  - eexists. split; [done|]. rewrite Hy. split; [|done].
    by constructor.
Qed.

(** C1. Over a server that holds, for each profile, a list of games sorted
    non-increasing by [started_at] and serves it in pages, the generator runs
    to its end and the sequence it yields is non-increasing by [started_at]
    and is an interleaving of the lists of the profiles: every game of every
    list is yielded once, and the games of a profile come in their order.
    [since] is absent or a time value (section hypothesis [since_dated]);
    the merge does not depend on it otherwise. *)
Theorem enumPlayerGames_merges fuel ids :
  Js.truthy opp = false \/ Js.Number_isInteger opp = true ->
  Forall (fun id => Spec.newest_first (history id) = true) ids ->
  (length (concat (history <$> ids)) < fuel)%nat ->
  exists tr,
    enumPlayerGames server fuel (Js.Array (Js.int <$> ids)) opp since
    = (tr, Done Js.Undefined) /\
    Spec.newest_first (yielded tr) = true /\
    Spec.Interleave (history <$> ids) (yielded tr) /\
    yielded tr ≡ₚ concat (history <$> ids) /\
    (forall id, id ∈ ids -> history id `sublist_of` yielded tr).
Proof.
  intros Hopp Hsorted Hlen. destruct fuel as [|fuel]; [lia|].
  destruct (fetch_all server opp since (Js.int <$> ids)) as [tr0 r0] eqn:Hfetch.
  destruct (fetch_all_inv _ _ _ _ _ _ since_dated Hfetch) as (Hy0 & states0 & -> & Hall).
  assert (Forall paged states0 /\ remaining <$> states0 = history <$> ids) as [Hp Hrem].
  { clear -Hall per_page_pos. apply Forall2_fmap_l in Hall.
    induction Hall as [|id o ids states [tr1 H1] _ [IH1 IH2]]; [done|].
    apply fetch_first in H1 as (s & -> & Hs & Hr). split.
    - constructor; [by exists s | done].
    - rewrite !fmap_cons. by f_equal. }
  destruct (drain_paged (S fuel) states0) as (tr & Hdrain & Hint & Hs).
  { done. }
  { rewrite Hrem. by apply Forall_fmap. }
  { by rewrite Hrem. }
  exists (tr0 ++ tr). unfold enumPlayerGames.
  rewrite (drain_Start _ _ _ _ _ tr0 states0), Hdrain; cbn [fst snd as_array].
  - rewrite yielded_app, Hy0, Hrem in *. cbn [app]. repeat split; try done.
    + by apply Interleave_Permutation.
    + intros id Hid. eapply Interleave_sublist; [exact Hint|].
      by apply list_elem_of_fmap_2.
  - apply Forall_fmap, Forall_forall. intros id _. apply isInteger_int.
  - done.
  - done.
Qed.

End Paged.

(** C1, on the sample server: two profiles with three games each, served in
    pages of two. *)
Lemma enumPlayerGames_merges_witness :
  exists tr,
    enumPlayerGames Sample.server 7 (Js.Array Sample.ids) Js.Undefined None
    = (tr, Done Js.Undefined) /\
    Spec.newest_first (yielded tr) = true /\
    Spec.Interleave (Sample.history <$> [1; 2]) (yielded tr) /\
    yielded tr ≡ₚ concat (Sample.history <$> [1; 2]) /\
    (forall id, id ∈ [1; 2] -> Sample.history id `sublist_of` yielded tr).
Proof.
  apply (enumPlayerGames_merges 2 Sample.history Js.Undefined None
           ltac:(lia) ltac:(reflexivity) 7 [1; 2]).
  - left. reflexivity.
  - repeat constructor.
  - vm_compute. lia.
Defined.

End MergeFacts.

(** ** The aggregation *)

Module HandlersFacts.

Import Api ApiFacts Handlers.

(** *** The consumer's loop and the generator *)

Lemma next_yields_nothing server gen tr r :
  next server gen = (tr, r) -> yielded tr = [].
Proof.
  assert (forall opp since states tr r,
            loop server opp since states = (tr, r) -> yielded tr = []) as Hloop.
  { intros opp since states tr0 r0 H. unfold loop in H.
    apply bind_inv in H as [[H _] | (tr1 & a & tr2 & H1 & H2 & ->)].
    - apply round_trace in H as [r' H]. by apply refill_fetches in H as [? _].
    - apply round_trace in H1 as [r' H1]. apply refill_fetches in H1 as [Hy _].
      rewrite yielded_app, Hy. destruct a as [[g st]|]; by injection H2 as <- <-. }
  destruct gen as [profileIds opp since | opp since states]; cbn [next]; intros H.
  - destruct (negb _); [by injection H as <- <-|].
    destruct (_ && _); [by injection H as <- <-|].
    apply bind_inv in H as [[H _] | (tr1 & a & tr2 & H1 & H2 & ->)].
    + by apply fetch_all_yields_nothing in H.
    + apply fetch_all_yields_nothing in H1 as Hy. rewrite yielded_app, Hy.
      by eapply Hloop.
  - by eapply Hloop.
Qed.

(** What a loop over the generator returns is what the same loop returns
    over the list of the games the generator yielded to it. *)
Lemma for_await_for_of {A} server (body : A -> Game -> A + A) fuel :
  forall gen acc tr a,
  for_await server fuel gen body acc = (tr, Done a) ->
  a = for_of body acc (yielded tr).
Proof.
  induction fuel as [|fuel IH]; intros gen acc tr a H; cbn [for_await] in H;
    [discriminate|].
  destruct (next server gen) as [tr1 [[g k|v]|]] eqn:Hnext; [| |discriminate].
  - pose proof (next_yields_nothing _ _ _ _ Hnext) as Hy.
    destruct (body acc g) as [acc'|acc'] eqn:Hbody.
    + injection H as <- <-. rewrite yielded_app, Hy. cbn. by rewrite Hbody.
    + destruct (for_await server fuel k body acc') as [tr' o] eqn:Hrest.
      injection H as <- ->. rewrite yielded_app, Hy. cbn. rewrite Hbody.
      by eapply IH.
  - injection H as <- <-. by rewrite (next_yields_nothing _ _ _ _ Hnext).
Qed.

(** When the generator comes to its end within [fuel] calls, so does a
    loop over it, whatever its body. *)
Lemma drain_for_await {A} server (body : A -> Game -> A + A) fuel :
  forall gen acc tr v,
  drain server fuel gen = (tr, Done v) ->
  exists tr',
    for_await server fuel gen body acc
    = (tr', Done (for_of body acc (yielded tr))).
Proof.
  induction fuel as [|fuel IH]; intros gen acc tr v H; cbn [drain] in H;
    [discriminate|]. cbn [for_await].
  destruct (next server gen) as [tr1 [[g k|v']|]] eqn:Hnext; [| |discriminate].
  - pose proof (next_yields_nothing _ _ _ _ Hnext) as Hy.
    destruct (drain server fuel k) as [tr2 o] eqn:Hrest. injection H as <- ->.
    rewrite yielded_app, Hy. cbn.
    destruct (body acc g) as [acc'|acc']; [eauto|].
    destruct (IH k acc' tr2 v Hrest) as [tr' ->]. eauto.
  - injection H as <- <-. rewrite (next_yields_nothing _ _ _ _ Hnext). eauto.
Qed.

Lemma getPlayerWinRate_returned server fuel player options now0 now tr st :
  getPlayerWinRate server fuel player options now0 now = (tr, Done st) ->
  st = winRateOf (yielded tr) player options now.
Proof.
  unfold getPlayerWinRate, winRateOf.
  destruct (for_await _ _ _ _ _) as [tr' [l| |]] eqn:H; intros [= <- <-].
  by rewrite (for_await_for_of _ _ _ _ _ _ _ H).
Qed.

Lemma getPlayerWinRate_returns server fuel player options now0 now tr v :
  drain server fuel (gamesEnumerator player (or_default options) now0) = (tr, Done v) ->
  exists tr',
    getPlayerWinRate server fuel player options now0 now
    = (tr', Done (winRateOf (yielded tr) player options now)).
Proof.
  intros H. unfold getPlayerWinRate, winRateOf.
  destruct (drain_for_await server
              (body (or_default options) (playerProfileIds player) now) _ _
              initial _ _ H) as [tr' ->].
  eauto.
Qed.

(** *** The loop, game by game *)

Section Loop.

Variable o : Options.
Variable ids : list (option Z).
Variable now : Z.

Lemma account_lastgame l g : lastgame (account o ids now l g) = lastgame l.
Proof. unfold account. repeat case_match; done. Qed.

Lemma for_of_consumed games : forall l,
  for_of (body o ids now) l games
  = Spec.tally o ids now l (Spec.consumed o now (lastgame l) games).
Proof.
  induction games as [|g rest IH]; intros l; [done|].
  cbn [for_of Spec.consumed]. unfold body at 1.
  destruct (stops o now (lastgame l) (World.started_at g)); [done|].
  rewrite IH, account_lastgame. done.
Qed.

(** One game: what it adds to the counters. *)
Lemma account_step l g :
  let l' := account o ids now (set_lastgame (World.started_at g) l) g in
  pendingGames l' = pendingGames l + (if Spec.is_pending o ids now g then 1 else 0) /\
  pendingGame l' =
    match pendingGame l with
    | Some x => Some x
    | None => if Spec.is_pending o ids now g then Some g else None
    end /\
  stats l' =
    match Spec.counted o ids g with
    | Some (g', p) => count_game (stats l) g' p
    | None => stats l
    end.
Proof.
  unfold account, Spec.is_pending, Spec.counted.
  destruct (participant o ids g) as [p|]; cbn.
  - destruct (in_progress g); cbn.
    + destruct (now - 3 * 3600 * 1000 <? World.started_at g); cbn;
        destruct (pendingGame l); repeat split; lia.
    + destruct (wanted (civ o) (World.civilization p)); cbn;
        [destruct (wanted (map o) (World.map g)); cbn|];
        destruct (pendingGame l); repeat split; lia.
  - destruct (pendingGame l); repeat split; lia.
Qed.

Lemma count_game_counters st g p :
  games_count (count_game st g p) = games_count st + 1 /\
  wins_count (count_game st g p)
    = wins_count st + (if Spec.has_result "win" (g, p) then 1 else 0) /\
  losses_count (count_game st g p)
    = losses_count st + (if Spec.has_result "loss" (g, p) then 1 else 0) /\
  duration (count_game st g p) = duration st + duration_or_0 g /\
  win_rate (count_game st g p) = win_rate st /\
  pending_game_started_at (count_game st g p) = pending_game_started_at st.
Proof.
  unfold count_game, Spec.has_result. cbn.
  destruct (World.result p) as [x|]; [|repeat split; lia].
  destruct (String.eqb x "win") eqn:Hwin.
  - apply String.eqb_eq in Hwin as ->. cbn. repeat split; lia.
  - destruct (String.eqb x "loss"); repeat split; lia.
Qed.

Lemma tally_cons l g rest :
  Spec.tally o ids now l (g :: rest)
  = Spec.tally o ids now (account o ids now (set_lastgame (World.started_at g) l) g) rest.
Proof. reflexivity. Qed.

(** The variables of the loop after the games [gs]. *)
Lemma tally_spec gs : forall l,
  let l' := Spec.tally o ids now l gs in
  let cs := omap (Spec.counted o ids) gs in
  let ps := List.filter (Spec.is_pending o ids now) gs in
  pendingGames l' = pendingGames l + Z.of_nat (length ps) /\
  pendingGame l' = match pendingGame l with Some x => Some x | None => head ps end /\
  games_count (stats l') = games_count (stats l) + Z.of_nat (length cs) /\
  wins_count (stats l')
    = wins_count (stats l) + Z.of_nat (length (List.filter (Spec.has_result "win") cs)) /\
  losses_count (stats l')
    = losses_count (stats l) + Z.of_nat (length (List.filter (Spec.has_result "loss") cs)) /\
  duration (stats l') = duration (stats l) + Spec.total_duration cs /\
  win_rate (stats l') = win_rate (stats l) /\
  pending_game_started_at (stats l') = pending_game_started_at (stats l).
Proof.
  induction gs as [|g rest IH]; intros l; cbn zeta.
  - cbn. destruct (pendingGame l); repeat split; lia.
  - rewrite tally_cons.
    destruct (account_step l g) as (Hn & Hp & Hs).
    destruct (IH (account o ids now (set_lastgame (World.started_at g) l) g))
      as (IHn & IHp & IHg & IHw & IHl & IHd & IHr & IHs).
    rewrite IHn, IHp, IHg, IHw, IHl, IHd, IHr, IHs, Hn, Hp, Hs. clear.
    cbn [omap list_omap List.filter].
    destruct (Spec.is_pending o ids now g);
      destruct (Spec.counted o ids g) as [[g' p]|] eqn:Hc; cbn [omap list_omap].
    all: try destruct (count_game_counters (stats l) g' p)
           as (Hg & Hw & Hl & Hd & Hr & Hs); try rewrite Hg, Hw, Hl, Hd, Hr, Hs.
    all: unfold Spec.total_duration; cbn [List.filter fold_right length head fst];
      unfold Spec.seconds, duration_or_0.
    all: destruct (pendingGame l);
      try destruct (Spec.has_result "win" (g', p));
      try destruct (Spec.has_result "loss" (g', p));
      cbn [length]; repeat split; try done; lia.
Qed.

(** *** The stopping rule *)

Lemma consumed_session_from games : forall prev,
  Js.given (timespan o) = None ->
  prev <> 0 ->
  Forall (fun g => World.started_at g <> 0) games ->
  Spec.consumed o now prev games = Spec.session_from (idletime o) prev games.
Proof.
  induction games as [|g rest IH]; intros prev Hspan Hprev Hall; [done|].
  apply Forall_cons in Hall as [Hg Hall].
  cbn [Spec.consumed Spec.session_from]. unfold stops. rewrite Hspan.
  apply Z.eqb_neq in Hprev. rewrite Hprev. cbn [negb andb].
  destruct (idletime o * 1000 <? prev - World.started_at g); [done|].
  f_equal. by apply IH.
Qed.

Lemma consumed_last_session games :
  Js.given (timespan o) = None ->
  Forall (fun g => World.started_at g <> 0) games ->
  Spec.consumed o now 0 games = Spec.last_session (idletime o) games.
Proof.
  intros Hspan Hall. destruct games as [|g rest]; [done|].
  apply Forall_cons in Hall as [Hg Hall].
  cbn [Spec.consumed Spec.last_session]. unfold stops. rewrite Hspan.
  cbn [Z.eqb negb andb]. f_equal. by apply consumed_session_from.
Qed.

Lemma consumed_window games t : forall prev,
  Js.given (timespan o) = Some t ->
  Spec.consumed o now prev games = Spec.window t now games.
Proof.
  induction games as [|g rest IH]; intros prev Hspan; [done|].
  cbn [Spec.consumed Spec.window]. unfold stops. rewrite Hspan.
  destruct (t * 1000 <? now - World.started_at g); [done|]. f_equal. by apply IH.
Qed.

Lemma window_within t games g :
  g ∈ Spec.window t now games -> now - World.started_at g <= t * 1000.
Proof.
  induction games as [|g' rest IH]; cbn [Spec.window]; [by intros ?%elem_of_nil|].
  destruct (t * 1000 <? now - World.started_at g') eqn:Hlt;
    [by intros ?%elem_of_nil|].
  apply Z.ltb_ge in Hlt. intros [-> | Hin]%elem_of_cons; [done | by apply IH].
Qed.

End Loop.

(** *** The result *)

Lemma winRateOf_consumed games player options now :
  winRateOf games player options now
  = finish (Spec.tally (or_default options) (playerProfileIds player) now initial
              (Spec.consumed (or_default options) now 0 games)).
Proof. unfold winRateOf. by rewrite for_of_consumed. Qed.


Lemma Math_round_ratio a b :
  0 < b -> Js.Math_round (inject_Z a / inject_Z b) = (2 * a + b) / (2 * b).
Proof.
  intros Hb. destruct b as [|p|p]; try lia.
  unfold Js.Math_round, Qfloor, Qdiv, Qinv, Qmult, Qplus, inject_Z. cbn.
  rewrite Pos.mul_1_l. f_equal; lia.
Qed.

Lemma results_exclusive gp :
  Spec.has_result "win" gp = true -> Spec.has_result "loss" gp = false.
Proof.
  unfold Spec.has_result. destruct (World.result gp.2) as [x|]; [|done].
  intros ->%String.eqb_eq. done.
Qed.

Lemma results_le_length (cs : list (Game * World.Player)) :
  (length (List.filter (Spec.has_result "win") cs)
   + length (List.filter (Spec.has_result "loss") cs) <= length cs)%nat.
Proof.
  induction cs as [|gp cs IH]; [done|]. cbn [List.filter length].
  destruct (Spec.has_result "win" gp) eqn:Hw.
  - rewrite (results_exclusive gp Hw). cbn [length]. lia.
  - destruct (Spec.has_result "loss" gp); cbn [length]; lia.
Qed.

(** The statistics returned, in terms of the games the loop went through. *)
Lemma winRateOf_spec games player options now :
  let o := or_default options in
  let ids := playerProfileIds player in
  let gs := Spec.consumed o now 0 games in
  let cs := omap (Spec.counted o ids) gs in
  let ps := List.filter (Spec.is_pending o ids now) gs in
  let st := winRateOf games player options now in
  games_count st = Z.of_nat (length cs) /\
  wins_count st = Z.of_nat (length (List.filter (Spec.has_result "win") cs)) /\
  losses_count st = Z.of_nat (length (List.filter (Spec.has_result "loss") cs)) /\
  duration st = Spec.total_duration cs /\
  pending_games st = Some (Z.of_nat (length ps)) /\
  pending_game_started_at st = World.started_at <$> head ps /\
  win_rate st =
    if losses_count st =? 0 then 100%Q
    else (inject_Z (Js.Math_round
                      (inject_Z (1000 * wins_count st)
                       / inject_Z (wins_count st + losses_count st))) / 10)%Q.
Proof.
  cbn zeta. rewrite winRateOf_consumed.
  destruct (tally_spec (or_default options) (playerProfileIds player) now
              (Spec.consumed (or_default options) now 0 games) initial)
    as (Hn & Hp & Hg & Hw & Hl & Hd & Hr & Hs).
  unfold finish.
  cbn [games_count wins_count losses_count duration pending_games
       pending_game_started_at win_rate].
  rewrite Hn, Hp, Hg, Hw, Hl, Hd, Hr, Hs.
  cbn [initial stats games_count wins_count losses_count duration win_rate
       pending_game_started_at pendingGames pendingGame].
  rewrite !Z.add_0_l. repeat split; by destruct (head _).
Qed.

(** C3. Without a timespan, over games that were not started at the epoch,
    [getPlayerWinRate] goes through the games of the last session only: it
    stops at the first game that started more than [idletime] seconds before
    the game preceding it in the sequence, and the game preceding it is any
    game, a team game that is then skipped as well. With an idle time of four
    hours and games at [T], [T - 1h] and [T - 6h], the session is the first
    two games, and they make up [games_count]. *)
Theorem getPlayerWinRate_session server fuel player options now0 now tr v :
  let o := or_default options in
  let ids := playerProfileIds player in
  let games := yielded tr in
  Js.given (timespan o) = None ->
  Forall (fun g => World.started_at g <> 0) games ->
  drain server fuel (gamesEnumerator player o now0) = (tr, Done v) ->
  exists tr' st,
    getPlayerWinRate server fuel player options now0 now = (tr', Done st) /\
    st = finish (Spec.tally o ids now initial (Spec.last_session (idletime o) games)) /\
    games_count st
      = Z.of_nat (length (omap (Spec.counted o ids) (Spec.last_session (idletime o) games))) /\
    forall g1 g2 g3 rest,
      games = g1 :: g2 :: g3 :: rest ->
      idletime o = 4 * 3600 ->
      World.started_at g2 = World.started_at g1 - 3600 * 1000 ->
      World.started_at g3 = World.started_at g1 - 6 * 3600 * 1000 ->
      Spec.last_session (idletime o) games = [g1; g2].
Proof.
  intros o ids games Hspan Hall Hdrain.
  destruct (getPlayerWinRate_returns _ _ _ _ _ now _ _ Hdrain) as [tr' Hret].
  exists tr', (winRateOf games player options now). split; [done|].
  pose proof (winRateOf_spec games player options now) as (Hg & _).
  rewrite winRateOf_consumed in *. fold o ids in Hg |- *.
  rewrite (consumed_last_session o now games Hspan Hall) in *.
  split; [done|]. split; [done|].
  intros g1 g2 g3 rest -> Hidle H2 H3. cbn [Spec.last_session Spec.session_from].
  rewrite Hidle, H2, H3.
  repeat match goal with
         | |- context [?a <? ?b] => destruct (Z.ltb_spec a b)
         end; try done; lia.
Qed.


(** C5. In the statistics [getPlayerWinRate] returns, [win_rate] is 100
    when [losses_count] is 0; otherwise it is a tenth of
    [Math.round(1000 * wins / (wins + losses))], the integer nearest to that
    quotient, halves rounded up. 7 wins and 3 losses make 70, 1 win and 2
    losses make 33.3. *)
Theorem getPlayerWinRate_win_rate server fuel player options now0 now tr st :
  getPlayerWinRate server fuel player options now0 now = (tr, Done st) ->
  let W := wins_count st in
  let L := losses_count st in
  (L = 0 -> win_rate st = 100%Q) /\
  (1 <= L ->
     exists tenths,
       tenths = Js.Math_round (inject_Z (1000 * W) / inject_Z (W + L)) /\
       win_rate st = (inject_Z tenths / 10)%Q /\
       2 * (W + L) * tenths <= 2 * (1000 * W) + (W + L) < 2 * (W + L) * (tenths + 1)) /\
  (W = 7 -> L = 3 -> (win_rate st == 70)%Q) /\
  (W = 1 -> L = 2 -> (win_rate st == 333 # 10)%Q).
Proof.
  intros Hret W L. apply getPlayerWinRate_returned in Hret as ->.
  pose proof (winRateOf_spec (yielded tr) player options now)
    as (_ & Hw & Hl & _ & _ & _ & Hr).
  fold W L in Hr. rewrite Hr.
  assert (0 <= W) as HW by (unfold W; lia).
  assert (0 <= L) as HL by (unfold L; lia).
  clearbody W L. repeat split.
  - by intros ->.
  - intros HL1. destruct (L =? 0) eqn:E; [apply Z.eqb_eq in E; lia|].
    eexists. split; [done|]. split; [done|].
    rewrite Math_round_ratio by lia.
    pose proof (Z.mul_div_le (2 * (1000 * W) + (W + L)) (2 * (W + L)) ltac:(lia)).
    pose proof (Z.mul_succ_div_gt (2 * (1000 * W) + (W + L)) (2 * (W + L)) ltac:(lia)).
    lia.
  - intros -> ->. reflexivity.
  - intros -> ->. reflexivity.
Qed.

(** C6. Among the games the loop goes through, a retained game without a
    duration counts in [pending_games] exactly when it started less than
    three hours before [now]; [pending_game_started_at] is the start of the
    first of these in the sequence; the counters are made of the finished
    games only; and the civilization and map filters play no part in what is
    pending. *)
Theorem getPlayerWinRate_pending server fuel player options now0 now tr v :
  let o := or_default options in
  let ids := playerProfileIds player in
  let gs := Spec.consumed o now 0 (yielded tr) in
  let ps := List.filter (Spec.is_pending o ids now) gs in
  let cs := omap (Spec.counted o ids) gs in
  drain server fuel (gamesEnumerator player o now0) = (tr, Done v) ->
  exists tr' st,
    getPlayerWinRate server fuel player options now0 now = (tr', Done st) /\
    pending_games st = Some (Z.of_nat (length ps)) /\
    pending_game_started_at st = World.started_at <$> head ps /\
    games_count st = Z.of_nat (length cs) /\
    wins_count st = Z.of_nat (length (List.filter (Spec.has_result "win") cs)) /\
    losses_count st = Z.of_nat (length (List.filter (Spec.has_result "loss") cs)) /\
    duration st = Spec.total_duration cs /\
    (forall g, in_progress g = true ->
       Spec.counted o ids g = None /\
       Spec.is_pending o ids now g
       = bool_decide (is_Some (participant o ids g))
         && (now - 3 * 3600 * 1000 <? World.started_at g)) /\
    (forall c m g,
       Spec.is_pending (Spec.with_filters c m o) ids now g = Spec.is_pending o ids now g).
Proof.
  intros o ids gs ps cs Hdrain.
  destruct (getPlayerWinRate_returns _ _ _ _ _ now _ _ Hdrain) as [tr' Hret].
  exists tr', (winRateOf (yielded tr) player options now). split; [done|].
  pose proof (winRateOf_spec (yielded tr) player options now)
    as (Hg & Hw & Hl & Hd & Hn & Hp & _).
  repeat split; try done.
  - unfold Spec.counted. rewrite H. by destruct (participant o ids g).
  - unfold Spec.is_pending. rewrite H. by destruct (participant o ids g).
Qed.

(** C10. In the statistics [getPlayerWinRate] returns, wins and losses
    together are at most [games_count]; a game that is counted while the
    result of the subject is neither "win" nor "loss" has a recorded
    duration [d], which is not 0, and adds one to [games_count] and [d] to
    [duration], and leaves [wins_count] and [losses_count] as they are. *)
Theorem getPlayerWinRate_counts server fuel player options now0 now tr st :
  getPlayerWinRate server fuel player options now0 now = (tr, Done st) ->
  wins_count st + losses_count st <= games_count st /\
  forall o ids l g p,
    Spec.counted o ids g = Some (g, p) ->
    Spec.has_result "win" (g, p) = false ->
    Spec.has_result "loss" (g, p) = false ->
    let l' := account o ids now l g in
    exists d,
      World.duration g = Some d /\ d <> 0 /\
      games_count (stats l') = games_count (stats l) + 1 /\
      duration (stats l') = duration (stats l) + d /\
      wins_count (stats l') = wins_count (stats l) /\
      losses_count (stats l') = losses_count (stats l).
Proof.
  intros Hret. apply getPlayerWinRate_returned in Hret as ->. split.
  - pose proof (winRateOf_spec (yielded tr) player options now)
      as (-> & -> & -> & _).
    pose proof (results_le_length
                  (omap (Spec.counted (or_default options) (playerProfileIds player))
                     (Spec.consumed (or_default options) now 0 (yielded tr)))).
    lia.
  - intros o ids l g p Hc Hw Hl l'.
    pose proof (account_step o ids now l g) as (_ & _ & Hs). rewrite Hc in Hs.
    assert (stats l' = count_game (stats l) g p) as ->.
    { rewrite <- Hs. unfold l', account, set_lastgame. by repeat case_match. }
    destruct (count_game_counters (stats l) g p) as (-> & -> & -> & -> & _).
    rewrite Hw, Hl.
    assert (exists d, World.duration g = Some d /\ d <> 0) as (d & Hd & Hnz).
    { unfold Spec.counted in Hc. destruct (participant o ids g); [|discriminate].
      unfold in_progress in Hc. destruct (World.duration g) as [d|]; [|discriminate].
      destruct (Z.eqb_spec d 0); [discriminate | eauto]. }
    exists d. unfold duration_or_0. rewrite Hd. repeat split; try done; lia.
Qed.

(** C3, on the evening of profile 3: games at [T], [T - 1h], [T - 6h]. *)
Lemma getPlayerWinRate_session_witness :
  exists tr' st,
    getPlayerWinRate Sample.evening_server 5 (Single (Some 3)) None Sample.T Sample.T
    = (tr', Done st) /\
    games_count st = 2.
Proof.
  destruct (getPlayerWinRate_session Sample.evening_server 5 (Single (Some 3)) None
              Sample.T Sample.T (Sample.evening_trace 3 default_options) Js.Undefined)
    as (tr' & st & H1 & _ & H3 & _).
  - reflexivity.
  - vm_compute. repeat (constructor; [discriminate|]). constructor.
  - vm_compute. reflexivity.
  - exists tr', st. split; [exact H1|]. rewrite H3. vm_compute. reflexivity.
Defined.

(** A team game keeps the session going although it is not counted: the
    1v1 games of profile 8 are six hours apart, with a team game halfway. *)
Example team_game_keeps_the_session :
  let st := Sample.returned (Sample.evening_of 8 None) in
  games_count st = 2 /\ first_game_at st = Some (Sample.T - 6 * Sample.hour).
Proof. vm_compute. split; reflexivity. Qed.


(** C5, on profile 7: one win and two losses. *)
Lemma getPlayerWinRate_win_rate_witness :
  wins_count (Sample.returned (Sample.evening_of 7 None)) = 1 /\
  losses_count (Sample.returned (Sample.evening_of 7 None)) = 2 /\
  (win_rate (Sample.returned (Sample.evening_of 7 None)) == 333 # 10)%Q.
Proof.
  destruct (getPlayerWinRate_win_rate Sample.evening_server 5 (Single (Some 7)) None
              Sample.T Sample.T (fst (Sample.evening_of 7 None))
              (Sample.returned (Sample.evening_of 7 None)))
    as (_ & _ & _ & H).
  - vm_compute. reflexivity.
  - split; [reflexivity|]. split; [reflexivity|]. apply H; reflexivity.
Defined.

(** C6, on profile 5: games in progress started one, two and five hours
    ago, before a finished game. *)
Lemma getPlayerWinRate_pending_witness :
  exists tr' st,
    getPlayerWinRate Sample.evening_server 5 (Single (Some 5)) None Sample.T Sample.T
    = (tr', Done st) /\
    pending_games st = Some 2 /\
    pending_game_started_at st = Some (Sample.T - Sample.hour) /\
    games_count st = 1.
Proof.
  destruct (getPlayerWinRate_pending Sample.evening_server 5 (Single (Some 5)) None
              Sample.T Sample.T (Sample.evening_trace 5 default_options) Js.Undefined)
    as (tr' & st & H1 & H2 & H3 & H4 & _).
  - vm_compute. reflexivity.
  - exists tr', st. split; [exact H1|]. rewrite H2, H3, H4. vm_compute.
    repeat split; reflexivity.
Defined.

(** C10, on profile 6: a game of 600 seconds without a recorded result, and
    a win. *)
Lemma getPlayerWinRate_counts_witness :
  games_count (Sample.returned (Sample.evening_of 6 None)) = 2 /\
  wins_count (Sample.returned (Sample.evening_of 6 None))
  + losses_count (Sample.returned (Sample.evening_of 6 None))
  <= games_count (Sample.returned (Sample.evening_of 6 None)) /\
  let l' := account default_options [Some 6] Sample.T initial
              (Sample.undetermined Sample.T 6 7 600) in
  games_count (stats l') = 1 /\ duration (stats l') = 600 /\
  wins_count (stats l') = 0 /\ losses_count (stats l') = 0.
Proof.
  destruct (getPlayerWinRate_counts Sample.evening_server 5 (Single (Some 6)) None
              Sample.T Sample.T (fst (Sample.evening_of 6 None))
              (Sample.returned (Sample.evening_of 6 None)))
    as (H & Hstep).
  - vm_compute. reflexivity.
  - split; [reflexivity|]. split; [exact H|].
    destruct (Hstep default_options [Some 6] initial
                (Sample.undetermined Sample.T 6 7 600)
                (World.player (Sample.entry 6 "english" None)))
      as (d & Hd & _ & Hg & Hdur & Hw & Hl).
    + reflexivity.
    + reflexivity.
    + reflexivity.
    + injection Hd as <-. cbv zeta. rewrite Hg, Hdur, Hw, Hl. repeat split.
Defined.


End HandlersFacts.

(** * Further properties *)

(** ** What the enumerator asks the server *)

Module RequestFacts.

Import Api ApiFacts.

Section Server.

Variable server : Request -> option GamesJson.
Variable opp : Js.Value.
Variable since : option Z.

Lemma fetch_all_requests ids tr r :
  dated since = true ->
  fetch_all server opp since ids = (tr, r) ->
  fetches tr = (fun p => request p opp since 1) <$> ids.
Proof.
  intros Hd.
  revert tr r. induction ids as [|p rest IH]; intros tr r H; cbn [fetch_all] in H.
  - by injection H as <- <-.
  - apply bind_inv in H as [[H ->] | (tr1 & o & tr2 & H1 & H2 & ->)].
    { apply fetchPlayerGames_inv in H as (? & _ & _ & [=]). done. }
    apply fetchPlayerGames_inv in H1 as (req & -> & -> & _); [|done].
    apply bind_inv in H2 as [[H2 ->] | (tr3 & ss & tr4 & H2 & H3 & ->)].
    { apply fetch_all_inv in H2 as (_ & ? & [=] & _). done. }
    injection H3 as <- <-. rewrite !fetches_app, app_nil_r, (IH _ _ H2). done.
Qed.

Lemma fetch_all_asks ids tr r :
  fetch_all server opp since ids = (tr, r) ->
  Forall (Inv.asks_for ids opp since) (fetches tr).
Proof.
  intros H. destruct (dated since) eqn:Hd.
  - rewrite (fetch_all_requests _ _ _ Hd H).
    apply Forall_fmap, Forall_forall. intros p Hp. by exists p, 1.
  - destruct ids as [|p rest]; [injection H as <- _; constructor|].
    rewrite fetch_all_undated in H by done. injection H as <- _. constructor.
Qed.

Lemma fetch_all_profiles ids tr states s :
  fetch_all server opp since ids = (tr, Some states) ->
  Some s ∈ states -> profile_id s ∈ ids.
Proof.
  intros H Hs. apply fetch_all_inv_Some in H as (_ & Hall).
  apply list_elem_of_lookup in Hs as [i Hi].
  destruct (Forall2_lookup_r _ _ _ _ _ Hall Hi) as (p & Hp & tr1 & H1).
  apply fetchPlayerGames_inv_Some in H1 as (req & _ & _ & [= Heq]).
  destruct (server req); [|discriminate]. injection Heq as ->. cbn.
  by eapply list_elem_of_lookup_2.
Qed.

Lemma refetch_profile s0 tr s :
  refetch server opp since s0 = (tr, Some (Some s)) ->
  profile_id s = profile_id s0.
Proof.
  intros H. apply refetch_inv in H as [(_ & _ & [= ->]) | [_ H]]; [done|].
  apply fetchPlayerGames_inv_Some in H as (req & _ & _ & [= Heq]).
  destruct (server req); [|discriminate]. by injection Heq as ->.
Qed.

Lemma loop_requests ids states tr r :
  (forall s, Some s ∈ states -> profile_id s ∈ ids) ->
  loop server opp since states = (tr, r) ->
  Forall (Inv.asks_for ids opp since) (fetches tr) /\
  forall g k, r = Some (Yields g k) -> Inv.belongs ids opp since k.
Proof.
  intros Hown H. unfold loop in H.
  assert (exists r', round server opp since states = (tr, r') /\
            forall g k, r = Some (Yields g k) ->
              exists states', r' = Some (Some (g, states')) /\
                k = Suspended opp since states') as (r' & Hround & Hk).
  { apply bind_inv in H as [[H ->] | (tr1 & a & tr2 & H1 & H2 & ->)].
    - exists None. split; [done | discriminate].
    - destruct a as [[g' states']|]; injection H2 as <- <-; rewrite app_nil_r;
        eexists; (split; [done|]); intros g k [= <- <-]; eauto. }
  split.
  - apply round_trace in Hround as [r'' Hrefill].
    apply Forall_forall. intros req Hin.
    unfold fetches in Hin.
    apply list_elem_of_omap in Hin as ([req'|g] & Hin & [= <-]).
    apply list_elem_of_In in Hin.
    destruct (refill_request _ _ _ _ _ _ _ Hrefill Hin) as (i & s & Hi & _ & ->).
    exists (profile_id s), (page s + 1). split; [|done].
    apply Hown. by eapply list_elem_of_lookup_2.
  - intros g k Hr. destruct (Hk g k Hr) as (states' & -> & ->).
    apply round_yield in Hround as (states1 & i & s & H1 & Hi & _ & -> & _).
    apply refill_Some in H1.
    assert (forall s1, Some s1 ∈ states1 -> profile_id s1 ∈ ids) as Hown1.
    { intros s1 [j Hj]%list_elem_of_lookup.
      destruct (Forall2_lookup_r _ _ _ _ _ H1 Hj) as (o0 & Ho0 & s0 & tr1 & -> & Hre).
      rewrite (refetch_profile _ _ _ Hre). apply Hown.
      by eapply list_elem_of_lookup_2. }
    split; [done|]. split; [done|].
    intros s' [j Hj]%list_elem_of_lookup.
    destruct (decide (i = j)) as [<-|Hne].
    + rewrite list_lookup_insert_eq in Hj by (by eapply lookup_lt_Some).
      injection Hj as <-. cbn. apply Hown1. by eapply list_elem_of_lookup_2.
    + rewrite list_lookup_insert_ne in Hj by done.
      apply Hown1. by eapply list_elem_of_lookup_2.
Qed.

Lemma next_requests ids gen tr r :
  Inv.belongs ids opp since gen ->
  next server gen = (tr, r) ->
  Forall (Inv.asks_for ids opp since) (fetches tr) /\
  forall g k, r = Some (Yields g k) -> Inv.belongs ids opp since k.
Proof.
  destruct gen as [profileIds opp' since' | opp' since' states]; cbn [next Inv.belongs].
  - intros (<- & -> & ->) H.
    destruct (negb _); [injection H as <- <-; split; [constructor | discriminate]|].
    destruct (_ && _); [injection H as <- <-; split; [constructor | discriminate]|].
    apply bind_inv in H as [[H ->] | (tr1 & states & tr2 & H1 & H2 & ->)].
    + split; [by eapply fetch_all_asks | discriminate].
    + destruct (loop_requests (as_array profileIds) states tr2 r) as [Hf Hk]; [|done|].
      { intros s. by eapply fetch_all_profiles. }
      split; [|done]. rewrite fetches_app.
      apply Forall_app. split; [by eapply fetch_all_asks | done].
  - intros (-> & -> & Hown) H. by eapply loop_requests.
Qed.

End Server.

Lemma drain_requests server opp since ids fuel : forall gen,
  Inv.belongs ids opp since gen ->
  Forall (Inv.asks_for ids opp since) (fetches (fst (drain server fuel gen))).
Proof.
  induction fuel as [|fuel IH]; intros gen Hgen; cbn [drain]; [constructor|].
  destruct (next server gen) as [tr r] eqn:Hnext.
  destruct (next_requests _ _ _ _ _ _ _ Hgen Hnext) as [Hf Hk].
  destruct r as [[g k|v]|]; cbn [fst]; try done.
  specialize (IH k (Hk g k eq_refl)).
  destruct (drain server fuel k) as [tr' o]. cbn [fst] in *.
  rewrite fetches_app. apply Forall_app. done.
Qed.

(** A loop over the generator sees a beginning of what the generator does
    when it is drained: it makes the same requests in the same order, and
    none after it has stopped. *)
Lemma for_await_prefix {A} server (body : A -> Game -> A + A) fuel :
  forall gen acc,
  fst (for_await server fuel gen body acc) `prefix_of` fst (drain server fuel gen).
Proof.
  induction fuel as [|fuel IH]; intros gen acc; cbn [for_await drain]; [done|].
  destruct (next server gen) as [tr [[g k|v]|]]; cbn [fst]; try done.
  specialize (IH k).
  destruct (body acc g) as [acc'|acc'].
  - destruct (drain server fuel k) as [tr2 o2]. cbn [fst].
    apply prefix_app. by exists tr2.
  - specialize (IH acc').
    destruct (for_await server fuel k body acc') as [tr1 o1].
    destruct (drain server fuel k) as [tr2 o2]. cbn [fst] in *.
    apply prefix_app, prefix_cons. done.
Qed.

Lemma fetches_prefix tr1 tr2 :
  tr1 `prefix_of` tr2 -> fetches tr1 `prefix_of` fetches tr2.
Proof. intros [tr ->]. rewrite fetches_app. by eexists. Qed.

(** X1. Whatever the server answers and however the run ends, every request
    of [enumPlayerGames(profileIds, opp, since)] asks for a page of one of
    the given profiles, with the opponent and since filters of the call. *)
Theorem enumPlayerGames_requests_in_scope server fuel profileIds opp since :
  Forall (Inv.asks_for (as_array profileIds) opp since)
    (fetches (fst (enumPlayerGames server fuel profileIds opp since))).
Proof. apply drain_requests. done. Qed.

End RequestFacts.

(** ** How many pages are asked for *)

Module PagingFacts.

Import Api ApiFacts MergeFacts.

Lemma sum_list_with_insert {A} (f : A -> nat) (l : list A) i x y :
  l !! i = Some x -> f y = f x ->
  sum_list_with f (<[i := y]> l) = sum_list_with f l.
Proof.
  revert i. induction l as [|a l IH]; intros [|i] Hi Hf; simpl in *; try done.
  - injection Hi as ->. lia.
  - by rewrite (IH i).
Qed.

Section Paged.

Variable per_page : nat.
Variable history : Z -> list Game.
Variable opp : Js.Value.
Variable since : option Z.
Hypothesis per_page_pos : (0 < per_page)%nat.

Abbreviation server := (Upstream.paged_server per_page history).
Abbreviation paged := (Spec.paged per_page history).
Abbreviation ready := (Spec.ready per_page history).
Abbreviation left := (Inv.pages_left per_page history).
Abbreviation within := (Inv.within_pages per_page history).

Ltac fields :=
  unfold Upstream.page_of;
  cbn [profile_id opponent_profile_id page offset total_count games index advance
       json_page json_offset json_total_count json_games].

Lemma pages_more n k :
  (k * per_page + per_page < n)%nat -> (k + 2 <= Inv.pages per_page n)%nat.
Proof.
  intros Hlt. unfold Inv.pages.
  assert (k + 2 <= (n + per_page - 1) / per_page)%nat; [|lia].
  apply Nat.div_le_lower_bound; [lia|]. nia.
Qed.

Lemma pages_last n k :
  (n <= k * per_page + per_page)%nat -> (Inv.pages per_page n <= k + 1)%nat.
Proof.
  intros Hle. unfold Inv.pages.
  assert ((n + per_page - 1) / per_page < k + 2)%nat; [|lia].
  apply Nat.Div0.div_lt_upper_bound. nia.
Qed.

(** The refill step of one state asks for one page if the state moves to
    its next page, and for none otherwise. *)
Lemma refetch_pages s tr o :
  Spec.on_page per_page history s -> within (Some s) ->
  refetch server opp since s = (tr, Some o) ->
  (length (fetches tr) + left o = left (Some s))%nat /\ within o.
Proof.
  intros Hs Hw H. pose proof Hs as (id & k & Hid & Hpg & Hoff & Htot & Hg & Hidx).
  apply refetch_inv in H as [(_ & -> & [= ->]) | [Hn H]]; [done|].
  apply needs_page_true in Hn as [Hlen Hmore].
  assert (k * per_page + per_page < length (history id))%nat as Hlt.
  { rewrite Hg, length_take, length_drop in Hlen, Hidx. lia. }
  pose proof (pages_more _ _ Hlt) as Hpages.
  apply fetchPlayerGames_inv_Some in H as (req & -> & -> & [= ->]).
  unfold Upstream.paged_server. cbn [request req_profile req_page]. rewrite Hid.
  split.
  - unfold Inv.pages_left. fields. rewrite Hid. cbn [fetches omap list_omap length]. lia.
  - intros s' id' [= <-]. fields. rewrite Hid. intros [= <-]. lia.
Qed.

Lemma refill_pages states : forall tr states1,
  Forall paged states -> Forall within states ->
  refill server opp since states = (tr, Some states1) ->
  (length (fetches tr) + sum_list_with left states1 = sum_list_with left states)%nat /\
  Forall within states1.
Proof.
  induction states as [|o states IH]; intros tr states1 Hp Hw H.
  - injection H as <- <-. done.
  - apply Forall_cons in Hp as [(s & -> & Hs) Hp]. apply Forall_cons in Hw as [Hw0 Hw].
    cbn [refill] in H.
    apply bind_inv_Some in H as (tr1 & o' & tr2 & H1 & H2 & ->).
    apply bind_inv_Some in H2 as (tr3 & rest' & tr4 & H2 & H3 & ->).
    injection H3 as <- <-. rewrite app_nil_r.
    destruct (refetch_pages s tr1 o' Hs Hw0 H1) as [Hc1 Hw1].
    destruct (IH tr3 rest' Hp Hw H2) as [Hc2 Hw2].
    split; [|by constructor].
    rewrite fetches_app, length_app. cbn [sum_list_with]. lia.
Qed.

(** A state with no game left is on the last page of its profile. *)
Lemma ready_done o :
  ready o -> within o -> Spec.remaining history o = [] -> left o = 0%nat.
Proof.
  intros (s & -> & Hs & _) Hw Hrem.
  destruct Hs as (id & k & Hid & Hpg & Hoff & Htot & Hg & Hidx).
  unfold Spec.remaining in Hrem. unfold Inv.pages_left. rewrite Hid in *.
  rewrite Hoff, Nat2Z.id in Hrem. apply drop_nil_inv in Hrem.
  rewrite Hg, length_take, length_drop in Hidx.
  pose proof (pages_last (length (history id)) k ltac:(lia)). lia.
Qed.

Lemma drain_pages fuel : forall states tr v,
  dated since = true ->
  Forall paged states -> Forall within states ->
  drain server fuel (Suspended opp since states) = (tr, Done v) ->
  length (fetches tr) = sum_list_with left states.
Proof.
  induction fuel as [|fuel IH]; intros states tr v Hd Hp Hw H; [discriminate|].
  cbn [drain next] in H. unfold loop in H.
  destruct (round server opp since states) as [tr1 r1] eqn:Hround.
  unfold bind in H. destruct r1 as [[[g states']|]|]; cbn [ret] in H;
    [| |discriminate].
  - rewrite app_nil_r in H.
    destruct (drain server fuel (Suspended opp since states')) as [tr2 o2] eqn:Hrest.
    injection H as <- ->.
    apply round_yield in Hround as (states1 & i & s & H1 & Hi & Hg & -> & _).
    destruct (refill_pages _ _ _ Hp Hw H1) as [Hc Hw1].
    destruct (refill_paged per_page history opp since per_page_pos Hd states Hp)
      as (tr' & states1' & H1' & _ & Hready & _).
    rewrite H1 in H1'. injection H1' as <- <-.
    destruct (Forall_lookup_1 _ _ _ _ Hready Hi) as (s0 & [= <-] & Hs & _).
    destruct (advance_on_page per_page history per_page_pos s g Hs Hg) as [Hadv _].
    rewrite fetches_app, length_app. cbn [fetches omap list_omap].
    fold (fetches tr2).
    rewrite (IH (<[i := Some (advance s)]> states1) tr2 v).
    + rewrite (sum_list_with_insert left states1 i (Some s)); [lia | done | done].
    + done.
    + apply Forall_insert; [|by eexists].
      eapply Forall_impl; [exact Hready|]. intros o (s' & -> & ? & _). by eexists.
    + apply Forall_insert; [done|].
      intros s' id [= <-]. fields. by apply (Forall_lookup_1 _ _ _ _ Hw1 Hi).
    + done.
  - rewrite app_nil_r in H. injection H as <- _.
    apply round_break in Hround as (states1 & H1 & Hnone).
    destruct (refill_pages _ _ _ Hp Hw H1) as [Hc Hw1].
    destruct (refill_paged per_page history opp since per_page_pos Hd states Hp)
      as (tr' & states1' & H1' & _ & Hready & _).
    rewrite H1 in H1'. injection H1' as <- <-.
    assert (sum_list_with left states1 = 0%nat) as Hzero; [|lia].
    clear -Hready Hw1 Hnone per_page_pos.
    assert (forall j o, states1 !! j = Some o -> left o = 0%nat) as Hall.
    { intros j o Hj. apply ready_done.
      - by eapply Forall_lookup_1.
      - by eapply Forall_lookup_1.
      - destruct (Forall_lookup_1 _ _ _ _ Hready Hj) as (s & -> & _ & Hcur).
        rewrite (Hnone j s Hj) in Hcur.
        by destruct (Spec.remaining history (Some s)). }
    clear -Hall. induction states1 as [|o rest IH]; [done|]. cbn [sum_list_with].
    rewrite (Hall 0%nat o eq_refl), IH; [done|].
    intros j o' Hj. by apply (Hall (S j)).
Qed.


End Paged.


End PagingFacts.

(** ** More on the aggregation *)

Module AggregateFacts.

Import Api ApiFacts Handlers HandlersFacts RequestFacts.

Lemma getPlayerWinRate_trace server fuel player options now0 now :
  fst (getPlayerWinRate server fuel player options now0 now)
  = fst (for_await server fuel (gamesEnumerator player (or_default options) now0)
           (body (or_default options) (playerProfileIds player) now) initial).
Proof. unfold getPlayerWinRate. by destruct (for_await _ _ _ _ _). Qed.


(** X3. Without a timespan, no request of [getPlayerWinRate] carries an
    opponent or a since filter, also when an opponent is given: the session
    is cut out of all the games of the subject. *)
Theorem getPlayerWinRate_session_requests_unfiltered
    server fuel player options now0 now :
  Js.given (timespan (or_default options)) = None ->
  Forall (fun req => req_opponent req = None /\ req_since req = None)
    (fetches (fst (getPlayerWinRate server fuel player options now0 now))).
Proof.
  intros Hspan.
  assert (fst (getPlayerWinRate server fuel player options now0 now)
          `prefix_of`
          fst (drain server fuel (gamesEnumerator player (or_default options) now0)))
    as Hpre by (rewrite getPlayerWinRate_trace; apply for_await_prefix).
  apply fetches_prefix in Hpre as [rest Hrest].
  pose proof (drain_requests server Js.Null None
                (List.map js_of_id (playerProfileIds player)) fuel
                (gamesEnumerator player (or_default options) now0)) as Hreq.
  unfold gamesEnumerator in Hreq, Hrest. rewrite Hspan in Hreq, Hrest.
  cbn [Js.given] in Hreq, Hrest. specialize (Hreq ltac:(done)).
  rewrite Hrest in Hreq. apply Forall_app in Hreq as [Hreq _].
  eapply Forall_impl; [exact Hreq|]. intros req (p & pg & _ & ->). done.
Qed.

Lemma js_of_id_valid id :
  Js.truthy (js_of_id id) = false \/ Js.Number_isInteger (js_of_id id) = true.
Proof. destruct id; [right; apply MergeFacts.isInteger_int | by left]. Qed.

Lemma gamesEnumerator_opponent_valid player o now0 ids opp since :
  gamesEnumerator player o now0 = Start ids opp since ->
  Js.truthy opp = false \/ Js.Number_isInteger opp = true.
Proof.
  unfold gamesEnumerator. intros [= _ <- _].
  destruct (Js.given _); [|by left].
  destruct (opponent o); [apply js_of_id_valid | by left].
Qed.

(** X4. A subject without any profile, or with a player object that has no
    [profile_id] (the stub of rank 0), gets the statistics of no game: all
    counters 0, a win rate of 100, no pending game, and no request is sent. *)
Theorem getPlayerWinRate_no_profile server fuel player options now0 now :
  playerProfileIds player = [] \/ None ∈ playerProfileIds player ->
  getPlayerWinRate server (S fuel) player options now0 now
  = ([], Done (finish initial)) /\
  games_count (finish initial) = 0 /\
  win_rate (finish initial) = 100%Q /\
  pending_games (finish initial) = Some 0.
Proof.
  intros Hids. split; [|done].
  unfold getPlayerWinRate, gamesEnumerator. cbn [for_await next as_array].
  destruct Hids as [-> | Hnone].
  - cbn [List.map List.filter length Nat.eqb negb].
    destruct (Js.truthy _ && negb _); done.
  - assert (negb (length (List.filter (fun p => negb (Js.Number_isInteger p))
                            (List.map js_of_id (playerProfileIds player))) =? 0)%nat
            = true) as ->; [|done].
    apply negb_true_iff, Nat.eqb_neq. intros Hlen.
    apply length_zero_iff_nil in Hlen.
    assert (In Js.Undefined
              (List.filter (fun p => negb (Js.Number_isInteger p))
                 (List.map js_of_id (playerProfileIds player)))) as Hin.
    { apply filter_In. split; [|done].
      apply in_map_iff. exists None. split; [done | by apply list_elem_of_In]. }
    rewrite Hlen in Hin. destruct Hin.
Qed.

(** X5. When the server has no answer to the first request of one of the
    subject's profiles, [getPlayerWinRate] does not return statistics: the
    error of the enumerator goes through it. *)
Theorem getPlayerWinRate_failed_fetch_rejects
    server fuel player options now0 now id :
  Forall is_Some (playerProfileIds player) ->
  Some id ∈ playerProfileIds player ->
  (forall req, req_profile req = Js.int id -> server req = None) ->
  exists tr,
    getPlayerWinRate server (S fuel) player options now0 now = (tr, Thrown).
Proof.
  intros Hall Hid Hdown. unfold getPlayerWinRate.
  destruct (gamesEnumerator player (or_default options) now0)
    as [pids opp since | ? ? ?] eqn:Hgen; [|discriminate].
  pose proof (gamesEnumerator_opponent_valid _ _ _ _ _ _ Hgen) as Hopp.
  unfold gamesEnumerator in Hgen. injection Hgen as <- _ _.
  destruct (enumPlayerGames_failed_fetch_throws server opp since 0
              (List.map js_of_id (playerProfileIds player)) (Js.int id))
    as (tr & Hthrow & _).
  - apply Forall_forall. intros v Hv. apply list_elem_of_In, in_map_iff in Hv as (x & <- & Hx).
    apply list_elem_of_In in Hx.
    destruct (proj1 (Forall_forall _ _) Hall x Hx) as [z ->].
    apply MergeFacts.isInteger_int.
  - done.
  - apply in_map_iff. exists (Some id). split; [done | by apply list_elem_of_In].
  - by apply Hdown.
  - exists tr. unfold enumPlayerGames in Hthrow. cbn [drain] in Hthrow.
    cbn [for_await].
    destruct (next server _) as [tr1 [[g k|v]|]]; [| |by injection Hthrow as ->].
    + by destruct (drain server 0 k).
    + discriminate.
Qed.

(** X6. The win rate returned is a percentage: it lies between 0 and 100. *)
Theorem getPlayerWinRate_win_rate_percent
    server fuel player options now0 now tr st :
  getPlayerWinRate server fuel player options now0 now = (tr, Done st) ->
  (0 <= win_rate st <= 100)%Q.
Proof.
  intros Hret. apply getPlayerWinRate_returned in Hret as ->.
  pose proof (winRateOf_spec (yielded tr) player options now)
    as (_ & Hw & Hl & _ & _ & _ & ->).
  set (W := wins_count _) in *. set (L := losses_count _) in *.
  assert (0 <= W) by lia. assert (0 <= L) by lia. clearbody W L.
  destruct (L =? 0) eqn:E; [done|]. apply Z.eqb_neq in E.
  rewrite Math_round_ratio by lia.
  assert (0 <= (2 * (1000 * W) + (W + L)) / (2 * (W + L)) <= 1000) as [Hlo Hhi].
  { split; [apply Z.div_pos; lia|].
    apply Z.lt_succ_r, Z.div_lt_upper_bound; lia. }
  unfold Qle, Qdiv, Qmult, Qinv, inject_Z. cbn. lia.
Qed.

(** *** Who is looked up in a game *)

Lemma head_filter_Some {A} (f : A -> bool) (l : list A) x :
  head (List.filter f l) = Some x -> x ∈ l /\ f x = true.
Proof.
  intros H. assert (In x (List.filter f l)) as Hin.
  { destruct (List.filter f l); [discriminate|]. injection H as ->. by left. }
  apply filter_In in Hin as [Hin Hf]. by rewrite list_elem_of_In.
Qed.

Lemma head_filter_None {A} (f : A -> bool) (l : list A) x :
  head (List.filter f l) = None -> x ∈ l -> f x = false.
Proof.
  intros H Hx. destruct (f x) eqn:Hf; [|done].
  assert (In x (List.filter f l)) as Hin
    by (apply filter_In; by rewrite <- list_elem_of_In).
  destruct (List.filter f l); [destruct Hin | discriminate].
Qed.

Lemma teamPlayer_Some ids team p :
  teamPlayer ids team = Some p ->
  exists e, e ∈ team /\ World.player e = p /\ includes ids (World.profile_id p) = true.
Proof.
  unfold teamPlayer. destruct (head _) as [e|] eqn:He; [|discriminate].
  intros [= <-]. apply head_filter_Some in He as [? ?]. eauto.
Qed.

Lemma teamPlayer_None ids team e :
  teamPlayer ids team = None -> e ∈ team ->
  includes ids (World.profile_id (World.player e)) = false.
Proof.
  unfold teamPlayer. destruct (head _) eqn:He; [discriminate|]. intros _ Hin.
  by eapply (head_filter_None _ _ e He).
Qed.

Lemma teamOpponent_Some oid team q :
  teamOpponent (Some oid) team = Some q ->
  exists e, e ∈ team /\ World.player e = q /\ oid = Some (World.profile_id q).
Proof.
  unfold teamOpponent. destruct (head _) as [e|] eqn:He; [|discriminate].
  intros [= <-]. apply head_filter_Some in He as [Hin Hf].
  destruct oid as [z|]; [|discriminate]. apply Z.eqb_eq in Hf as <-. eauto.
Qed.

(** The two variables after the loop over the teams: each is as before the
    loop or comes from one of the teams. *)
Lemma scan_teams_from ids opp teams : forall st ps os,
  fold_left
    (fun st team =>
       match teamPlayer ids team with
       | Some p => (Some p, snd st)
       | None =>
           match teamOpponent opp team with
           | Some q => (fst st, Some q)
           | None => st
           end
       end) teams st = (ps, os) ->
  (ps = fst st \/
   exists team p, team ∈ teams /\ ps = Some p /\ teamPlayer ids team = Some p) /\
  (os = snd st \/
   exists team q, team ∈ teams /\ os = Some q /\
     teamPlayer ids team = None /\ teamOpponent opp team = Some q).
Proof.
  induction teams as [|team rest IH]; intros st ps os H; cbn [fold_left] in H.
  - subst st. by split; left.
  - apply IH in H as [Hp Ho].
    destruct (teamPlayer ids team) as [p|] eqn:Htp; cbn [fst snd] in *.
    + split.
      * destruct Hp as [-> | (t & p' & Ht & -> & Hp')];
          right; [exists team, p | exists t, p']; repeat split; try done;
          [left | by right].
      * destruct Ho as [-> | (t & q & Ht & -> & Htn & Hto)]; [by left|].
        right. exists t, q. repeat split; try done. by right.
    + destruct (teamOpponent opp team) as [q|] eqn:Hto; cbn [fst snd] in *.
      * split.
        -- destruct Hp as [-> | (t & p' & Ht & -> & Hp')]; [by left|].
           right. exists t, p'. repeat split; try done. by right.
        -- destruct Ho as [-> | (t & q' & Ht & -> & Htn & Hto')];
             right; [exists team, q | exists t, q']; repeat split; try done;
             [left | by right].
      * split.
        -- destruct Hp as [-> | (t & p' & Ht & -> & Hp')]; [by left|].
           right. exists t, p'. repeat split; try done. by right.
        -- destruct Ho as [-> | (t & q' & Ht & -> & Htn & Hto')]; [by left|].
           right. exists t, q'. repeat split; try done. by right.
Qed.

(** X7. The entry whose result and civilization [getPlayerWinRate] reads
    in a game is an entry of that game and belongs to one of the subject's
    profiles; and unless team games are included, a game with more than two
    participants is skipped. *)
Theorem participant_is_subject o ids g p :
  participant o ids g = Some p ->
  (exists team e,
     team ∈ World.teams g /\ e ∈ team /\ World.player e = p /\
     includes ids (World.profile_id p) = true) /\
  (includeTeamGames o = false -> (length (concat (World.teams g)) <= 2)%nat).
Proof.
  unfold participant.
  destruct ((2 <? length (concat (World.teams g)))%nat && negb (includeTeamGames o))
    eqn:Hsize; [discriminate|].
  destruct (scan_teams ids (opponent o) (World.teams g)) as [ps os] eqn:Hscan.
  apply scan_teams_from in Hscan as [Hp _].
  destruct ps as [p'|]; [|discriminate]. intros Hret.
  assert (p' = p) as -> by (destruct (opponent o), os; by simplify_eq).
  split.
  - destruct Hp as [? | (team & p' & Ht & [= <-] & Htp)]; [discriminate|].
    apply teamPlayer_Some in Htp as (e & ? & ? & ?). eauto 10.
  - intros Hno. rewrite Hno in Hsize. cbn [negb] in Hsize.
    rewrite andb_true_r in Hsize. by apply Nat.ltb_ge in Hsize.
Qed.

(** X8. When an opponent is asked for, a game is only retained if the
    opponent has a [profile_id] and is found in a team in which none of the
    subject's profiles plays: games with the opponent as a team mate, and
    all games when the opponent is the stub without [profile_id], are
    skipped. *)
Theorem participant_faces_opponent o ids g p oid :
  opponent o = Some oid ->
  participant o ids g = Some p ->
  exists z team e,
    oid = Some z /\ team ∈ World.teams g /\ e ∈ team /\
    World.profile_id (World.player e) = z /\
    forall e', e' ∈ team -> includes ids (World.profile_id (World.player e')) = false.
Proof.
  intros Hopp. unfold participant. rewrite Hopp.
  destruct (_ && _); [discriminate|].
  destruct (scan_teams ids (Some oid) (World.teams g)) as [ps os] eqn:Hscan.
  apply scan_teams_from in Hscan as [_ Ho].
  destruct ps as [p'|]; [|discriminate]. destruct os as [q|]; [|discriminate].
  intros _. destruct Ho as [? | (team & q' & Ht & [= <-] & Htn & Hto)]; [discriminate|].
  apply teamOpponent_Some in Hto as (e & He & <- & ->).
  exists (World.profile_id (World.player e)), team, e. repeat split; try done.
  intros e' He'. by eapply teamPlayer_None.
Qed.

(** *** The first and the last game *)

Section Loop.

Variable o : Options.
Variable ids : list (option Z).
Variable now : Z.

Lemma tally_boundaries gs : forall l,
  let l' := Spec.tally o ids now l gs in
  let cs := omap (Spec.counted o ids) gs in
  first_game_at (stats l')
  = match last cs with
    | Some gp => Some (World.started_at gp.1)
    | None => first_game_at (stats l)
    end /\
  last_game_at (stats l')
  = match last_game_at (stats l) with
    | Some t => Some t
    | None =>
        (fun gp => World.started_at gp.1 + duration_or_0 gp.1 * 1000) <$> head cs
    end.
Proof.
  induction gs as [|g rest IH]; intros l; cbn zeta.
  - cbn. by destruct (last_game_at (stats l)).
  - rewrite tally_cons.
    destruct (account_step o ids now l g) as (_ & _ & Hs).
    destruct (IH (account o ids now (set_lastgame (World.started_at g) l) g))
      as (IHf & IHl).
    rewrite IHf, IHl, Hs. clear. cbn [omap list_omap].
    destruct (Spec.counted o ids g) as [[g' p]|]; [|done].
    rewrite last_cons. cbn [count_game first_game_at last_game_at head fmap option_fmap option_map fst].
    split; [by destruct (last _)|].
    by destruct (last_game_at (stats l)).
Qed.

End Loop.

(** X9. In the statistics returned, [first_game_at] is the start of the
    last counted game the loop went through, the oldest one as the games come
    newest first, and [last_game_at] is the end (start plus duration) of the
    first counted game; both are left at their initial value when no game
    is counted. *)
Theorem getPlayerWinRate_boundaries server fuel player options now0 now tr st :
  getPlayerWinRate server fuel player options now0 now = (tr, Done st) ->
  let o := or_default options in
  let cs := omap (Spec.counted o (playerProfileIds player))
              (Spec.consumed o now 0 (yielded tr)) in
  first_game_at st = (fun gp => World.started_at gp.1) <$> last cs /\
  last_game_at st
  = (fun gp => World.started_at gp.1 + duration_or_0 gp.1 * 1000) <$> head cs.
Proof.
  intros Hret o cs. apply getPlayerWinRate_returned in Hret as ->.
  rewrite winRateOf_consumed. fold o.
  destruct (tally_boundaries o (playerProfileIds player) now
              (Spec.consumed o now 0 (yielded tr)) initial) as [Hf Hl].
  unfold finish. cbn [first_game_at last_game_at]. rewrite Hf, Hl. fold cs.
  cbn. by destruct (last cs).
Qed.

(** *** Sample runs *)

(** X3, on profile 3 against opponent 7. *)
Lemma getPlayerWinRate_session_requests_unfiltered_witness :
  Forall (fun req => req_opponent req = None /\ req_since req = None)
    (fetches (fst (getPlayerWinRate Sample.evening_server 5 (Single (Some 3))
                     (Some (Sample2.versus 7)) Sample.T Sample.T))).
Proof.
  apply (getPlayerWinRate_session_requests_unfiltered Sample.evening_server 5
           (Single (Some 3)) (Some (Sample2.versus 7)) Sample.T Sample.T).
  reflexivity.
Defined.

(** X4, for the stub player of rank 0. *)
Lemma getPlayerWinRate_no_profile_witness :
  getPlayerWinRate Sample.evening_server 1 (Single None) None Sample.T Sample.T
  = ([], Done (finish initial)).
Proof.
  apply (getPlayerWinRate_no_profile Sample.evening_server 0 (Single None) None
           Sample.T Sample.T).
  right. left.
Defined.

(** X5, with profile 2 out of order. *)
Lemma getPlayerWinRate_failed_fetch_rejects_witness :
  exists tr,
    getPlayerWinRate Sample2.down2 1 (Several [Some 1; Some 2]) None Sample.T Sample.T
    = (tr, Thrown).
Proof.
  apply (getPlayerWinRate_failed_fetch_rejects Sample2.down2 0
           (Several [Some 1; Some 2]) None Sample.T Sample.T 2).
  - repeat constructor; by eexists.
  - right. left.
  - intros req Hreq. unfold Sample2.down2, Upstream.outage. rewrite Hreq.
    reflexivity.
Defined.

(** X6, on profile 7: one win and two losses. *)
Lemma getPlayerWinRate_win_rate_percent_witness :
  (0 <= win_rate (Sample.returned (Sample.evening_of 7 None)) <= 100)%Q.
Proof.
  apply (getPlayerWinRate_win_rate_percent Sample.evening_server 5 (Single (Some 7))
           None Sample.T Sample.T (fst (Sample.evening_of 7 None))).
  vm_compute. reflexivity.
Defined.

(** X7, on a team game of profile 8 when team games are included. *)
Lemma participant_is_subject_witness :
  exists team e,
    team ∈ World.teams (Sample.game2v2 Sample.T 8 2 3 4 1200) /\ e ∈ team /\
    World.player e = World.player (Sample.entry 8 "english" (Some "win"%string)) /\
    includes [Some 8]
      (World.profile_id (World.player (Sample.entry 8 "english" (Some "win"%string))))
    = true.
Proof.
  apply (participant_is_subject
           {| opponent := None; map := None; civ := None; idletime := 4 * 3600;
              timespan := None; includeTeamGames := true |}
           [Some 8] (Sample.game2v2 Sample.T 8 2 3 4 1200)).
  reflexivity.
Defined.

(** X8, on a game of profile 3 against profile 7. *)
Lemma participant_faces_opponent_witness :
  exists z team e,
    Some 7 = Some z /\ team ∈ World.teams (Sample.game1v1 Sample.T 3 7 "win" 900) /\
    e ∈ team /\ World.profile_id (World.player e) = z /\
    forall e', e' ∈ team ->
      includes [Some 3] (World.profile_id (World.player e')) = false.
Proof.
  apply (participant_faces_opponent (Sample2.versus 7) [Some 3]
           (Sample.game1v1 Sample.T 3 7 "win" 900)
           (World.player (Sample.entry 3 "english" (Some "win"%string))) (Some 7)).
  - reflexivity.
  - reflexivity.
Defined.

(** X9, on profile 3: the session of two games. *)
Lemma getPlayerWinRate_boundaries_witness :
  first_game_at (Sample.returned (Sample.evening_of 3 None))
  = Some (Sample.T - Sample.hour) /\
  last_game_at (Sample.returned (Sample.evening_of 3 None))
  = Some (Sample.T + 900 * 1000).
Proof.
  apply (getPlayerWinRate_boundaries Sample.evening_server 5 (Single (Some 3)) None
           Sample.T Sample.T (fst (Sample.evening_of 3 None))).
  vm_compute. reflexivity.
Defined.

End AggregateFacts.

(** ** The lookups of players *)

Module LookupFacts.

Import Ascii Lookup.

(** *** Names in quotes *)

Lemma closing_quote inner :
  forallb (fun c => negb (line_terminator c)) (list_ascii_of_string inner) = true ->
  closing (inner ++ "'") = Some inner.
Proof.
  induction inner as [|c inner IH]; cbn [list_ascii_of_string forallb]; [done|].
  intros [Hc Hrest]%andb_true_iff. apply negb_true_iff in Hc.
  cbn [String.append closing]. rewrite (IH Hrest), Hc.
  by destruct (inner ++ "'")%string eqn:E; [destruct inner|].
Qed.

Lemma closing_inv s inner :
  closing s = Some inner ->
  s = (inner ++ "'")%string /\
  forallb (fun c => negb (line_terminator c)) (list_ascii_of_string inner) = true.
Proof.
  revert inner. induction s as [|c s IH]; intros inner H; [discriminate|].
  cbn [closing] in H. destruct s as [|c' s'].
  - destruct (c =? "'")%char eqn:E; [|discriminate]. injection H as <-.
    apply Ascii.eqb_eq in E as ->. done.
  - destruct (line_terminator c) eqn:Hc; [discriminate|].
    destruct (closing (String c' s')) as [inner'|]; [|discriminate].
    injection H as <-. destruct (IH inner' eq_refl) as [-> Hall].
    cbn [String.append list_ascii_of_string forallb]. by rewrite Hc, Hall.
Qed.

Lemma fst_bind_call {E A B} (e : E) (answer : A) (k : A -> Act E B) :
  fst (bind (call e answer) k) = e :: fst (k answer).
Proof. unfold bind, call. by destruct (k answer). Qed.

Section Server.

Variable srv : Server.
Variable parseInt : string -> option Z.

(** X11. A name in single quotes is searched exactly and without its
    quotes: for every text without a line break, the name made of a quote,
    the text and a quote is recognised as quoted with that text, the one
    request of [findPlayerByName] carries the text with [exact] set, and
    only names of that form are taken as quoted. *)
Theorem findPlayerByName_quoted inner :
  forallb (fun c => negb (line_terminator c)) (list_ascii_of_string inner) = true ->
  matchExact ("'" ++ inner ++ "'") = Some inner /\
  fst (findPlayerByName srv ("'" ++ inner ++ "'") None) = [PlayerSearch inner true] /\
  (forall lb, isValidLeaderboard (Some lb) = true ->
     fst (findPlayerByName srv ("'" ++ inner ++ "'") (Some lb))
     = [LeaderboardSearch lb inner true]) /\
  (forall name inner', matchExact name = Some inner' ->
     name = ("'" ++ inner' ++ "'")%string).
Proof.
  intros Hinner.
  assert (matchExact ("'" ++ inner ++ "'") = Some inner) as Hm.
  { cbn [String.append matchExact]. cbn. by apply closing_quote. }
  split; [done|]. split; [|split].
  - unfold findPlayerByName. cbn [nonempty]. rewrite Hm. cbn [fst snd].
    rewrite fst_bind_call. f_equal. by repeat case_match.
  - intros lb Hlb. unfold findPlayerByName.
    assert (nonempty (Some lb) = Some lb) as ->.
    { destruct lb; [discriminate | done]. }
    rewrite Hlb, Hm. cbn [negb fst snd].
    rewrite fst_bind_call. f_equal. by repeat case_match.
  - intros name inner' H. unfold matchExact in H.
    destruct name as [|c rest]; [discriminate|].
    destruct (c =? "'")%char eqn:E; [|discriminate].
    apply Ascii.eqb_eq in E as ->. by apply closing_inv in H as [-> _].
Qed.

(** *** Ranks *)

(** X12. For a rank of 1 or more on a valid leaderboard, [findPlayerByRank]
    sends one request, for the page of fifty ranks that holds the rank, and
    the player it returns, if any, has exactly that rank, with its own
    figures under [modes] for the leaderboard. *)
Theorem findPlayerByRank_page lb z :
  isValidLeaderboard (Some lb) = true ->
  1 <= z ->
  exists p res,
    findPlayerByRank srv (Some z) (Some lb) = ([LeaderboardPage lb (Some p)], Some res) /\
    50 * (p - 1) < z <= 50 * p /\
    forall found, res = Some found ->
      rank (figures found) = Some z /\
      modes found = Some [(lb, copy_figures found)] /\
      rank (copy_figures found) = Some z.
Proof.
  intros Hlb Hz. exists (1 + (z - 1) / 50).
  unfold findPlayerByRank. rewrite Hlb. cbn [negb].
  destruct (z <? 0) eqn:E1; [apply Z.ltb_lt in E1; lia|].
  destruct (z =? 0) eqn:E2; [apply Z.eqb_eq in E2; lia|].
  unfold bind, call.
  assert (50 * (1 + (z - 1) / 50 - 1) < z <= 50 * (1 + (z - 1) / 50)) as Hpage.
  { pose proof (Z.mul_div_le (z - 1) 50 ltac:(lia)).
    pose proof (Z.mul_succ_div_gt (z - 1) 50 ltac:(lia)). lia. }
  destruct (leaderboard_page srv lb (Some (1 + (z - 1) / 50))) as [j|];
    [|eexists; split; [done|]; split; [done | discriminate]].
  destruct (count j =? 0); [eexists; split; [done|]; split; [done | discriminate]|].
  destruct (players j) as [ps|];
    [|eexists; split; [done|]; split; [done | discriminate]].
  destruct (head (List.filter (has_rank (Some z)) ps)) as [player|] eqn:Hhead;
    [|eexists; split; [done|]; split; [done | discriminate]].
  eexists. split; [done|]. split; [done|]. intros found [= <-].
  assert (In player (List.filter (has_rank (Some z)) ps)) as Hin.
  { destruct (List.filter _ ps); [discriminate|]. injection Hhead as ->. by left. }
  apply filter_In in Hin as [_ Hrank]. unfold has_rank in Hrank.
  destruct (rank (figures player)) as [a|] eqn:Ha; [|discriminate].
  apply Z.eqb_eq in Hrank as ->. cbn. by rewrite Ha.
Qed.

(** X13. No rank below 1 reaches the server: for such a rank
    [findPlayerByRank] sends no request. It returns a player only for rank 0
    on a valid leaderboard, and that player, the made-up "Twitch Chat", has
    no [profile_id]. *)
Theorem findPlayerByRank_below_1 z leaderboard :
  z < 1 ->
  exists res,
    findPlayerByRank srv (Some z) leaderboard = ([], Some res) /\
    (res <> None <-> z = 0 /\ isValidLeaderboard leaderboard = true) /\
    forall found, res = Some found -> profile_id found = Js.Undefined.
Proof.
  intros Hz. unfold findPlayerByRank.
  destruct leaderboard as [lb|].
  - destruct (isValidLeaderboard (Some lb)); cbn [negb].
    + destruct (Z.ltb_spec z 0).
      * exists None. split; [done|]. split; [|done].
        split; [done | intros [? _]; lia].
      * destruct (Z.eqb_spec z 0); [|lia].
        eexists. split; [done|]. split; [|by intros ? [= <-]].
        split; [done | discriminate].
    + exists None. split; [done|]. split; [|done].
      split; [done | intros [_ ?]; discriminate].
  - exists None. split; [done|]. split; [|done].
    split; [done | intros [_ ?]; discriminate].
Qed.

(** *** Rank or name *)

Lemma findPlayerByQuery_on query lb tr res :
  lb <> ""%string ->
  findPlayerByQuery srv parseInt query (Some lb) = (tr, res) ->
  (tr = [] \/ (exists q e, tr = [LeaderboardSearch lb q e])
   \/ exists page, tr = [LeaderboardPage lb page]) /\
  (isValidLeaderboard (Some lb) = false -> tr = [] /\ res = Some None) /\
  forall found, res = Some (Some found) -> exists l, modes found = Some [(lb, l)].
Proof.
  intros Hne H.
  assert (nonempty (Some lb) = Some lb) as Hlb by by destruct lb.
  unfold findPlayerByQuery, findPlayerByRank, findPlayerByName in H.
  rewrite Hlb in H. unfold bind, call, ret, throw in H.
  destruct (isValidLeaderboard (Some lb)); cbn [negb] in H;
    repeat case_match; simplify_eq; cbn;
    (split; [eauto 6 | split; [done|]]); intros found Hf; simplify_eq; cbn; eauto.
Qed.

(** X14. Whichever way the player is looked up (by rank, as the player of
    rank 0, by name, by quoted name), [findPlayerByQuery] with a leaderboard
    sends at most one request; on a leaderboard that is not valid it sends
    none and finds nobody; and a player it finds carries that leaderboard,
    and only it, in [modes]. *)
Theorem findPlayerByQuery_modes query lb tr res :
  lb <> ""%string ->
  findPlayerByQuery srv parseInt query (Some lb) = (tr, res) ->
  (length tr <= 1)%nat /\
  (isValidLeaderboard (Some lb) = false -> tr = [] /\ res = Some None) /\
  forall found, res = Some (Some found) -> exists l, modes found = Some [(lb, l)].
Proof.
  intros Hne H. destruct (findPlayerByQuery_on _ _ _ _ Hne H) as (Htr & Hbad & Hfound).
  split; [|done].
  destruct Htr as [-> | [(q & e & ->) | (page & ->)]]; cbn; lia.
Qed.

End Server.

Lemma findPlayerByName_quoted_witness :
  matchExact "'Bob'" = Some "Bob"%string /\
  fst (findPlayerByName Board.server "'Bob'" None) = [PlayerSearch "Bob" true] /\
  (forall lb, isValidLeaderboard (Some lb) = true ->
     fst (findPlayerByName Board.server "'Bob'" (Some lb))
     = [LeaderboardSearch lb "Bob" true]) /\
  (forall name inner', matchExact name = Some inner' ->
     name = ("'" ++ inner' ++ "'")%string).
Proof.
  apply (findPlayerByName_quoted Board.server "Bob"). reflexivity.
Defined.

Lemma findPlayerByRank_page_witness :
  exists p res,
    findPlayerByRank Board.server (Some 2) (Some "rm_1v1"%string)
    = ([LeaderboardPage "rm_1v1" (Some p)], Some res) /\
    50 * (p - 1) < 2 <= 50 * p /\
    forall found, res = Some found ->
      rank (figures found) = Some 2 /\
      modes found = Some [("rm_1v1"%string, copy_figures found)] /\
      rank (copy_figures found) = Some 2.
Proof.
  apply (findPlayerByRank_page Board.server "rm_1v1" 2); [reflexivity | lia].
Defined.

Lemma findPlayerByRank_below_1_witness :
  exists res,
    findPlayerByRank Board.server (Some 0) (Some "qm_2v2"%string) = ([], Some res) /\
    (res <> None <-> 0 = 0 /\ isValidLeaderboard (Some "qm_2v2"%string) = true) /\
    forall found, res = Some found -> profile_id found = Js.Undefined.
Proof.
  apply (findPlayerByRank_below_1 Board.server 0 (Some "qm_2v2"%string)). lia.
Defined.

Lemma findPlayerByQuery_modes_witness :
  (length [LeaderboardPage "rm_1v1" (Some 1%Z)] <= 1)%nat /\
  (isValidLeaderboard (Some "rm_1v1"%string) = false ->
   [LeaderboardPage "rm_1v1" (Some 1)] = [] /\
   Some (Some (set_modes (Some [("rm_1v1"%string, Board.ladder 3 2000)])
                 (Board.entry 13 3 2000 "Cy"))) = Some None) /\
  forall found,
    Some (Some (set_modes (Some [("rm_1v1"%string, Board.ladder 3 2000)])
                  (Board.entry 13 3 2000 "Cy"))) = Some (Some found) ->
    exists l, modes found = Some [("rm_1v1"%string, l)].
Proof.
  apply (findPlayerByQuery_modes Board.server Board.digits "#3" "rm_1v1");
    [discriminate | vm_compute; reflexivity].
Defined.

End LookupFacts.

(** ** The request handlers *)

Module RoutesFacts.

Import Ascii Lookup Routes Replies LookupFacts.

Lemma act_bind_inv {E A B} (c : Act E A) (k : A -> Act E B) tr r :
  bind c k = (tr, r) ->
  (c = (tr, None) /\ r = None) \/
  (exists tr1 a tr2, c = (tr1, Some a) /\ k a = (tr2, r) /\ tr = tr1 ++ tr2).
Proof.
  unfold bind. destruct c as [tr1 [a|]].
  - destruct (k a) as [tr2 b] eqn:Hk. intros [= <- <-]. right. eauto 10.
  - intros [= <- <-]. by left.
Qed.

Lemma act_bind_ret {E A B} (a : A) (k : A -> Act E B) : bind (ret a) k = k a.
Proof. unfold bind, ret. by destruct (k a). Qed.

Lemma act_bind_pair {E A B} (tr : list E) (a : A) (k : A -> Act E B) :
  bind (tr, Some a) k = (tr ++ fst (k a), snd (k a)).
Proof. unfold bind. by destruct (k a). Qed.

Lemma act_bind_In {E A B} (c : Act E A) (k : A -> Act E B) (e : E) :
  In e (fst (bind c k)) ->
  In e (fst c) \/ exists a, snd c = Some a /\ In e (fst (k a)).
Proof.
  destruct c as [tr [a|]]; [|by left]. rewrite act_bind_pair. cbn [fst snd].
  intros [?|?]%in_app_or; eauto.
Qed.

(** *** The most recent game *)

Lemma insert_by_recency_In g l x :
  In x (insert_by_recency g l) <-> x = g \/ In x l.
Proof.
  induction l as [|h t IH]; cbn.
  - split; [intros [<- | []] | intros [-> | []]]; auto.
  - destruct (_ <=? _); cbn; [split; [intros [<- | ?] | intros [-> | ?]]; auto|].
    rewrite IH. tauto.
Qed.

Lemma sort_by_recency_In l x : In x (sort_by_recency l) <-> In x l.
Proof.
  induction l as [|g l IH]; cbn; [done|].
  rewrite insert_by_recency_In, IH. split; [intros [-> | ?] | intros [<- | ?]]; auto.
Qed.

Lemma insert_by_recency_sorted g l :
  StronglySorted later l -> StronglySorted later (insert_by_recency g l).
Proof.
  induction 1 as [|h t Ht IH Hh]; cbn; [by repeat constructor|].
  destruct (Z.leb_spec (World.started_at h) (World.started_at g)).
  - constructor; [by constructor|]. constructor; [done|].
    eapply List.Forall_impl; [|exact Hh]. unfold later. intros; lia.
  - constructor; [done|]. apply List.Forall_forall. intros x Hx.
    apply insert_by_recency_In in Hx as [-> | Hx]; [unfold later; lia|].
    by eapply List.Forall_forall in Hh.
Qed.

Lemma sort_by_recency_sorted l : StronglySorted later (sort_by_recency l).
Proof.
  induction l; cbn; [constructor | by apply insert_by_recency_sorted].
Qed.

Lemma sort_by_recency_head l g :
  head (sort_by_recency l) = Some g ->
  In g l /\ forall x, In x l -> World.started_at x <= World.started_at g.
Proof.
  intros H. pose proof (sort_by_recency_sorted l) as Hs.
  destruct (sort_by_recency l) as [|g0 rest] eqn:E; [discriminate|].
  injection H as ->. split.
  - apply sort_by_recency_In. rewrite E. by left.
  - intros x Hx. apply sort_by_recency_In in Hx. rewrite E in Hx.
    destruct Hx as [-> | Hx]; [lia|].
    apply StronglySorted_inv in Hs as [_ Hall].
    by eapply List.Forall_forall in Hall.
Qed.

Lemma sort_by_recency_nil l : sort_by_recency l = [] -> l = [].
Proof.
  destruct l as [|g l]; [done|]. intros H.
  assert (In g (sort_by_recency (g :: l))) as Hin by (apply sort_by_recency_In; by left).
  by rewrite H in Hin.
Qed.

Lemma split_comma_cons s : exists first rest, split_comma s = first :: rest.
Proof.
  induction s as [|c s (first & rest & IH)]; cbn; [eauto|].
  destruct (c =? ",")%char; [eauto|]. rewrite IH. eauto.
Qed.

(** [H] says that an event that is no call is among calls. *)
Ltac not_sent H :=
  repeat (apply in_app_or in H as [H | H]);
  try (apply in_map_iff in H as (? & ? & _); discriminate);
  try (by repeat destruct H as [H | H]).

Section Handlers.

Variable Formatter : Type.
Variable getFormatter : option string -> option Formatter.
Variable parseInt : string -> option Z.
Variable srv : Server.

Abbreviation Called := (Called Formatter).
Abbreviation handleAoe4Match := (handleAoe4Match Formatter getFormatter parseInt srv).
Abbreviation handleAoe4Rank := (handleAoe4Rank Formatter getFormatter parseInt srv).

(** The last matches are asked for profile by profile, for the ids that are
    integers. *)
Lemma last_matches_spec players :
  last_matches Formatter srv players
  = (List.map Called (List.map PlayerLastGame (List.filter Js.Number_isInteger players)),
     Some (List.map (fun p => if Js.Number_isInteger p then player_last_game srv p
                              else None) players)).
Proof.
  induction players as [|p players IH]; [done|].
  cbn [last_matches List.filter List.map]. rewrite IH.
  unfold getLastMatch, lookup, bind, call, ret.
  destruct (Js.Number_isInteger p); cbn; by rewrite ?app_nil_r.
Qed.

Lemma match_players_calls q tr r :
  match_players Formatter parseInt srv q = (tr, r) ->
  exists calls, tr = List.map Called calls /\
    forall id, ~ In (PlayerLastGame id) calls /\ ~ In (PlayerProfile id) calls.
Proof.
  unfold match_players. intros H.
  destruct (nonempty (query q)) as [text|].
  - destruct (findPlayerByQuery srv parseInt text (Some (or_rm_1v1 (leaderboard q))))
      as [tr0 res] eqn:Hq.
    assert (or_rm_1v1 (leaderboard q) <> ""%string) as Hne.
    { unfold or_rm_1v1. by destruct (leaderboard q) as [[|]|]. }
    destruct (findPlayerByQuery_on _ _ _ _ _ _ Hne Hq) as (Htr & _).
    exists tr0. split.
    + unfold lookup, bind, ret in H. cbn [fst snd] in H.
      repeat case_match; simplify_eq; by rewrite ?app_nil_r.
    + intros id.
      destruct Htr as [-> | [(? & ? & ->) | (? & ->)]];
        split; intros Hin; cbn in Hin; by repeat destruct Hin as [Hin | Hin].
  - exists []. unfold ret in H. split; [|by split; intros []].
    repeat case_match; by simplify_eq.
Qed.

(** X15. The match that [handleAoe4Match] sends is the most recent of the
    last matches it fetched: it is the last match of a profile it asked for,
    and no profile it asked for has a later one. *)
Theorem handleAoe4Match_most_recent q tr r f g :
  handleAoe4Match q = (tr, r) ->
  In (SendMatch Formatter f g) tr ->
  (exists id, In (Called (PlayerLastGame id)) tr /\ player_last_game srv id = Some g) /\
  (forall id g', In (Called (PlayerLastGame id)) tr ->
     player_last_game srv id = Some g' ->
     World.started_at g' <= World.started_at g).
Proof.
  unfold Routes.handleAoe4Match. intros H Hsent.
  apply act_bind_inv in H as [[H ->] | (tr1 & players & tr2 & Hp & H & ->)].
  { apply match_players_calls in H as (calls & -> & _).
    apply in_map_iff in Hsent as (? & ? & _). discriminate. }
  apply match_players_calls in Hp as (calls & -> & Hcalls).
  assert (~ In (SendMatch Formatter f g) (List.map Called calls)) as Hnot.
  { intros (? & ? & _)%in_map_iff. discriminate. }
  apply in_app_or in Hsent as [?|Hsent]; [done|].
  destruct (getFormatter (format q)) as [formatter|].
  2:{ unfold send in H. simplify_eq. by not_sent Hsent. }
  destruct players as [|first rest].
  { unfold send in H. simplify_eq. by not_sent Hsent. }
  rewrite last_matches_spec in H. set (players := first :: rest) in *.
  unfold bind in H.
  set (matches := List.map _ players) in H.
  destruct (head (sort_by_recency (omap id matches))) as [g0|] eqn:Hhead.
  2:{ unfold lookup, getPlayer, send, call, ret, throw in H.
      repeat case_match; simplify_eq; cbn [fst snd] in Hsent; by not_sent Hsent. }
  unfold send in H. simplify_eq.
  apply in_app_or in Hsent as [(? & ? & _)%in_map_iff | Hsent]; [discriminate|].
  destruct Hsent as [[= <- <-] | []].
  apply sort_by_recency_head in Hhead as [Hin Hmax].
  assert (forall x, In x (omap id matches) <->
                    exists p, In p players /\ Js.Number_isInteger p = true
                              /\ player_last_game srv p = Some x) as Hfound.
  { intros x. rewrite <- list_elem_of_In, list_elem_of_omap. unfold matches. split.
    - intros (m & Hm & Hx). cbn in Hx. subst m.
      apply list_elem_of_In, in_map_iff in Hm as (p & Hp & Hin').
      exists p. destruct (Js.Number_isInteger p); [done | discriminate].
    - intros (p & Hp & Hint & Hlast). exists (Some x). split; [|done].
      apply list_elem_of_In, in_map_iff. exists p. by rewrite Hint. }
  assert (forall id, In (Called (PlayerLastGame id))
                       (List.map Called calls ++
                        List.map Called (List.map PlayerLastGame
                                           (List.filter Js.Number_isInteger players)) ++
                        [SendMatch Formatter formatter g0])
                     <-> In id players /\ Js.Number_isInteger id = true) as Hasked.
  { intros id0. rewrite !in_app_iff, !in_map_iff. split.
    - intros [(c & [= ->] & Hc) | [(c & [= ->] & Hc) | [? | []]]]; [| |discriminate].
      + by apply (Hcalls id0) in Hc.
      + apply in_map_iff in Hc as (p & [= ->] & Hp). by apply filter_In in Hp.
    - intros [Hp Hint]. right. left. eexists. split; [done|].
      apply in_map_iff. eexists. split; [done|]. by apply filter_In. }
  split.
  - apply Hfound in Hin as (p & Hp & Hint & Hlast). exists p. split; [|done].
    by apply Hasked.
  - intros id0 g' Hid Hlast. apply Hasked in Hid as [Hp Hint].
    apply Hmax, Hfound. eauto.
Qed.

Lemma filter_calls (calls : list Call) :
  List.filter is_reply (List.map Called calls) = [].
Proof. induction calls; [done | by cbn]. Qed.

(** X16. A handler that completes answers the request exactly once, as the
    last thing it does, and with status 400 when the format is unknown; a
    handler that throws has sent nothing. This holds for [handleAoe4Match]
    and for [handleAoe4Rank]. *)
Theorem handlers_reply_once q tr r :
  handleAoe4Match q = (tr, r) \/ handleAoe4Rank q = (tr, r) ->
  exists calls,
    match r with
    | Some _ =>
        exists e, tr = List.map Called calls ++ [e] /\ is_reply e = true /\
          (getFormatter (format q) = None -> e = Status400 Formatter InvalidFormatter)
    | None => tr = List.map Called calls
    end.
Proof.
  intros [H | H].
  - unfold Routes.handleAoe4Match in H.
    apply act_bind_inv in H as [[H ->] | (tr1 & players & tr2 & Hp & H & ->)].
    { apply match_players_calls in H as (calls & -> & _). by exists calls. }
    apply match_players_calls in Hp as (calls & -> & _).
    destruct (getFormatter (format q)) as [formatter|].
    2:{ unfold send in H. simplify_eq. exists calls. eauto. }
    destruct players as [|first rest].
    { unfold send in H. simplify_eq. exists calls. eexists. by repeat split. }
    rewrite last_matches_spec in H. unfold bind in H.
    set (asked := List.map PlayerLastGame _) in H.
    destruct (head (sort_by_recency _)).
    + unfold send in H. simplify_eq. exists (calls ++ asked). eexists.
      rewrite List.map_app, <- app_assoc. by repeat split.
    + unfold lookup, getPlayer, send, call, ret, throw in H.
      repeat case_match; simplify_eq; cbn [fst snd List.map].
      * exists (calls ++ asked). by rewrite List.map_app, !app_nil_r.
      * exists (calls ++ asked ++ [PlayerProfile first]). eexists.
        rewrite !List.map_app, <- !app_assoc. by repeat split.
      * exists (calls ++ asked ++ [PlayerProfile first]).
        by rewrite !List.map_app, !app_nil_r.
  - unfold Routes.handleAoe4Rank in H.
    apply act_bind_inv in H as [[H ->] | (tr1 & found & tr2 & Hp & H & ->)].
    { destruct (nonempty (query q)); [unfold lookup in H; simplify_eq; by eexists|].
      destruct (nonempty (player q)); [unfold lookup in H; simplify_eq; by eexists|].
      discriminate. }
    assert (exists calls, tr1 = List.map Called calls) as (calls & ->).
    { destruct (nonempty (query q)); [unfold lookup in Hp; simplify_eq; by eexists|].
      destruct (nonempty (player q)); [unfold lookup in Hp; simplify_eq; by eexists|].
      unfold ret in Hp. simplify_eq. by exists []. }
    exists calls. unfold send in H.
    destruct (getFormatter (format q)); [destruct found|]; simplify_eq;
      eexists; by repeat split.
Qed.

(** X22. The handlers never ask the API about a profile whose id is not an
    integer: every request of [handleAoe4Match] and [handleAoe4Rank] for the
    last game or the profile of a player carries an integer id, whatever the
    [player] parameter holds. *)
Theorem handlers_ask_integer_ids q tr r id :
  handleAoe4Match q = (tr, r) \/ handleAoe4Rank q = (tr, r) ->
  In (Called (PlayerLastGame id)) tr \/ In (Called (PlayerProfile id)) tr ->
  Js.Number_isInteger id = true.
Proof.
  assert (forall (tr1 tr2 : list (Effect Formatter)) calls,
            tr1 = List.map Called calls ->
            (forall id, ~ In (PlayerLastGame id) calls /\ ~ In (PlayerProfile id) calls) ->
            In (Called (PlayerLastGame id)) (tr1 ++ tr2)
            \/ In (Called (PlayerProfile id)) (tr1 ++ tr2) ->
            In (Called (PlayerLastGame id)) tr2 \/ In (Called (PlayerProfile id)) tr2)
    as Hskip.
  { intros tr1 tr2 calls -> Hcalls [Hin | Hin]; apply in_app_or in Hin as [Hin | Hin];
      auto; apply in_map_iff in Hin as (c & [= ->] & Hc); by apply (Hcalls id) in Hc. }
  assert (forall first,
            In (Called (PlayerLastGame id)) (fst (lookup Formatter (getPlayer srv first)))
            \/ In (Called (PlayerProfile id)) (fst (lookup Formatter (getPlayer srv first))) ->
            Js.Number_isInteger id = true) as Hprofile.
  { intros first. unfold lookup, getPlayer, call, ret.
    destruct (Js.Number_isInteger first) eqn:E; cbn; [|by intros [[] | []]].
    intros [[[=] | []] | [[= <-] | []]]. done. }
  intros [H | H] Hin.
  - unfold Routes.handleAoe4Match in H.
    apply act_bind_inv in H as [[H ->] | (tr1 & players & tr2 & Hp & H & ->)].
    { apply match_players_calls in H as (calls & -> & Hcalls).
      destruct Hin as [Hin | Hin]; apply in_map_iff in Hin as (c & [= ->] & Hc);
        by apply (Hcalls id) in Hc. }
    apply match_players_calls in Hp as (calls & Htr1 & Hcalls).
    apply (Hskip _ _ _ Htr1 Hcalls) in Hin. clear Hskip Htr1 Hcalls tr1 calls.
    destruct (getFormatter (format q)) as [formatter|].
    2:{ unfold send in H. simplify_eq. destruct Hin as [Hin | Hin]; by not_sent Hin. }
    destruct players as [|first rest].
    { unfold send in H. simplify_eq. destruct Hin as [Hin | Hin]; by not_sent Hin. }
    rewrite last_matches_spec, act_bind_pair in H. cbn [fst snd] in H.
    simplify_eq. set (players := first :: rest) in *.
    assert (In (Called (PlayerLastGame id))
              (List.map Called (List.map PlayerLastGame
                                  (List.filter Js.Number_isInteger players)))
            -> Js.Number_isInteger id = true) as Hasked.
    { intros (c & [= ->] & (p & [= ->] & Hp%filter_In)%in_map_iff)%in_map_iff.
      by destruct Hp. }
    assert (~ In (Called (PlayerProfile id))
              (List.map Called (List.map PlayerLastGame
                                  (List.filter Js.Number_isInteger players)))) as Hnone.
    { intros (c & [= ->] & (p & [=] & _)%in_map_iff)%in_map_iff. }
    destruct Hin as [Hin | Hin]; apply in_app_or in Hin as [Hin | Hin]; auto; try done.
    + destruct (head (sort_by_recency _)); [by not_sent Hin|].
      apply act_bind_In in Hin as [Hin | (found & _ & Hin)];
        [by apply (Hprofile first); left|].
      destruct found; by not_sent Hin.
    + destruct (head (sort_by_recency _)); [by not_sent Hin|].
      apply act_bind_In in Hin as [Hin | (found & _ & Hin)];
        [by apply (Hprofile first); right|].
      destruct found; by not_sent Hin.
  - unfold Routes.handleAoe4Rank in H.
    assert (forall (found : option Player) tr2 r2,
              match getFormatter (format q) with
              | Some formatter =>
                  match found with
                  | Some p => send Formatter (SendRank Formatter formatter p
                                                (or_rm_1v1 (leaderboard q)))
                  | None => send Formatter (SendError Formatter formatter NoPlayerFound)
                  end
              | None => send Formatter (Status400 Formatter InvalidFormatter)
              end = (tr2, r2) ->
              ~ (In (Called (PlayerLastGame id)) tr2 \/ In (Called (PlayerProfile id)) tr2))
      as Hreply.
    { intros found tr2 r2 Hsend Hin2.
      destruct (getFormatter (format q)); [destruct found|]; unfold send in Hsend;
        simplify_eq; destruct Hin2 as [Hin2 | Hin2]; by not_sent Hin2. }
    apply act_bind_inv in H as [[H ->] | (tr1 & found & tr2 & Hp & H & ->)].
    + destruct (nonempty (query q)) as [text|].
      * destruct (findPlayerByQuery srv parseInt text (Some (or_rm_1v1 (leaderboard q))))
          as [tr0 res] eqn:Hq.
        assert (or_rm_1v1 (leaderboard q) <> ""%string) as Hne.
        { unfold or_rm_1v1. by destruct (leaderboard q) as [[|]|]. }
        destruct (findPlayerByQuery_on _ _ _ _ _ _ Hne Hq) as (Htr & _).
        unfold lookup in H. cbn [fst snd] in H. simplify_eq.
        destruct Htr as [-> | [(? & ? & ->) | (? & ->)]];
          destruct Hin as [Hin | Hin]; cbn in Hin; by repeat destruct Hin as [Hin | Hin].
      * destruct (nonempty (player q)) as [ids|]; [|discriminate].
        apply (Hprofile (number (parseInt ids))). by rewrite H.
    + apply Hreply in H.
      assert (In (Called (PlayerLastGame id)) tr1 \/ In (Called (PlayerProfile id)) tr1)
        as Hin1.
      { destruct Hin as [Hin | Hin]; apply in_app_or in Hin as [Hin | Hin]; tauto. }
      clear Hin. destruct (nonempty (query q)) as [text|].
      * destruct (findPlayerByQuery srv parseInt text (Some (or_rm_1v1 (leaderboard q))))
          as [tr0 res] eqn:Hq.
        assert (or_rm_1v1 (leaderboard q) <> ""%string) as Hne.
        { unfold or_rm_1v1. by destruct (leaderboard q) as [[|]|]. }
        destruct (findPlayerByQuery_on _ _ _ _ _ _ Hne Hq) as (Htr & _).
        unfold lookup in Hp. cbn [fst snd] in Hp. simplify_eq.
        destruct Htr as [-> | [(? & ? & ->) | (? & ->)]];
          destruct Hin1 as [Hin | Hin]; cbn in Hin; by repeat destruct Hin as [Hin | Hin].
      * destruct (nonempty (player q)) as [ids|].
        -- apply (Hprofile (number (parseInt ids))). by rewrite Hp.
        -- unfold ret in Hp. simplify_eq. by destruct Hin1.
Qed.

Lemma no_last_match (l : list Js.Value) :
  (forall id, In id l -> player_last_game srv id = None) ->
  omap id (List.map (fun p => if Js.Number_isInteger p then player_last_game srv p
                              else None) l) = [].
Proof.
  induction l as [|p l IH]; [done|]. intros Hlast. cbn.
  rewrite (Hlast p) by by left.
  assert (forall id, In id l -> player_last_game srv id = None) as Hrest
    by (intros; apply Hlast; by right).
  destruct (Js.Number_isInteger p); cbn; by apply IH.
Qed.

(** X17. [handleAoe4Match] with profiles given by [player]: when none of
    them has a last match and the first one cannot be loaded (an id that is
    no number, an unknown profile, the API out of order), the handler throws
    while it builds its message, and the request gets no answer. *)
Theorem handleAoe4Match_unknown_profile q ids f :
  nonempty (query q) = None ->
  nonempty (player q) = Some ids ->
  getFormatter (format q) = Some f ->
  (forall id, In id (profiles parseInt ids) -> player_last_game srv id = None) ->
  (forall id, head (profiles parseInt ids) = Some id -> player_profile srv id = None) ->
  snd (handleAoe4Match q) = None /\
  List.filter is_reply (fst (handleAoe4Match q)) = [].
Proof.
  intros Hq Hp Hf Hlast Hfirst.
  assert (exists calls, handleAoe4Match q = (List.map Called calls, None)) as (calls & ->).
  { unfold Routes.handleAoe4Match, match_players.
    rewrite Hq, Hp, act_bind_ret, Hf. fold (profiles parseInt ids).
    destruct (split_comma_cons ids) as (v & vs & Hsplit).
    destruct (profiles parseInt ids) as [|first rest] eqn:Hprofiles.
    { unfold profiles in Hprofiles. by rewrite Hsplit in Hprofiles. }
    rewrite last_matches_spec, act_bind_pair, no_last_match by done.
    cbn [sort_by_recency head]. unfold getPlayer.
    rewrite (Hfirst first eq_refl).
    set (asked := List.map PlayerLastGame _).
    destruct (Js.Number_isInteger first); cbn.
    - exists (asked ++ [PlayerProfile first]). by rewrite List.map_app.
    - exists asked. by rewrite app_nil_r. }
  split; [done | apply filter_calls].
Qed.

(** X18. [handleAoe4Match] asked for a rank below 1, as in the query "#0":
    no request is sent and the answer is "No player found", also for rank 0,
    whose made-up player has no profile. *)
Theorem handleAoe4Match_rank_below_1 q d z f :
  nonempty (query q) = Some (String "#" d) ->
  parseInt d = Some z ->
  z < 1 ->
  getFormatter (format q) = Some f ->
  handleAoe4Match q = ([SendError Formatter f NoPlayerFound], Some tt).
Proof.
  intros Hq Hd Hz Hf. unfold Routes.handleAoe4Match, match_players.
  rewrite Hq. cbn [findPlayerByQuery]. rewrite Ascii.eqb_refl, Hd.
  unfold findPlayerByRank.
  destruct (isValidLeaderboard _); cbn [negb]; [|by cbn; rewrite Hf].
  destruct (Z.ltb_spec z 0); [by cbn; rewrite Hf|].
  destruct (Z.eqb_spec z 0); [|lia]. cbn. by rewrite Hf.
Qed.

(** X19. The rank that [handleAoe4Rank] sends for a query is a rank on the
    leaderboard it names: the leaderboard passed to the formatter is the one
    of the request, "rm_1v1" when there is none, it is a valid one, and the
    player sent carries the figures of that leaderboard, and of no other, in
    [modes]. *)
Theorem handleAoe4Rank_on_leaderboard q text tr r f p lb :
  nonempty (query q) = Some text ->
  handleAoe4Rank q = (tr, r) ->
  In (SendRank Formatter f p lb) tr ->
  lb = or_rm_1v1 (leaderboard q) /\
  isValidLeaderboard (Some lb) = true /\
  exists l, modes p = Some [(lb, l)].
Proof.
  intros Hq H Hsent. unfold Routes.handleAoe4Rank in H. rewrite Hq in H.
  assert (or_rm_1v1 (leaderboard q) <> ""%string) as Hne.
  { unfold or_rm_1v1. by destruct (leaderboard q) as [[|]|]. }
  destruct (findPlayerByQuery srv parseInt text (Some (or_rm_1v1 (leaderboard q))))
    as [tr0 res] eqn:Hfind.
  destruct (findPlayerByQuery_on _ _ _ _ _ _ Hne Hfind) as (_ & Hbad & Hfound).
  unfold lookup, bind, send in H. cbn [fst snd] in H.
  destruct res as [[found|]|]; [| |simplify_eq; by not_sent Hsent].
  2:{ repeat case_match; simplify_eq; by not_sent Hsent. }
  destruct (getFormatter (format q)); simplify_eq; [|by not_sent Hsent].
  apply in_app_or in Hsent as [Hsent | [[= <- <- <-] | []]]; [by not_sent Hsent|].
  split; [done|]. split; [|by apply Hfound].
  destruct (isValidLeaderboard _) eqn:E; [done|]. by destruct (Hbad eq_refl).
Qed.

End Handlers.

Lemma handleAoe4Match_most_recent_witness :
  (exists id,
     In (Routes.Called string (PlayerLastGame id))
        (fst (Routes.handleAoe4Match string Board.formatters Board.digits Board.server
                (Board.ask None (Some "11,12"%string)))) /\
     player_last_game Board.server id = Some (Sample.game1v1 900 12 13 "loss" 60)) /\
  (forall id g',
     In (Routes.Called string (PlayerLastGame id))
        (fst (Routes.handleAoe4Match string Board.formatters Board.digits Board.server
                (Board.ask None (Some "11,12"%string)))) ->
     player_last_game Board.server id = Some g' ->
     World.started_at g' <= 900).
Proof.
  apply (handleAoe4Match_most_recent string Board.formatters Board.digits Board.server
           (Board.ask None (Some "11,12"%string)) _ (Some tt) "json"%string
           (Sample.game1v1 900 12 13 "loss" 60)).
  - vm_compute. reflexivity.
  - vm_compute. right. right. left. reflexivity.
Defined.

Lemma handlers_reply_once_witness :
  exists calls e,
    fst (Routes.handleAoe4Rank string Board.formatters Board.digits Board.server
           (Board.ask (Some "#2"%string) None))
    = List.map (Routes.Called string) calls ++ [e] /\
    is_reply e = true /\
    (Board.formatters None = None -> e = Status400 string InvalidFormatter).
Proof.
  destruct (handlers_reply_once string Board.formatters Board.digits Board.server
              (Board.ask (Some "#2"%string) None)
              (fst (Routes.handleAoe4Rank string Board.formatters Board.digits Board.server
                      (Board.ask (Some "#2"%string) None)))
              (Some tt)) as (calls & e & H).
  - right. vm_compute. reflexivity.
  - exists calls, e. exact H.
Defined.

Lemma handleAoe4Match_unknown_profile_witness :
  snd (Routes.handleAoe4Match string Board.formatters Board.digits Board.server
         (Board.ask None (Some "99"%string))) = None /\
  List.filter is_reply
    (fst (Routes.handleAoe4Match string Board.formatters Board.digits Board.server
            (Board.ask None (Some "99"%string)))) = [].
Proof.
  apply (handleAoe4Match_unknown_profile string Board.formatters Board.digits Board.server
           (Board.ask None (Some "99"%string)) "99"%string "json"%string).
  - reflexivity.
  - reflexivity.
  - reflexivity.
  - intros id [<- | []]. vm_compute. reflexivity.
  - intros id [= <-]. vm_compute. reflexivity.
Defined.

Lemma handleAoe4Match_rank_below_1_witness :
  Routes.handleAoe4Match string Board.formatters Board.digits Board.server
    (Board.ask (Some "#0"%string) None)
  = ([SendError string "json"%string NoPlayerFound], Some tt).
Proof.
  apply (handleAoe4Match_rank_below_1 string Board.formatters Board.digits Board.server
           (Board.ask (Some "#0"%string) None) "0"%string 0 "json"%string).
  - reflexivity.
  - reflexivity.
  - lia.
  - reflexivity.
Defined.

Lemma handleAoe4Rank_on_leaderboard_witness :
  "rm_1v1"%string = or_rm_1v1 None /\
  isValidLeaderboard (Some "rm_1v1"%string) = true /\
  exists l,
    modes (set_modes (Some [("rm_1v1"%string, Board.ladder 2 2050)])
             (Board.entry 12 2 2050 "Bob"))
    = Some [("rm_1v1"%string, l)].
Proof.
  apply (handleAoe4Rank_on_leaderboard string Board.formatters Board.digits Board.server
           (Board.ask (Some "Bob"%string) None) "Bob"%string
           (fst (Routes.handleAoe4Rank string Board.formatters Board.digits Board.server
                   (Board.ask (Some "Bob"%string) None)))
           (Some tt) "json"%string).
  - reflexivity.
  - vm_compute. reflexivity.
  - vm_compute. right. left. reflexivity.
Defined.

Lemma handlers_ask_integer_ids_witness :
  Js.Number_isInteger (Js.int 11) = true.
Proof.
  apply (handlers_ask_integer_ids string Board.formatters Board.digits Board.server
           (Board.ask None (Some "11,x"%string))
           (fst (Routes.handleAoe4Match string Board.formatters Board.digits Board.server
                   (Board.ask None (Some "11,x"%string))))
           (Some tt) (Js.int 11)).
  - left. vm_compute. reflexivity.
  - left. vm_compute. left. reflexivity.
Defined.

(** *** Time spans *)

Lemma double_exact z : z < 2 ^ 53 -> Js.double z = Some z.
Proof. intros H. unfold Js.double. by destruct (Z.ltb_spec z (2 ^ 53)); [|lia]. Qed.

(** X20. A suffix [last <number> <unit>] whose unit [parseTimespan] does not
    know, or whose number is 0, is not refused: the options it gives exist,
    and the games fetched and counted and the figures computed by
    [getPlayerWinRate] are those of the suffix [last session] (the two
    results differ only in the copy of [timespan] they carry, 0 and [null],
    which [WinRateStats] leaves out). *)
Theorem last_span_unknown_unit o number suffix server fuel subject now0 now :
  parseTimespan number suffix = NoSpan \/ decimal number = 0 ->
  exists o',
    last_span o number suffix = Some o' /\
    Handlers.getPlayerWinRate server fuel subject (Some o') now0 now
    = Handlers.getPlayerWinRate server fuel subject (Some (last_session o)) now0 now.
Proof.
  intros H.
  assert (times_3600 (parseTimespan number suffix) = Some 0) as Hzero.
  { destruct H as [-> | H]; [done|]. unfold parseTimespan, to_number.
    repeat case_match; cbn [times_3600]; unfold to_number; rewrite ?H; done. }
  unfold last_span. rewrite Hzero. eexists. split; [done|]. reflexivity.
Qed.

(** X21. A suffix [last <number> <unit>] with a unit of the table
    [unit_hours], worth [h] hours, and a number [n] above 0 gives the
    timespan of [n * h * 3600] seconds, as long as the milliseconds of that
    span stay below 2^53, where the arithmetic of the code is exact. With
    these options, when the enumeration comes to its end, [getPlayerWinRate]
    returns the figures of the games of that window: it stops at the first
    game that started more than [n * h * 3600] seconds before [now],
    whatever the idle time. *)
Theorem last_span_known_unit o number suffix h server fuel subject now0 now tr v :
  In (suffix, h) unit_hours ->
  0 < decimal number ->
  decimal number * h * 3600 * 1000 < 2 ^ 53 ->
  let t := decimal number * h * 3600 in
  let o' := with_timespan (Some t) o in
  last_span o number suffix = Some o' /\
  (forall lastgame gametime,
     Handlers.stops o' now lastgame gametime = (t * 1000 <? now - gametime)) /\
  (Api.drain server fuel (Handlers.gamesEnumerator subject o' now0) = (tr, Api.Done v) ->
   exists tr',
     Handlers.getPlayerWinRate server fuel subject (Some o') now0 now
     = (tr', Api.Done
               (Handlers.finish
                  (Spec.tally o' (Handlers.playerProfileIds subject) now Handlers.initial
                     (Spec.window t now (Api.yielded tr)))))).
Proof.
  intros Hunit Hpos Hsmall t o'.
  assert (0 < h <= 24 * 365 /\ times_3600 (parseTimespan number suffix) = Some t)
    as [Hh Htimes].
  { unfold unit_hours in Hunit. cbn [In] in Hunit. unfold t.
    repeat destruct Hunit as [[= <- <-] | Hunit]; try destruct Hunit;
      (split; [lia|]); cbn [parseTimespan one_of existsb String.eqb Ascii.eqb
                              Bool.eqb orb times_3600];
      unfold to_number, Js.times;
      repeat (rewrite double_exact by lia); f_equal; lia. }
  assert (t <> 0) as Hnz by (unfold t; nia).
  assert (Js.given (Handlers.timespan o') = Some t) as Hgiven.
  { cbn. by destruct (Z.eqb_spec t 0). }
  split; [|split].
  - unfold last_span. by rewrite Htimes.
  - intros lastgame gametime. unfold Handlers.stops. by rewrite Hgiven.
  - intros Hdrain.
    destruct (HandlersFacts.getPlayerWinRate_returns _ _ _ (Some o') _ now _ _ Hdrain)
      as [tr' Hret].
    exists tr'. rewrite Hret. f_equal. f_equal.
    rewrite HandlersFacts.winRateOf_consumed. cbn [Handlers.or_default].
    by rewrite (HandlersFacts.consumed_window o' now (Api.yielded tr) t 0 Hgiven).
Qed.

Lemma last_span_unknown_unit_witness :
  exists o',
    last_span Handlers.default_options "3" "fortnights" = Some o' /\
    Handlers.getPlayerWinRate Sample.evening_server 5 (Handlers.Single (Some 7))
      (Some o') Sample.T Sample.T
    = Handlers.getPlayerWinRate Sample.evening_server 5 (Handlers.Single (Some 7))
        (Some (last_session Handlers.default_options)) Sample.T Sample.T.
Proof.
  apply (last_span_unknown_unit Handlers.default_options "3" "fortnights"
           Sample.evening_server 5 (Handlers.Single (Some 7)) Sample.T Sample.T).
  left. reflexivity.
Defined.

(** X21, on profile 4 and [last 1 days]: the game one hour old is counted,
    the game 30 hours old is not. *)
Lemma last_span_known_unit_witness :
  exists tr' st,
    last_span Handlers.default_options "1" "days"
    = Some (with_timespan (Some (24 * 3600)) Handlers.default_options) /\
    Handlers.getPlayerWinRate Sample.evening_server 5 (Handlers.Single (Some 4))
      (Some (with_timespan (Some (24 * 3600)) Handlers.default_options))
      Sample.T Sample.T = (tr', Api.Done st) /\
    Handlers.games_count st = 1.
Proof.
  destruct (last_span_known_unit Handlers.default_options "1" "days" 24
              Sample.evening_server 5 (Handlers.Single (Some 4)) Sample.T Sample.T
              (Sample.evening_trace 4 (Sample.last_hours 24)) Js.Undefined)
    as (Hspan & _ & Hwin).
  - cbn. tauto.
  - reflexivity.
  - reflexivity.
  - destruct Hwin as [tr' Hret]; [vm_compute; reflexivity|].
    eexists tr', _. split; [exact Hspan|]. split; [exact Hret|].
    vm_compute. reflexivity.
Defined.

End RoutesFacts.

(** ** Time spans beyond the range of dates *)

Module RangeFacts.

Import Api ApiFacts Handlers.

(** X23. A timespan so long that [Date.now() - timespan * 1000] lies more
    than 8.64e15 milliseconds away from the epoch is no date:
    [getPlayerWinRate], for a subject with a profile and only valid
    profiles, throws the [RangeError] of [toISOString] before any request is
    sent and returns no statistics. *)
Theorem getPlayerWinRate_since_out_of_range
    server fuel player options now0 now t id rest :
  playerProfileIds player = Some id :: rest ->
  Forall is_Some rest ->
  Js.given (timespan (or_default options)) = Some t ->
  8640000000000000 < Z.abs (now0 - t * 1000) ->
  getPlayerWinRate server (S fuel) player options now0 now = ([], Thrown).
Proof.
  intros Hids Hrest Hspan Hfar. unfold getPlayerWinRate.
  destruct (gamesEnumerator player (or_default options) now0)
    as [pids opp since | ? ? ?] eqn:Hgen; [|discriminate].
  pose proof (AggregateFacts.gamesEnumerator_opponent_valid _ _ _ _ _ _ Hgen) as Hopp.
  unfold gamesEnumerator in Hgen. rewrite Hids, Hspan in Hgen.
  injection Hgen as <- _ <-.
  assert (dated (Some (now0 - t * 1000)) = false) as Hd.
  { unfold dated, Js.given, Js.is_time_value.
    destruct (Z.eqb_spec (now0 - t * 1000) 0); [lia|]. apply Z.leb_gt. lia. }
  cbn [for_await next as_array List.map js_of_id List.filter].
  rewrite MergeFacts.isInteger_int. cbn [negb].
  assert (List.filter (fun p => negb (Js.Number_isInteger p)) (List.map js_of_id rest) = [])
    as ->.
  { clear -Hrest. induction Hrest as [|x l [z ->] _ IH]; [done|].
    cbn [List.map js_of_id List.filter].
    by rewrite MergeFacts.isInteger_int. }
  assert (Js.truthy opp && negb (Js.Number_isInteger opp) = false) as ->.
  { destruct Hopp as [-> | ->]; [done | apply andb_false_r]. }
  cbn [length Nat.eqb negb]. by rewrite fetch_all_undated.
Qed.

(** X23, on the suffix [last 300000 years] asked at [T]. *)
Lemma getPlayerWinRate_since_out_of_range_witness :
  Routes.last_span default_options "300000" "years"
  = Some (Routes.with_timespan (Some 9460800000000) default_options) /\
  getPlayerWinRate Sample.evening_server 5 (Single (Some 3))
    (Some (Routes.with_timespan (Some 9460800000000) default_options))
    Sample.T Sample.T = ([], Thrown).
Proof.
  split; [reflexivity|].
  apply (getPlayerWinRate_since_out_of_range Sample.evening_server 4 (Single (Some 3))
           (Some (Routes.with_timespan (Some 9460800000000) default_options))
           Sample.T Sample.T 9460800000000 3 []).
  - reflexivity.
  - constructor.
  - reflexivity.
  - reflexivity.
Defined.

End RangeFacts.
